(** * Insurance OIDC demo: PKCE, session storage, step-up OTP and
      redirect landing, embedded from [src/ui/InsuranceDemoApp.tsx],
      [src/ui/ChatPanel.tsx] and [src/api.ts]. *)

From Stdlib Require Import ZArith NArith String Ascii List Bool Lia.
From stdpp Require Import gmap strings list fin_maps.

Local Open Scope string_scope.
Set Warnings "-register-all".

(* ===================================================================== *)
(** * PKCE helpers *)
(* ===================================================================== *)

Module Pkce.

(** ** Platform primitives

    [TextEncoder.encode], [crypto.subtle.digest("SHA-256", _)] and [btoa]
    are browser functions; they are written out here so that the helpers
    of the application can be evaluated. A JavaScript string is taken as the
    sequence of its code units, restricted to the range 0..255 (one [ascii]
    per code unit); a [Uint8Array] is a [list Byte.byte]. *)

Definition byte_of_N (n : N) : Byte.byte :=
  match Byte.of_N (n mod 256) with
  | Some b => b
  | None => Byte.x00
  end.

(** UTF-8 encoding of code units below 256: one byte below 128, two bytes
    otherwise. *)
Definition utf8_unit (c : ascii) : list Byte.byte :=
  let n := N_of_ascii c in
  if (n <? 128)%N then [byte_of_N n]
  else [byte_of_N (N.lor 192 (N.shiftr n 6)); byte_of_N (N.lor 128 (N.land n 63))].

Fixpoint TextEncoder_encode (s : string) : list Byte.byte :=
  match s with
  | EmptyString => []
  | String c r => utf8_unit c ++ TextEncoder_encode r
  end.

(** *** SHA-256 (FIPS 180-4) on 32-bit words held in [N] *)

Module Sha256.
Local Open Scope N_scope.

Definition mask32 : N := 4294967295.
Definition add32 (a b : N) : N := (a + b) mod 4294967296.
Definition rotr (n x : N) : N :=
  N.lor (N.shiftr x n) (N.land (N.shiftl x (32 - n)) mask32).
Definition not32 (x : N) : N := N.lxor x mask32.
Definition Ch (x y z : N) : N := N.lxor (N.land x y) (N.land (not32 x) z).
Definition Maj (x y z : N) : N :=
  N.lxor (N.lxor (N.land x y) (N.land x z)) (N.land y z).
Definition bsig0 (x : N) : N := N.lxor (N.lxor (rotr 2 x) (rotr 13 x)) (rotr 22 x).
Definition bsig1 (x : N) : N := N.lxor (N.lxor (rotr 6 x) (rotr 11 x)) (rotr 25 x).
Definition ssig0 (x : N) : N := N.lxor (N.lxor (rotr 7 x) (rotr 18 x)) (N.shiftr x 3).
Definition ssig1 (x : N) : N := N.lxor (N.lxor (rotr 17 x) (rotr 19 x)) (N.shiftr x 10).

(** The round constants are the first 32 bits of the fractional parts of
    the cube roots of the first 64 primes, the initial hash value those of
    the square roots of the first 8 primes. *)
Definition primes : list N :=
  [ 2; 3; 5; 7; 11; 13; 17; 19; 23; 29; 31; 37; 41; 43; 47; 53; 59; 61; 67;
    71; 73; 79; 83; 89; 97; 101; 103; 107; 109; 113; 127; 131; 137; 139; 149;
    151; 157; 163; 167; 173; 179; 181; 191; 193; 197; 199; 211; 223; 227;
    229; 233; 239; 241; 251; 257; 263; 269; 271; 277; 281; 283; 293; 307;
    311 ].

(** The integer cube root, found bit by bit from bit [bits - 1] down. *)
Fixpoint cube_root_from (bits : nat) (n r : N) : N :=
  match bits with
  | O => r
  | S b =>
      let r' := r + 2 ^ N.of_nat b in
      cube_root_from b n (if r' * r' * r' <=? n then r' else r)
  end.

Definition cube_root (n : N) : N := cube_root_from 36 n 0.

Definition K : list N :=
  map (fun p => cube_root (p * 2 ^ 96) mod 4294967296) primes.

Definition H0 : list N :=
  map (fun p => N.sqrt (p * 2 ^ 64) mod 4294967296) (firstn 8 primes).

(** Message padding: a [0x80] byte, zeros up to 56 mod 64, then the bit
    length as a 64-bit big-endian integer. *)
Fixpoint be_bytes (k : nat) (x : N) : list N :=
  match k with
  | O => []
  | S k' => be_bytes k' (x / 256) ++ [x mod 256]
  end.

Definition pad (msg : list N) : list N :=
  let len := N.of_nat (length msg) in
  let zeros := N.to_nat ((119 - len mod 64) mod 64) in
  msg ++ [128] ++ repeat 0 zeros ++ be_bytes 8 (8 * len).

Fixpoint words_of (fuel : nat) (bs : list N) : list N :=
  match fuel, bs with
  | S f, a :: b :: c :: d :: r =>
      (((a * 256 + b) * 256 + c) * 256 + d) :: words_of f r
  | _, _ => []
  end.

Fixpoint chunks (fuel : nat) (ws : list N) : list (list N) :=
  match fuel with
  | O => []
  | S f =>
      match ws with
      | [] => []
      | _ => firstn 16 ws :: chunks f (skipn 16 ws)
      end
  end.

Fixpoint schedule (fuel : nat) (w : list N) : list N :=
  match fuel with
  | O => w
  | S f =>
      let t := length w in
      let x := add32 (add32 (ssig1 (nth (t - 2) w 0)) (nth (t - 7) w 0))
                     (add32 (ssig0 (nth (t - 15) w 0)) (nth (t - 16) w 0)) in
      schedule f (w ++ [x])
  end.

Record regs := { ra : N; rb : N; rc : N; rd : N; re : N; rf : N; rg : N; rh : N }.

Definition round (r : regs) (kw : N * N) : regs :=
  let t1 := add32 (add32 (add32 (rh r) (bsig1 (re r))) (Ch (re r) (rf r) (rg r)))
                  (add32 (fst kw) (snd kw)) in
  let t2 := add32 (bsig0 (ra r)) (Maj (ra r) (rb r) (rc r)) in
  {| ra := add32 t1 t2; rb := ra r; rc := rb r; rd := rc r;
     re := add32 (rd r) t1; rf := re r; rg := rf r; rh := rg r |}.

Definition regs_of (h : list N) : regs :=
  {| ra := nth 0 h 0; rb := nth 1 h 0; rc := nth 2 h 0; rd := nth 3 h 0;
     re := nth 4 h 0; rf := nth 5 h 0; rg := nth 6 h 0; rh := nth 7 h 0 |}.

Definition list_of (r : regs) : list N :=
  [ra r; rb r; rc r; rd r; re r; rf r; rg r; rh r].

Definition compress (h : list N) (block : list N) : list N :=
  let w := schedule 48 block in
  let r := fold_left round (combine K w) (regs_of h) in
  map (fun p => add32 (fst p) (snd p)) (combine h (list_of r)).

Definition digest (msg : list Byte.byte) : list Byte.byte :=
  let bs := pad (map Byte.to_N msg) in
  let ws := words_of (length bs) bs in
  let h := fold_left compress (chunks (length ws) ws) H0 in
  map byte_of_N (flat_map (be_bytes 4) h).

End Sha256.

(** *** [btoa] on a binary string built from bytes *)

Definition std_alphabet : list ascii :=
  list_ascii_of_string
    "ABCDEFGHIJKLMNOPQRSTUVWXYZabcdefghijklmnopqrstuvwxyz0123456789+/".

Definition url_alphabet : list ascii :=
  list_ascii_of_string
    "ABCDEFGHIJKLMNOPQRSTUVWXYZabcdefghijklmnopqrstuvwxyz0123456789-_".

Definition sextet (alphabet : list ascii) (i : N) : ascii :=
  nth (N.to_nat i) alphabet "A"%char.

Definition idx1 (a : Byte.byte) : N := N.shiftr (Byte.to_N a) 2.
Definition idx2 (a b : Byte.byte) : N :=
  N.lor (N.shiftl (N.land (Byte.to_N a) 3) 4) (N.shiftr (Byte.to_N b) 4).
Definition idx3 (b c : Byte.byte) : N :=
  N.lor (N.shiftl (N.land (Byte.to_N b) 15) 2) (N.shiftr (Byte.to_N c) 6).
Definition idx4 (c : Byte.byte) : N := N.land (Byte.to_N c) 63.

(** Base64 over [alphabet]; [padding] is appended once per missing byte of
    the last group. *)
Fixpoint base64_with (alphabet : list ascii) (padding : string)
    (bs : list Byte.byte) : string :=
  match bs with
  | [] => EmptyString
  | [a] =>
      String (sextet alphabet (idx1 a))
        (String (sextet alphabet (idx2 a Byte.x00)) (padding ++ padding))
  | [a; b] =>
      String (sextet alphabet (idx1 a))
        (String (sextet alphabet (idx2 a b))
           (String (sextet alphabet (idx3 b Byte.x00)) padding))
  | a :: b :: c :: r =>
      String (sextet alphabet (idx1 a))
        (String (sextet alphabet (idx2 a b))
           (String (sextet alphabet (idx3 b c))
              (String (sextet alphabet (idx4 c))
                 (base64_with alphabet padding r))))
  end.

Definition btoa (bs : list Byte.byte) : string := base64_with std_alphabet "=" bs.

(** [s.replace(/c/g, d)] for a one-character pattern. *)
Fixpoint replace_all (c d : ascii) (s : string) : string :=
  match s with
  | EmptyString => EmptyString
  | String x r => String (if Ascii.eqb x c then d else x) (replace_all c d r)
  end.

(** [s.replace(/=+$/, "")]: the trailing run of [=] is removed. *)
Fixpoint strip_trailing_eq (s : string) : string :=
  match s with
  | EmptyString => EmptyString
  | String x r =>
      match strip_trailing_eq r with
      | EmptyString => if Ascii.eqb x "=" then EmptyString else String x EmptyString
      | r' => String x r'
      end
  end.

(** ** The application's helpers (InsuranceDemoApp.tsx, lines 28-38) *)

Definition base64UrlEncode (arrayBuffer : list Byte.byte) : string :=
  let base64 := btoa arrayBuffer in
  strip_trailing_eq (replace_all "/" "_" (replace_all "+" "-" base64)).

Definition sha256 (buffer : string) : string :=
  let data := TextEncoder_encode buffer in
  let digest := Sha256.digest data in
  base64UrlEncode digest.

(** The challenge as the specification words it: the base64url alphabet
    applied directly, with no padding ever produced. *)
Definition base64url_nopad (bs : list Byte.byte) : string :=
  base64_with url_alphabet "" bs.

Definition challengeFor_spec (verifier : string) : string :=
  base64url_nopad (Sha256.digest (TextEncoder_encode verifier)).

Fixpoint mentions (c : ascii) (s : string) : bool :=
  match s with
  | EmptyString => false
  | String x r => Ascii.eqb x c || mentions c r
  end.

End Pkce.


(* ===================================================================== *)
(** * JavaScript values *)
(* ===================================================================== *)

Module Js.

(** The values the application handles are what [JSON.parse] returns, plus
    [undefined]. Numbers are restricted to integers and strings to code
    units below 256; object identity is not represented. An object is the
    list of its own properties in enumeration order. *)
Inductive value : Type :=
| Undef
| Null
| Bool (b : bool)
| Num (n : Z)
| Str (s : string)
| Arr (items : list value)
| Obj (fields : list (string * value)).

(** A thrown value: every exception raised on the modelled paths is an
    [Error] (or [TypeError], [SyntaxError], [DOMException]) object. *)
Record exn : Type := { ename : string; emessage : string }.

Inductive result (A : Type) : Type :=
| Ok (a : A)
| Throw (e : exn).
Arguments Ok {A} a.
Arguments Throw {A} e.

Definition Error (msg : string) : exn := {| ename := "Error"; emessage := msg |}.
Definition TypeError (msg : string) : exn := {| ename := "TypeError"; emessage := msg |}.

(** [ToBoolean]. *)
Definition truthy (v : value) : bool :=
  match v with
  | Undef | Null => false
  | Bool b => b
  | Num n => negb (n =? 0)%Z
  | Str s => negb (String.eqb s "")
  | Arr _ | Obj _ => true
  end.

(** [a || b]. *)
Definition or_else (a b : value) : value := if truthy a then a else b.
Infix "|||" := or_else (at level 50, left associativity).

Definition nullish (v : value) : bool :=
  match v with
  | Undef | Null => true
  | _ => false
  end.

Fixpoint lookup_field (k : string) (fs : list (string * value)) : value :=
  match fs with
  | [] => Undef
  | (k', v) :: r => if String.eqb k' k then v else lookup_field k r
  end.

(** [o[k] = v] on an object: an existing property keeps its place. *)
Fixpoint set_field (k : string) (v : value) (fs : list (string * value))
    : list (string * value) :=
  match fs with
  | [] => [(k, v)]
  | (k', v') :: r =>
      if String.eqb k' k then (k', v) :: r else (k', v') :: set_field k v r
  end.

(** [v.k] for a value that is neither [null] nor [undefined] and a name [k]
    that is none of the built-in properties of strings, numbers, booleans
    and arrays (all the names read by the application except [find], which
    [links_find] treats on its own). *)
Definition prop (k : string) (v : value) : value :=
  match v with
  | Obj fs => lookup_field k fs
  | _ => Undef
  end.

(** [v?.k]. *)
Definition oprop (k : string) (v : value) : value :=
  if nullish v then Undef else prop k v.

(** [v?.[0]]. *)
Definition oat0 (v : value) : value :=
  match v with
  | Arr (x :: _) => x
  | Str (String c _) => Str (String c EmptyString)
  | Obj fs => lookup_field "0" fs
  | _ => Undef
  end.

(** [a === b]; two arrays or objects are never taken to be the same
    reference. *)
Definition strict_equal (a b : value) : bool :=
  match a, b with
  | Undef, Undef | Null, Null => true
  | Bool x, Bool y => Bool.eqb x y
  | Num x, Num y => (x =? y)%Z
  | Str x, Str y => String.eqb x y
  | _, _ => false
  end.

(** Decimal digits of a natural number. *)
Definition digit_char (d : N) : ascii := ascii_of_N (48 + d).

Fixpoint print_N_go (fuel : nat) (n : N) (suffix : string) : string :=
  match fuel with
  | O => suffix
  | S f =>
      let s := String (digit_char (n mod 10)) suffix in
      if (n <? 10)%N then s else print_N_go f (n / 10) s
  end.

Definition print_N (n : N) : string := print_N_go (S (N.to_nat (N.log2 n))) n "".

Definition print_Z (z : Z) : string :=
  match z with
  | Zneg p => String "-" (print_N (Npos p))
  | _ => print_N (Z.to_N z)
  end.

Fixpoint join (sep : string) (l : list string) : string :=
  match l with
  | [] => ""
  | [x] => x
  | x :: r => x ++ sep ++ join sep r
  end.

(** [String(v)]. *)
Fixpoint to_string (v : value) : string :=
  match v with
  | Undef => "undefined"
  | Null => "null"
  | Bool true => "true"
  | Bool false => "false"
  | Num n => print_Z n
  | Str s => s
  | Arr l =>
      join "," (map (fun x => if nullish x then "" else to_string x) l)
  | Obj _ => "[object Object]"
  end.

End Js.
Export Js.


(* ===================================================================== *)
(** * JSON.stringify and JSON.parse *)
(* ===================================================================== *)

Module Json.

(** Platform functions, written out for the values of [Js.value]: integers
    and strings of code units below 256. [JSON_parse] reads the JSON texts
    that denote such values. A number text with a fraction or an exponent
    and a [\u] escape above [00ff] are JSON as well, but denote no modelled
    value: [JSON_parse] answers [None] on them, and [JSON_valid] below
    tells them from the texts that are no JSON, on which [JSON.parse]
    throws. *)

Definition dquote : ascii := "034"%char.
Definition backslash : ascii := "092"%char.

Definition hex_digit (n : N) : ascii :=
  if (n <? 10)%N then ascii_of_N (48 + n) else ascii_of_N (87 + n).

Definition escape_unit (c : ascii) : string :=
  let n := N_of_ascii c in
  if Ascii.eqb c dquote then String backslash (String dquote "")
  else if Ascii.eqb c backslash then String backslash (String backslash "")
  else if (n =? 8)%N then String backslash "b"
  else if (n =? 9)%N then String backslash "t"
  else if (n =? 10)%N then String backslash "n"
  else if (n =? 12)%N then String backslash "f"
  else if (n =? 13)%N then String backslash "r"
  else if (n <? 32)%N then
    String backslash
      (String "u" (String "0" (String "0"
         (String (hex_digit (n / 16)) (String (hex_digit (n mod 16)) "")))))
  else String c "".

Fixpoint escape (s : string) : string :=
  match s with
  | EmptyString => EmptyString
  | String c r => escape_unit c ++ escape r
  end.

Definition quote (s : string) : string :=
  String dquote (escape s ++ String dquote "").

(** The serialisation of a value; [None] where [JSON.stringify] returns
    [undefined]. An [undefined] array element is written [null], an
    [undefined] property is left out. *)
Fixpoint stringify (v : value) : option string :=
  match v with
  | Undef => None
  | Null => Some "null"
  | Bool true => Some "true"
  | Bool false => Some "false"
  | Num n => Some (print_Z n)
  | Str s => Some (quote s)
  | Arr l =>
      let elems :=
        (fix elems (l : list value) : list string :=
           match l with
           | [] => []
           | x :: r =>
               match stringify x with
               | Some t => t
               | None => "null"
               end :: elems r
           end) l in
      Some ("[" ++ join "," elems ++ "]")
  | Obj fs =>
      let members :=
        (fix members (fs : list (string * value)) : list string :=
           match fs with
           | [] => []
           | (k, x) :: r =>
               match stringify x with
               | Some t => (quote k ++ ":" ++ t) :: members r
               | None => members r
               end
           end) fs in
      Some ("{" ++ join "," members ++ "}")
  end.

Definition JSON_stringify (v : value) : option string := stringify v.

(** *** Parsing *)

Definition is_ws (c : ascii) : bool :=
  let n := N_of_ascii c in
  (n =? 32)%N || (n =? 9)%N || (n =? 10)%N || (n =? 13)%N.

Fixpoint skip_ws (s : string) : string :=
  match s with
  | EmptyString => EmptyString
  | String c r => if is_ws c then skip_ws r else s
  end.

Definition is_digit (c : ascii) : bool :=
  let n := N_of_ascii c in (48 <=? n)%N && (n <=? 57)%N.

Definition hex_val (c : ascii) : option N :=
  let n := N_of_ascii c in
  if (48 <=? n)%N && (n <=? 57)%N then Some (n - 48)%N
  else if (97 <=? n)%N && (n <=? 102)%N then Some (n - 87)%N
  else if (65 <=? n)%N && (n <=? 70)%N then Some (n - 55)%N
  else None.

Definition hex4 (a b c d : ascii) : option N :=
  match hex_val a, hex_val b, hex_val c, hex_val d with
  | Some x, Some y, Some z, Some w => Some (((x * 16 + y) * 16 + z) * 16 + w)%N
  | _, _, _, _ => None
  end.

Definition unescape (e : ascii) : option ascii :=
  if Ascii.eqb e dquote then Some dquote
  else if Ascii.eqb e backslash then Some backslash
  else if Ascii.eqb e "/" then Some "/"%char
  else if Ascii.eqb e "b" then Some (ascii_of_N 8)
  else if Ascii.eqb e "t" then Some (ascii_of_N 9)
  else if Ascii.eqb e "n" then Some (ascii_of_N 10)
  else if Ascii.eqb e "f" then Some (ascii_of_N 12)
  else if Ascii.eqb e "r" then Some (ascii_of_N 13)
  else None.

Definition push (c : ascii) (p : option (string * string)) : option (string * string) :=
  match p with
  | Some (t, rest) => Some (String c t, rest)
  | None => None
  end.

(** The characters of a string literal, read after its opening quote. *)
Fixpoint parse_chars (s : string) : option (string * string) :=
  match s with
  | EmptyString => None
  | String c r =>
      if Ascii.eqb c dquote then Some (EmptyString, r)
      else if Ascii.eqb c backslash then
        match r with
        | EmptyString => None
        | String e r1 =>
            if Ascii.eqb e "u" then
              match r1 with
              | String h1 (String h2 (String h3 (String h4 r2))) =>
                  match hex4 h1 h2 h3 h4 with
                  | Some n =>
                      if (n <? 256)%N then push (ascii_of_N n) (parse_chars r2)
                      else None
                  | None => None
                  end
              | _ => None
              end
            else
              match unescape e with
              | Some x => push x (parse_chars r1)
              | None => None
              end
        end
      else if (N_of_ascii c <? 32)%N then None
      else push c (parse_chars r)
  end.

Fixpoint read_digits (acc : N) (s : string) : N * string :=
  match s with
  | EmptyString => (acc, s)
  | String c r =>
      if is_digit c then read_digits (acc * 10 + (N_of_ascii c - 48))%N r
      else (acc, s)
  end.

Definition parse_nat (s : string) : option (N * string) :=
  match s with
  | EmptyString => None
  | String c r =>
      if Ascii.eqb c "0" then Some (0%N, r)
      else if is_digit c then Some (read_digits 0 s)
      else None
  end.

Definition integer_end (s : string) : bool :=
  match s with
  | EmptyString => true
  | String c _ => negb (Ascii.eqb c "." || Ascii.eqb c "e" || Ascii.eqb c "E")
  end.

Definition parse_number (s : string) : option (value * string) :=
  match s with
  | EmptyString => None
  | String c r =>
      match (if Ascii.eqb c "-" then parse_nat r else parse_nat s) with
      | Some (n, rest) =>
          if integer_end rest
          then Some (Num (if Ascii.eqb c "-" then - Z.of_N n else Z.of_N n)%Z, rest)
          else None
      | None => None
      end
  end.

Fixpoint expect (word : string) (s : string) : option string :=
  match word, s with
  | EmptyString, _ => Some s
  | String w word', String c r => if Ascii.eqb w c then expect word' r else None
  | String _ _, EmptyString => None
  end.

Definition literal (word : string) (v : value) (s : string) : option (value * string) :=
  match expect word s with
  | Some rest => Some (v, rest)
  | None => None
  end.

Definition define_all (ms : list (string * value)) : list (string * value) :=
  fold_left (fun acc kv => set_field (fst kv) (snd kv) acc) ms [].

(** The elements of an array after its opening bracket, each read by
    [pv]; [n] bounds their number. *)
Fixpoint parse_elems (pv : string -> option (value * string)) (n : nat) (s : string)
    : option (list value * string) :=
  match n with
  | O => None
  | S n' =>
      match pv s with
      | None => None
      | Some (v, s1) =>
          match skip_ws s1 with
          | EmptyString => None
          | String d s2 =>
              if Ascii.eqb d "," then
                match parse_elems pv n' s2 with
                | Some (vs, s3) => Some (v :: vs, s3)
                | None => None
                end
              else if Ascii.eqb d "]" then Some ([v], s2)
              else None
          end
      end
  end.

(** The members of an object after its opening brace. *)
Fixpoint parse_members (pv : string -> option (value * string)) (n : nat) (s : string)
    : option (list (string * value) * string) :=
  match n with
  | O => None
  | S n' =>
      match skip_ws s with
      | EmptyString => None
      | String q s0 =>
          if Ascii.eqb q dquote then
            match parse_chars s0 with
            | None => None
            | Some (k, s1) =>
                match skip_ws s1 with
                | EmptyString => None
                | String col s2 =>
                    if Ascii.eqb col ":" then
                      match pv s2 with
                      | None => None
                      | Some (v, s3) =>
                          match skip_ws s3 with
                          | EmptyString => None
                          | String d s4 =>
                              if Ascii.eqb d "," then
                                match parse_members pv n' s4 with
                                | Some (ms, s5) => Some ((k, v) :: ms, s5)
                                | None => None
                                end
                              else if Ascii.eqb d "}" then Some ([(k, v)], s4)
                              else None
                          end
                      end
                    else None
                end
            end
          else None
      end
  end.

(** Recursive descent; [fuel] bounds the nesting depth, and the loops over
    elements and members are bounded by the length of the text left. *)
Fixpoint parse_value (fuel : nat) (s : string) : option (value * string) :=
  match fuel with
  | O => None
  | S f =>
      match skip_ws s with
      | EmptyString => None
      | String c r =>
          if Ascii.eqb c "n" then literal "ull" Null r
          else if Ascii.eqb c "t" then literal "rue" (Bool true) r
          else if Ascii.eqb c "f" then literal "alse" (Bool false) r
          else if Ascii.eqb c dquote then
            match parse_chars r with
            | Some (t, rest) => Some (Str t, rest)
            | None => None
            end
          else if Ascii.eqb c "[" then
            match skip_ws r with
            | EmptyString => None
            | String c1 r1 =>
                if Ascii.eqb c1 "]" then Some (Arr [], r1)
                else
                  match parse_elems (parse_value f) (String.length r) r with
                  | Some (vs, rest) => Some (Arr vs, rest)
                  | None => None
                  end
            end
          else if Ascii.eqb c "{" then
            match skip_ws r with
            | EmptyString => None
            | String c1 r1 =>
                if Ascii.eqb c1 "}" then Some (Obj [], r1)
                else
                  match parse_members (parse_value f) (String.length r) r with
                  | Some (ms, rest) => Some (Obj (define_all ms), rest)
                  | None => None
                  end
            end
          else parse_number (String c r)
      end
  end.

(** [JSON.parse] on the texts of modelled values. [None] stands for the
    [SyntaxError] it throws on a text that is no JSON; it is also the
    answer on JSON outside the modelled values, which [modelled] of the
    vocabulary below sets apart. *)
Definition JSON_parse (s : string) : option value :=
  match parse_value (S (String.length s)) s with
  | Some (v, rest) =>
      match skip_ws rest with
      | EmptyString => Some v
      | String _ _ => None
      end
  | None => None
  end.

(** *** The JSON grammar *)

(** [JSON.parse] accepts the texts of ECMA-404: a value between white
    space, where a number is an integer part, an optional fraction and an
    optional exponent, and a string holds any units from [0x20] on besides
    the quote and the backslash, and the escapes. The recogniser below
    follows [parse_value] and tells whether a text is such a text,
    whatever its numbers and escapes are. *)

Fixpoint skip_digits (s : string) : string :=
  match s with
  | EmptyString => EmptyString
  | String c r => if is_digit c then skip_digits r else s
  end.

(** One digit or more. *)
Definition digits (s : string) : option string :=
  match s with
  | EmptyString => None
  | String c r => if is_digit c then Some (skip_digits r) else None
  end.

(** [0], or a digit other than [0] and the digits after it. *)
Definition valid_int (s : string) : option string :=
  match s with
  | EmptyString => None
  | String c r =>
      if Ascii.eqb c "0" then Some r
      else if is_digit c then Some (skip_digits r)
      else None
  end.

Definition valid_frac (s : string) : option string :=
  match s with
  | String c r => if Ascii.eqb c "." then digits r else Some s
  | EmptyString => Some s
  end.

Definition valid_exp (s : string) : option string :=
  match s with
  | String c r =>
      if Ascii.eqb c "e" || Ascii.eqb c "E" then
        match r with
        | String sign r1 =>
            if Ascii.eqb sign "+" || Ascii.eqb sign "-" then digits r1 else digits r
        | EmptyString => None
        end
      else Some s
  | EmptyString => Some s
  end.

Definition valid_number (s : string) : option string :=
  match s with
  | EmptyString => None
  | String c r =>
      match valid_int (if Ascii.eqb c "-" then r else s) with
      | Some rest =>
          match valid_frac rest with
          | Some rest1 => valid_exp rest1
          | None => None
          end
      | None => None
      end
  end.

(** The characters of a string literal, after its opening quote. *)
Fixpoint valid_chars (s : string) : option string :=
  match s with
  | EmptyString => None
  | String c r =>
      if Ascii.eqb c dquote then Some r
      else if Ascii.eqb c backslash then
        match r with
        | EmptyString => None
        | String e r1 =>
            if Ascii.eqb e "u" then
              match r1 with
              | String h1 (String h2 (String h3 (String h4 r2))) =>
                  match hex4 h1 h2 h3 h4 with
                  | Some _ => valid_chars r2
                  | None => None
                  end
              | _ => None
              end
            else
              match unescape e with
              | Some _ => valid_chars r1
              | None => None
              end
        end
      else if (N_of_ascii c <? 32)%N then None
      else valid_chars r
  end.

Fixpoint valid_elems (vv : string -> option string) (n : nat) (s : string)
    : option string :=
  match n with
  | O => None
  | S n' =>
      match vv s with
      | None => None
      | Some s1 =>
          match skip_ws s1 with
          | EmptyString => None
          | String d s2 =>
              if Ascii.eqb d "," then valid_elems vv n' s2
              else if Ascii.eqb d "]" then Some s2
              else None
          end
      end
  end.

Fixpoint valid_members (vv : string -> option string) (n : nat) (s : string)
    : option string :=
  match n with
  | O => None
  | S n' =>
      match skip_ws s with
      | EmptyString => None
      | String q s0 =>
          if Ascii.eqb q dquote then
            match valid_chars s0 with
            | None => None
            | Some s1 =>
                match skip_ws s1 with
                | EmptyString => None
                | String col s2 =>
                    if Ascii.eqb col ":" then
                      match vv s2 with
                      | None => None
                      | Some s3 =>
                          match skip_ws s3 with
                          | EmptyString => None
                          | String d s4 =>
                              if Ascii.eqb d "," then valid_members vv n' s4
                              else if Ascii.eqb d "}" then Some s4
                              else None
                          end
                      end
                    else None
                end
            end
          else None
      end
  end.

Fixpoint valid_value (fuel : nat) (s : string) : option string :=
  match fuel with
  | O => None
  | S f =>
      match skip_ws s with
      | EmptyString => None
      | String c r =>
          if Ascii.eqb c "n" then expect "ull" r
          else if Ascii.eqb c "t" then expect "rue" r
          else if Ascii.eqb c "f" then expect "alse" r
          else if Ascii.eqb c dquote then valid_chars r
          else if Ascii.eqb c "[" then
            match skip_ws r with
            | EmptyString => None
            | String c1 r1 =>
                if Ascii.eqb c1 "]" then Some r1
                else valid_elems (valid_value f) (String.length r) r
            end
          else if Ascii.eqb c "{" then
            match skip_ws r with
            | EmptyString => None
            | String c1 r1 =>
                if Ascii.eqb c1 "}" then Some r1
                else valid_members (valid_value f) (String.length r) r
            end
          else valid_number (String c r)
      end
  end.

(** The text is JSON: [JSON.parse] does not throw on it. *)
Definition JSON_valid (s : string) : bool :=
  match valid_value (S (String.length s)) s with
  | Some rest =>
      match skip_ws rest with
      | EmptyString => true
      | String _ _ => false
      end
  | None => false
  end.

End Json.
Export Json.

(* ===================================================================== *)
(** * sessionStorage *)
(* ===================================================================== *)

Module Storage.

(** The tab's [sessionStorage]: its entries, whether the page may use it
    at all (every access raises a [SecurityError] otherwise) and the room
    it has (a write that would exceed it raises [QuotaExceededError]). *)
Record t : Type := { items : gmap string string; enabled : bool; quota : N }.

Definition footprint (m : gmap string string) : N :=
  map_fold (fun k v acc => N.of_nat (String.length k + String.length v) + acc)%N 0%N m.

Definition SecurityError : exn :=
  {| ename := "SecurityError"; emessage := "The operation is insecure." |}.
Definition QuotaExceededError : exn :=
  {| ename := "QuotaExceededError"; emessage := "The quota has been exceeded." |}.

Definition getItem (k : string) (st : t) : result (option string) :=
  if enabled st then Ok (items st !! k) else Throw SecurityError.

Definition setItem (k v : string) (st : t) : result t :=
  if enabled st then
    let m := <[k := v]> (items st) in
    if (footprint m <=? quota st)%N
    then Ok {| items := m; enabled := enabled st; quota := quota st |}
    else Throw QuotaExceededError
  else Throw SecurityError.

Definition removeItem (k : string) (st : t) : result t :=
  if enabled st
  then Ok {| items := delete k (items st); enabled := enabled st; quota := quota st |}
  else Throw SecurityError.

End Storage.

(** ** Session helpers (InsuranceDemoApp.tsx, lines 52-56) *)

(** [sessionStorage.setItem] receives [JSON.stringify(value)], converted to
    a string ([undefined] becomes the text "undefined"). *)
Definition saveSession (key : string) (value : Js.value) (st : Storage.t) : Storage.t :=
  let text := match JSON_stringify value with
              | Some t => t
              | None => "undefined"
              end in
  match Storage.setItem key text st with
  | Ok st' => st'
  | Throw _ => st
  end.

Definition loadSession (key : string) (fallback : Js.value) (st : Storage.t) : Js.value :=
  match Storage.getItem key st with
  | Ok (Some v) =>
      if String.eqb v "" then fallback
      else match JSON_parse v with
           | Some x => x
           | None => fallback
           end
  | Ok None => fallback
  | Throw _ => fallback
  end.

(* ===================================================================== *)
(** * fetch *)
(* ===================================================================== *)

Module Http.

Inductive payload : Type :=
| NoBody
| Form (params : list (string * string))  (* URLSearchParams *)
| Text (text : string).

Record request : Type := {
  url : string;
  method : string;
  headers : list (string * string);
  body : payload;
  credentials_include : bool
}.

(** A response: its status and its body, [None] when the body cannot be
    read. *)
Record response : Type := { status : nat; content : option string }.

Definition ok (r : response) : bool :=
  ((200 <=? status r) && (status r <=? 299))%nat.

(** [res.text()] and [res.json()]; [None] when the promise rejects. The
    body can be read once: [used] tells that it has been. As [JSON_parse]
    does, [json] answers [None] also on a body that is JSON outside the
    modelled values; [readable] of the vocabulary below excludes such
    replies. *)
Definition text (used : bool) (r : response) : option string :=
  if used then None else content r.

Definition json (used : bool) (r : response) : option Js.value :=
  match text used r with
  | Some t => JSON_parse t
  | None => None
  end.

(** What awaiting [fetch(...)] gives. *)
Inductive outcome : Type :=
| Rejected (e : exn)
| Resolved (r : response).

(** [URLSearchParams.set]. *)
Fixpoint params_set (k v : string) (ps : list (string * string)) : list (string * string) :=
  match ps with
  | [] => [(k, v)]
  | (k', v') :: r =>
      if String.eqb k' k then (k, v) :: filter (fun p => negb (String.eqb (fst p) k)) r
      else (k', v') :: params_set k v r
  end.

(** [URLSearchParams.get]. *)
Fixpoint params_get (k : string) (ps : list (string * string)) : option string :=
  match ps with
  | [] => None
  | (k', v) :: r => if String.eqb k' k then Some v else params_get k r
  end.

End Http.
Import Http.

Definition status_text (n : nat) : string := print_N (N.of_nat n).

(* ===================================================================== *)
(** * Vehicles API (api.ts) *)
(* ===================================================================== *)

Module Api.

(** [API_CONFIG] of [src/config.ts] (not part of the sources): the two
    addresses used here. *)
Record api_config : Type := {
  GET_VEHICLES_URL : string;
  BUY_INSURANCE_URL : string
}.

(** The [Vehicle] literals of [mockVehicles] (api.ts, lines 43-102). *)

Definition vehicle (vehicleId make model registrationNumber type : string)
    (manufactureYear estimatedValue : Z) (insuranceStatus : list (string * value))
    (canGetQuote canBuyInsurance canViewPolicy : bool) : value :=
  Obj [ ("vehicleId", Str vehicleId);
        ("make", Str make);
        ("model", Str model);
        ("registrationNumber", Str registrationNumber);
        ("type", Str type);
        ("manufactureYear", Num manufactureYear);
        ("estimatedValue", Num estimatedValue);
        ("currency", Str "LKR");
        ("insuranceStatus", Obj insuranceStatus);
        ("actionsAvailable",
          Obj [ ("canGetQuote", Bool canGetQuote);
                ("canBuyInsurance", Bool canBuyInsurance);
                ("canViewPolicy", Bool canViewPolicy) ]) ].

Definition mockVehicles : value :=
  Arr [ vehicle "VEH-001" "Toyota" "Corolla" "WP-CA-4521" "CAR" 2022 4500000
          [ ("isInsured", Bool true); ("policyId", Str "POL-2025-000874");
            ("insuredUntil", Str "2025-12-31") ]
          false false true;
        vehicle "VEH-002" "Honda" "Civic" "WP-CB-7834" "CAR" 2021 3800000
          [ ("isInsured", Bool true); ("policyId", Str "POL-2025-000874");
            ("insuredUntil", Str "2025-12-31") ]
          false false true;
        vehicle "VEH-003" "Toyota" "Hiace" "WP-KA-9912" "VAN" 2020 5200000
          [ ("isInsured", Bool false) ]
          true false false ].

Definition isArray (v : value) : bool :=
  match v with
  | Arr _ => true
  | _ => false
  end.

Section Fetch.
Variable API_CONFIG : api_config.

Definition fetchVehicles_request (accessToken : string) : request :=
  {| url := GET_VEHICLES_URL API_CONFIG;
     method := "GET";
     headers := [ ("Authorization", "Bearer " ++ accessToken);
                  ("Accept", "application/json") ];
     body := NoBody;
     credentials_include := false |}.

(** [fetchVehicles], given what the request came back with. *)
Definition fetchVehicles (accessToken : string) (reply : outcome) : result value :=
  match reply with
  | Rejected e => Throw e
  | Resolved res =>
      if (status res =? 204)%nat then Ok mockVehicles
      else if negb (ok res) then Ok mockVehicles
      else
        let data := match json false res with
                    | Some d => d
                    | None => Null
                    end in
        if negb (truthy data) then Ok mockVehicles
        else if isArray data then Ok data
        else if isArray (prop "vehicles" data) then Ok (prop "vehicles" data)
        else if truthy (oprop "list" data) && isArray (prop "list" data)
        then Ok (prop "list" data)
        else Ok mockVehicles
  end.

End Fetch.
End Api.

(* ===================================================================== *)
(** * Text helpers of the step-up flow *)
(* ===================================================================== *)

Module Jwt.

(** [s.split(".")]. *)
Fixpoint split_dot (s : string) : list string :=
  match s with
  | EmptyString => [EmptyString]
  | String c r =>
      if Ascii.eqb c "." then EmptyString :: split_dot r
      else match split_dot r with
           | h :: t => String c h :: t
           | [] => [String c EmptyString]
           end
  end.

Definition sextet_val (c : ascii) : option N :=
  let n := N_of_ascii c in
  if (65 <=? n)%N && (n <=? 90)%N then Some (n - 65)%N
  else if (97 <=? n)%N && (n <=? 122)%N then Some (n - 71)%N
  else if (48 <=? n)%N && (n <=? 57)%N then Some (n + 4)%N
  else if (n =? 43)%N then Some 62%N
  else if (n =? 47)%N then Some 63%N
  else None.

Fixpoint sextets (s : string) : option (list N) :=
  match s with
  | EmptyString => Some []
  | String c r =>
      match sextet_val c, sextets r with
      | Some v, Some vs => Some (v :: vs)
      | _, _ => None
      end
  end.

Fixpoint drop_ascii_ws (s : string) : string :=
  match s with
  | EmptyString => EmptyString
  | String c r =>
      let n := N_of_ascii c in
      if (n =? 9)%N || (n =? 10)%N || (n =? 12)%N || (n =? 13)%N || (n =? 32)%N
      then drop_ascii_ws r
      else String c (drop_ascii_ws r)
  end.

(** Removes one or two [=] that end the text. *)
Fixpoint drop_padding (s : string) : string :=
  match s with
  | EmptyString => EmptyString
  | String c r =>
      if Ascii.eqb c "=" && (String.eqb r "" || String.eqb r "=") then EmptyString
      else String c (drop_padding r)
  end.

Fixpoint decode_groups (vs : list N) : string :=
  match vs with
  | a :: b :: c :: d :: r =>
      String (ascii_of_N (a * 4 + b / 16))
        (String (ascii_of_N ((b mod 16) * 16 + c / 4))
           (String (ascii_of_N ((c mod 4) * 64 + d)) (decode_groups r)))
  | [a; b; c] =>
      String (ascii_of_N (a * 4 + b / 16))
        (String (ascii_of_N ((b mod 16) * 16 + c / 4)) EmptyString)
  | [a; b] => String (ascii_of_N (a * 4 + b / 16)) EmptyString
  | _ => EmptyString
  end%N.

(** [atob]; [None] when it throws [InvalidCharacterError]. *)
Definition atob (data : string) : option string :=
  let d := drop_ascii_ws data in
  let d := if (String.length d mod 4 =? 0)%nat then drop_padding d else d in
  if (String.length d mod 4 =? 1)%nat then None
  else match sextets d with
       | Some vs => Some (decode_groups vs)
       | None => None
       end.

Fixpoint pad_to_4 (fuel : nat) (payload : string) : string :=
  match fuel with
  | O => payload
  | S f =>
      if (String.length payload mod 4 =? 0)%nat then payload
      else pad_to_4 f (payload ++ "=")
  end.

(** [parseJwt] of [emailOtpFlow] (InsuranceDemoApp.tsx, lines 140-152). *)
Definition parseJwt (token : value) : value :=
  if negb (truthy token) then Null
  else
    match token with
    | Str t =>
        let parts := split_dot t in
        if (length parts <? 2)%nat then Null
        else
          let payload :=
            Pkce.replace_all "_" "/" (Pkce.replace_all "-" "+" (nth 1 parts "")) in
          let payload := pad_to_4 3 payload in
          match atob payload with
          | Some json =>
              match JSON_parse json with
              | Some v => v
              | None => Null
              end
          | None => Null
          end
    | _ => Null (* token.split is not a function: caught *)
    end.

Definition lower (c : ascii) : ascii :=
  let n := N_of_ascii c in
  if (65 <=? n)%N && (n <=? 90)%N then ascii_of_N (n + 32) else c.

Fixpoint prefix_ci (p s : string) : bool :=
  match p, s with
  | EmptyString, _ => true
  | String a p', String b s' => Ascii.eqb a (lower b) && prefix_ci p' s'
  | String _ _, EmptyString => false
  end.

Fixpoint contains_ci (p s : string) : bool :=
  prefix_ci p s ||
  match s with
  | EmptyString => false
  | String _ r => contains_ci p r
  end.

(** [/authn/i.test(x)]. *)
Definition test_authn (x : value) : bool := contains_ci "authn" (to_string x).

End Jwt.

(* ===================================================================== *)
(** * The application component (InsuranceDemoApp.tsx) *)
(* ===================================================================== *)

Module App.

(** [OIDC_CONFIG] of [src/config.ts]; the file is not part of the sources,
    its values are deployment settings and stay parameters. *)
Record oidc_config : Type := {
  AUTHORIZATION_ENDPOINT : string;
  TOKEN_ENDPOINT : string;
  CLIENT_ID : string;
  CLIENT_ID2 : string;
  REDIRECT_URI : string;
  SCOPE : string
}.

(** The state of one mounted [InsuranceOIDCDemoApp]: its [useState] cells
    and the [exchangingRef] ref. *)
Record component : Type := {
  error : string;
  tokens : value;
  exchangingRef : bool;
  vehicles : value;
  selectedVehicle : value;
  quote : value;
  otpVisible : bool;
  otpValue : string;
  otpRequesting : bool;
  otpError : option string;
  otpResponse : value;
  purchaseSuccess : bool
}.

Definition setError (x : string) (c : component) : component :=
  {| error := x; tokens := tokens c; exchangingRef := exchangingRef c;
     vehicles := vehicles c; selectedVehicle := selectedVehicle c;
     quote := quote c; otpVisible := otpVisible c; otpValue := otpValue c;
     otpRequesting := otpRequesting c; otpError := otpError c;
     otpResponse := otpResponse c; purchaseSuccess := purchaseSuccess c |}.

Definition setTokens (x : value) (c : component) : component :=
  {| error := error c; tokens := x; exchangingRef := exchangingRef c;
     vehicles := vehicles c; selectedVehicle := selectedVehicle c;
     quote := quote c; otpVisible := otpVisible c; otpValue := otpValue c;
     otpRequesting := otpRequesting c; otpError := otpError c;
     otpResponse := otpResponse c; purchaseSuccess := purchaseSuccess c |}.

Definition setExchangingRef (x : bool) (c : component) : component :=
  {| error := error c; tokens := tokens c; exchangingRef := x;
     vehicles := vehicles c; selectedVehicle := selectedVehicle c;
     quote := quote c; otpVisible := otpVisible c; otpValue := otpValue c;
     otpRequesting := otpRequesting c; otpError := otpError c;
     otpResponse := otpResponse c; purchaseSuccess := purchaseSuccess c |}.

Definition setVehicles (x : value) (c : component) : component :=
  {| error := error c; tokens := tokens c; exchangingRef := exchangingRef c;
     vehicles := x; selectedVehicle := selectedVehicle c; quote := quote c;
     otpVisible := otpVisible c; otpValue := otpValue c;
     otpRequesting := otpRequesting c; otpError := otpError c;
     otpResponse := otpResponse c; purchaseSuccess := purchaseSuccess c |}.

Definition setSelectedVehicle (x : value) (c : component) : component :=
  {| error := error c; tokens := tokens c; exchangingRef := exchangingRef c;
     vehicles := vehicles c; selectedVehicle := x; quote := quote c;
     otpVisible := otpVisible c; otpValue := otpValue c;
     otpRequesting := otpRequesting c; otpError := otpError c;
     otpResponse := otpResponse c; purchaseSuccess := purchaseSuccess c |}.

Definition setQuote (x : value) (c : component) : component :=
  {| error := error c; tokens := tokens c; exchangingRef := exchangingRef c;
     vehicles := vehicles c; selectedVehicle := selectedVehicle c;
     quote := x; otpVisible := otpVisible c; otpValue := otpValue c;
     otpRequesting := otpRequesting c; otpError := otpError c;
     otpResponse := otpResponse c; purchaseSuccess := purchaseSuccess c |}.

Definition setOtpVisible (x : bool) (c : component) : component :=
  {| error := error c; tokens := tokens c; exchangingRef := exchangingRef c;
     vehicles := vehicles c; selectedVehicle := selectedVehicle c;
     quote := quote c; otpVisible := x; otpValue := otpValue c;
     otpRequesting := otpRequesting c; otpError := otpError c;
     otpResponse := otpResponse c; purchaseSuccess := purchaseSuccess c |}.

Definition setOtpValue (x : string) (c : component) : component :=
  {| error := error c; tokens := tokens c; exchangingRef := exchangingRef c;
     vehicles := vehicles c; selectedVehicle := selectedVehicle c;
     quote := quote c; otpVisible := otpVisible c; otpValue := x;
     otpRequesting := otpRequesting c; otpError := otpError c;
     otpResponse := otpResponse c; purchaseSuccess := purchaseSuccess c |}.

Definition setOtpRequesting (x : bool) (c : component) : component :=
  {| error := error c; tokens := tokens c; exchangingRef := exchangingRef c;
     vehicles := vehicles c; selectedVehicle := selectedVehicle c;
     quote := quote c; otpVisible := otpVisible c; otpValue := otpValue c;
     otpRequesting := x; otpError := otpError c;
     otpResponse := otpResponse c; purchaseSuccess := purchaseSuccess c |}.

Definition setOtpError (x : option string) (c : component) : component :=
  {| error := error c; tokens := tokens c; exchangingRef := exchangingRef c;
     vehicles := vehicles c; selectedVehicle := selectedVehicle c;
     quote := quote c; otpVisible := otpVisible c; otpValue := otpValue c;
     otpRequesting := otpRequesting c; otpError := x;
     otpResponse := otpResponse c; purchaseSuccess := purchaseSuccess c |}.

Definition setOtpResponse (x : value) (c : component) : component :=
  {| error := error c; tokens := tokens c; exchangingRef := exchangingRef c;
     vehicles := vehicles c; selectedVehicle := selectedVehicle c;
     quote := quote c; otpVisible := otpVisible c; otpValue := otpValue c;
     otpRequesting := otpRequesting c; otpError := otpError c;
     otpResponse := x; purchaseSuccess := purchaseSuccess c |}.

Definition setPurchaseSuccess (x : bool) (c : component) : component :=
  {| error := error c; tokens := tokens c; exchangingRef := exchangingRef c;
     vehicles := vehicles c; selectedVehicle := selectedVehicle c;
     quote := quote c; otpVisible := otpVisible c; otpValue := otpValue c;
     otpRequesting := otpRequesting c; otpError := otpError c;
     otpResponse := otpResponse c; purchaseSuccess := x |}.

(** The page: the component, the tab's storage, the query of
    [window.location], the requests sent so far (oldest first) and the
    target of [window.location.assign], if any. *)
Record world : Type := {
  ui : component;
  session : Storage.t;
  search : list (string * string);
  network : list request;
  navigated : option (string * list (string * string))
}.

Definition on_ui (f : component -> component) (w : world) : world :=
  {| ui := f (ui w); session := session w; search := search w;
     network := network w; navigated := navigated w |}.

Definition on_session (f : Storage.t -> Storage.t) (w : world) : world :=
  {| ui := ui w; session := f (session w); search := search w;
     network := network w; navigated := navigated w |}.

Definition set_search (q : list (string * string)) (w : world) : world :=
  {| ui := ui w; session := session w; search := q;
     network := network w; navigated := navigated w |}.

Definition send (r : request) (w : world) : world :=
  {| ui := ui w; session := session w; search := search w;
     network := network w ++ [r]; navigated := navigated w |}.

Definition assign (target : string * list (string * string)) (w : world) : world :=
  {| ui := ui w; session := session w; search := search w;
     network := network w; navigated := Some target |}.

(** ** Effects: a computation changes the page and returns or throws *)

Definition Eff (A : Type) : Type := world -> world * result A.

Definition ret {A} (a : A) : Eff A := fun w => (w, Ok a).
Definition throw {A} (e : exn) : Eff A := fun w => (w, Throw e).
Definition bind {A B} (m : Eff A) (k : A -> Eff B) : Eff B :=
  fun w => match m w with
           | (w', Ok a) => k a w'
           | (w', Throw e) => (w', Throw e)
           end.
Definition act (f : world -> world) : Eff unit := fun w => (f w, Ok tt).

Notation "'let!' x ':=' m 'in' k" := (bind m (fun x => k))
  (at level 10, x name, m at level 100, k at level 200).
Notation "m ;; k" := (bind m (fun _ => k))
  (at level 100, k at level 200, right associativity).

(** [try { body } catch (e) { handler }]. *)
Definition try_catch {A} (body : Eff A) (handler : exn -> Eff A) : Eff A :=
  fun w => match body w with
           | (w', Ok a) => (w', Ok a)
           | (w', Throw e) => handler e w'
           end.

(** [try { body } finally { fin }]. *)
Definition finally {A} (body : Eff A) (fin : world -> world) : Eff A :=
  fun w => match body w with
           | (w', r) => (fin w', r)
           end.

(** [await fetch(req)], answered by [reply]. *)
Definition fetch (req : request) (reply : outcome) : Eff response :=
  fun w => (send req w,
            match reply with
            | Rejected e => Throw e
            | Resolved r => Ok r
            end).

(** [e?.message || String(e)] for a thrown error object. *)
Definition describe (e : exn) : string :=
  if String.eqb (emessage e) "" then ename e else emessage e.


Definition or_default {A} (d : A) (o : option A) : A :=
  match o with
  | Some a => a
  | None => d
  end.

(** Engine-worded errors; only their kind matters to the handlers. *)
Definition body_unreadable : exn := TypeError "Failed to read the response body".
Definition not_json : exn :=
  {| ename := "SyntaxError"; emessage := "Unexpected token in JSON" |}.
Definition not_a_function (what : string) : exn :=
  TypeError (what ++ " is not a function").
Definition cannot_read (name : string) : exn :=
  TypeError ("Cannot read properties of null (reading '" ++ name ++ "')").

Definition is_object (v : value) : bool :=
  match v with
  | Arr _ | Obj _ => true
  | _ => false
  end.

Definition is_string (v : value) : bool :=
  match v with
  | Str _ => true
  | _ => false
  end.

Fixpoint indexed (i : N) (l : list value) : list (string * value) :=
  match l with
  | [] => []
  | x :: r => (print_N i, x) :: indexed (N.succ i) r
  end.

Fixpoint indexed_units (i : N) (s : string) : list (string * value) :=
  match s with
  | EmptyString => []
  | String c r => (print_N i, Str (String c EmptyString)) :: indexed_units (N.succ i) r
  end.

(** The own enumerable properties copied by [{...v}]. *)
Definition spread (v : value) : list (string * value) :=
  match v with
  | Obj fs => fs
  | Arr l => indexed 0 l
  | Str s => indexed_units 0 s
  | _ => []
  end.

(** [json._client_id = id] inside [try {} catch {}]: an object gets the
    property; on a primitive nothing changes; on an array the property is
    outside [Js.value] (and outside what [JSON.stringify] writes). *)
Definition tag_client (json id : value) : value :=
  match json with
  | Obj fs => Obj (set_field "_client_id" id fs)
  | _ => json
  end.

Definition string_truthy (s : option string) : bool :=
  match s with
  | Some x => negb (String.eqb x "")
  | None => false
  end.

Definition initial_component (st : Storage.t) : component :=
  {| error := ""; tokens := loadSession "tokens" Null st; exchangingRef := false;
     vehicles := Null; selectedVehicle := Null; quote := Null;
     otpVisible := false; otpValue := ""; otpRequesting := false;
     otpError := None; otpResponse := Null; purchaseSuccess := false |}.

(** A page load at a URL whose query is [q]: a new component instance over
    the same tab storage. *)
Definition load_page (q : list (string * string)) (w : world) : world :=
  {| ui := initial_component (session w); session := session w; search := q;
     network := network w; navigated := None |}.

Section Component.

Variable C : oidc_config.
Variable API_CONFIG : Api.api_config.

Definition charset : string :=
  "ABCDEFGHIJKLMNOPQRSTUVWXYZabcdefghijklmnopqrstuvwxyz0123456789-._~".

(** [randomString(length)]; [values i] is byte [i] of what
    [crypto.getRandomValues] filled in. *)
Definition randomString (length : nat) (values : nat -> Byte.byte) : string :=
  string_of_list_ascii
    (map (fun i =>
            nth (N.to_nat (Byte.to_N (values i)) mod String.length charset)
                (list_ascii_of_string charset) "A"%char)
         (seq 0 length)).

Definition startLogin (clientId : value) (values1 values2 : nat -> Byte.byte)
    (w : world) : world :=
  let clientId :=
    if truthy clientId && negb (is_string clientId) then Undef else clientId in
  let w := on_ui (setError "") w in
  let codeVerifier := randomString 64 values1 in
  let codeChallenge := Pkce.sha256 codeVerifier in
  let state := randomString 24 values2 in
  let w := on_session (saveSession "pkce_state" (Str state)) w in
  let w := on_session (saveSession ("pkce_verifier:" ++ state) (Str codeVerifier)) w in
  let w := on_session
             (saveSession ("pkce_client:" ++ state) (clientId ||| Str (CLIENT_ID C))) w in
  let q := params_set "response_type" "code" [] in
  let q := params_set "client_id" (to_string (clientId ||| Str (CLIENT_ID C))) q in
  let q := params_set "redirect_uri" (REDIRECT_URI C) q in
  let q := params_set "scope" (SCOPE C) q in
  let q := params_set "state" state q in
  let q := params_set "code_challenge" codeChallenge q in
  let q := params_set "code_challenge_method" "S256" q in
  assign (AUTHORIZATION_ENDPOINT C, q) w.

(** ** Step-up: requesting the challenge *)

Definition emailOtpFlow (clientId : value) (snapshot : component) (reply : outcome)
    : Eff value :=
  fun w =>
    let usedClient := clientId ||| Str (CLIENT_ID2 C) in
    let currentTokens := tokens snapshot ||| loadSession "tokens" Null (session w) in
    let idToken := oprop "id_token" currentTokens in
    let payload := Jwt.parseJwt idToken in
    let username :=
      if truthy payload && is_object payload && truthy (prop "username" payload)
      then Some (to_string (prop "username" payload))
      else None in
    let url := AUTHORIZATION_ENDPOINT C ++ "/" in
    let params :=
      [ ("client_id", to_string usedClient);
        ("response_type", "code");
        ("redirect_uri", REDIRECT_URI C);
        ("state", "logpg");
        ("scope", "openid internal_login profile");
        ("response_mode", "direct") ] in
    let params :=
      match username with
      | Some u => if string_truthy username then params_set "username" u params else params
      | None => params
      end in
    (let! res :=
       fetch {| url := url; method := "POST";
                headers := [ ("Accept", "application/json");
                             ("Content-Type", "application/x-www-form-urlencoded") ];
                body := Form params;
                credentials_include := true |} reply in
     if negb (ok res) then
       match Http.text false res with
       | Some body =>
           throw (Error ("emailOtpFlow failed: " ++ status_text (status res) ++ " " ++ body))
       | None => throw body_unreadable
       end
     else
       match content res with
       | None => throw body_unreadable
       | Some t =>
           match JSON_parse t with
           | Some v => ret v
           | None => throw not_json
           end
       end) w.

Definition flowId_probe (res : value) : value :=
  oprop "flowId" res
  ||| oprop "flowID" res
  ||| oprop "sessionDataKey" res
  ||| oprop "sessionDataKeyConsent" res
  ||| oprop "sessionState" res
  ||| Null.

Definition authenticatorId_probe (res : value) : value :=
  oprop "authenticatorId" (oat0 (oprop "authenticators" (oprop "nextStep" res)))
  ||| oprop "authenticatorId" res
  ||| oprop "authenticatorId" (oat0 (oprop "authenticators" res))
  ||| oprop "id" (oat0 (oprop "authenticators" res))
  ||| oprop "id" (oat0 (oprop "authenticators" (oprop "authenticate" res)))
  ||| oprop "authenticatorId" (oat0 (oprop "options" (oprop "stepInfo" res)))
  ||| oprop "id" (oat0 (oprop "options" (oprop "stepInfo" res)))
  ||| Null.

Fixpoint find_authn (l : list value) : value :=
  match l with
  | [] => Undef
  | x :: r => if Jwt.test_authn (oprop "href" x) then x else find_authn r
  end.

(** [links?.find?.(l => /authn/i.test(l?.href))]: arrays have the method,
    strings, numbers and booleans have no such property, and a [find]
    property of a parsed object is not callable. *)
Definition links_find (links : value) : result value :=
  match links with
  | Arr l => Ok (find_authn l)
  | Obj fs =>
      if nullish (lookup_field "find" fs) then Ok Undef
      else Throw (not_a_function "res?.links?.find")
  | _ => Ok Undef
  end.

Definition authnHref_probe (res : value) : result value :=
  let links := oprop "links" res in
  let first := oprop "href" (oat0 links) in
  if truthy first then Ok first
  else
    match links_find links with
    | Ok found => Ok (oprop "href" found ||| Null)
    | Throw e => Throw e
    end.

Definition normalize (res flowId authenticatorId authnHref : value) : value :=
  Obj (set_field "authnHref" authnHref
         (set_field "authenticatorId" authenticatorId
            (set_field "flowId" flowId (spread res)))).

Definition startEmailOtp (clientId : value) (reply : outcome) (w0 : world) : world :=
  let snapshot := ui w0 in
  let w := on_ui (setOtpError None) w0 in
  let w := on_ui (setOtpResponse Null) w in
  let w := on_ui (setOtpRequesting true) w in
  fst (finally
         (try_catch
            (let! res := emailOtpFlow clientId snapshot reply in
             let flowId := flowId_probe res in
             let authenticatorId := authenticatorId_probe res in
             match authnHref_probe res with
             | Throw e => throw e
             | Ok authnHref =>
                 let normalized := normalize res flowId authenticatorId authnHref in
                 act (on_ui (setOtpResponse normalized)) ;;
                 act (on_ui (setOtpVisible true))
             end)
            (fun e =>
               act (on_ui (setOtpError (Some (describe e)))) ;;
               act (on_ui (setOtpVisible false))))
         (on_ui (setOtpRequesting false)) w).

(** ** Step-up: submitting the code (lines 234-402) *)

Definition flowId_lookup (R : value) : value :=
  prop "flowId" R
  ||| prop "flowID" R
  ||| prop "sessionDataKey" R
  ||| prop "sessionDataKeyConsent" R
  ||| prop "sessionState" R
  ||| Null.

Definition authenticatorId_lookup (R : value) : value :=
  prop "authenticatorId" R
  ||| oprop "authenticatorId" (oat0 (oprop "authenticators" (prop "nextStep" R)))
  ||| oprop "authenticatorId" (oat0 (oprop "authenticators" R))
  ||| oprop "id" (oat0 (oprop "authenticators" R))
  ||| oprop "id" (oat0 (oprop "authenticators" (prop "authenticate" R)))
  ||| oprop "authenticatorId" (oat0 (oprop "options" (prop "stepInfo" R)))
  ||| oprop "id" (oat0 (oprop "options" (prop "stepInfo" R)))
  ||| Null.

Definition authn_request (R flowId authenticatorId : value) (otp : string) : request :=
  let body :=
    Obj [ ("flowId", Str (to_string flowId));
          ("selectedAuthenticator",
            Obj [ ("authenticatorId", Str (to_string authenticatorId));
                  ("params", Obj [ ("OTPCode", Str otp) ]) ]) ] in
  {| url := to_string (oprop "authnHref" R ||| Str "https://localhost:9444/oauth2/authn");
     method := "POST";
     headers := [ ("Accept", "application/json");
                  ("Content-Type", "application/json") ];
     body := Text (or_default "" (JSON_stringify body));
     credentials_include := true |}.

Definition stepup_token_request (authCode : value) : request :=
  let tokenBody := params_set "grant_type" "authorization_code" [] in
  let tokenBody := params_set "code" (to_string authCode) tokenBody in
  let tokenBody := params_set "redirect_uri" (REDIRECT_URI C) tokenBody in
  let tokenBody := params_set "client_id" (CLIENT_ID2 C) tokenBody in
  {| url := TOKEN_ENDPOINT C;
     method := "POST";
     headers := [ ("Content-Type", "application/x-www-form-urlencoded") ];
     body := Form tokenBody;
     credentials_include := false |}.

(** [tokens.access_token || tokens.accessToken || tokens.token ||
    tokens.id_token || (typeof tokens === "string" ? tokens : null)]. *)
Definition bearer_of (tokens : value) : result value :=
  if nullish tokens then Throw (cannot_read "access_token")
  else Ok (prop "access_token" tokens
           ||| prop "accessToken" tokens
           ||| prop "token" tokens
           ||| prop "id_token" tokens
           ||| (if is_string tokens then tokens else Null)).

Definition buy_request (selectedVehicle quote bearerToken : value) : request :=
  {| url := Api.BUY_INSURANCE_URL API_CONFIG
            ++ "?vehicleId=" ++ to_string (prop "vehicleId" selectedVehicle)
            ++ "&quoteId=" ++ to_string (prop "id" quote);
     method := "POST";
     headers := [ ("Accept", "*/*");
                  ("Authorization", "Bearer " ++ to_string bearerToken) ];
     body := NoBody;
     credentials_include := false |}.

Definition insured (selectedVehicle policyResponse : value) : value :=
  let insuranceStatus :=
    Obj [ ("isInsured", Bool true);
          ("policyId", prop "policyNumber" policyResponse ||| prop "id" policyResponse);
          ("insuredUntil", prop "endDate" policyResponse) ] in
  let actionsAvailable :=
    Obj (set_field "canViewPolicy" (Bool true)
           (set_field "canGetQuote" (Bool false)
              (spread (prop "actionsAvailable" selectedVehicle)))) in
  Obj (set_field "actionsAvailable" actionsAvailable
         (set_field "insuranceStatus" insuranceStatus (spread selectedVehicle))).

(** [(vehicles || []).map(v => v.vehicleId === selectedVehicle.vehicleId ?
    updatedVehicle : v)]. *)
Fixpoint replace_vehicle (selectedVehicle updatedVehicle : value) (l : list value)
    : result (list value) :=
  match l with
  | [] => Ok []
  | v :: r =>
      if nullish v then Throw (cannot_read "vehicleId")
      else
        match replace_vehicle selectedVehicle updatedVehicle r with
        | Ok r' =>
            Ok ((if strict_equal (prop "vehicleId" v) (prop "vehicleId" selectedVehicle)
                 then updatedVehicle else v) :: r')
        | Throw e => Throw e
        end
  end.

Definition updated_vehicles (vehicles selectedVehicle updatedVehicle : value)
    : result value :=
  match vehicles ||| Arr [] with
  | Arr l =>
      match replace_vehicle selectedVehicle updatedVehicle l with
      | Ok l' => Ok (Arr l')
      | Throw e => Throw e
      end
  | _ => Throw (not_a_function "(vehicles || []).map")
  end.

(** The exchange of the code embedded in a completed step-up flow
    (lines 291-319), with its own [try]/[catch]. *)
Definition stepup_exchange (authCode : value) (token_reply : outcome) : Eff unit :=
  try_catch
    (let! tokenRes := fetch (stepup_token_request authCode) token_reply in
     if negb (ok tokenRes) then
       let txt := or_default "" (Http.text false tokenRes) in
       throw (Error ("Token exchange (CLIENT_ID2) failed ("
                     ++ status_text (status tokenRes) ++ "). " ++ txt))
     else
       let tokenJson := or_default Null (Http.json false tokenRes) in
       if negb (truthy tokenJson) then throw (Error "Token response (CLIENT_ID2) not JSON.")
       else
         let tokenJson := tag_client tokenJson (Str (CLIENT_ID2 C)) in
         act (on_ui (setTokens tokenJson)) ;;
         act (on_session (saveSession "tokens" tokenJson)))
    (fun e => throw (Error ("Post-OTP token exchange error: " ++ describe e))).

(** The purchase that follows (lines 324-395); [c] is the render the
    handler was created in, whose [tokens], [selectedVehicle], [quote] and
    [vehicles] it reads. *)
Definition purchase (c : component) (buy_reply : outcome) : Eff unit :=
  match bearer_of (tokens c) with
  | Throw e => throw e
  | Ok bearerToken =>
      if negb (truthy bearerToken)
      then act (on_ui (setError "Missing bearer token in stored tokens."))
      else if negb (truthy (selectedVehicle c)) || negb (truthy (quote c))
      then act (on_ui (setError "Missing vehicle or quote information"))
      else
        let! res1 := fetch (buy_request (selectedVehicle c) (quote c) bearerToken) buy_reply in
        if negb (ok res1) then
          let txt := or_default "" (Http.text false res1) in
          throw (Error ("Insurance purchase failed ("
                        ++ status_text (status res1) ++ "). " ++ txt))
        else
          let policyResponse := or_default Null (Http.json false res1) in
          if negb (truthy policyResponse) then throw (Error "Policy response was not JSON")
          else
            let updatedVehicle := insured (selectedVehicle c) policyResponse in
            match updated_vehicles (vehicles c) (selectedVehicle c) updatedVehicle with
            | Throw e => throw e
            | Ok updatedVehicles =>
                act (on_ui (setVehicles updatedVehicles)) ;;
                act (on_ui (setSelectedVehicle updatedVehicle)) ;;
                act (on_ui (setPurchaseSuccess true)) ;;
                act (on_ui (setQuote Null)) ;;
                act (on_ui (setOtpVisible false)) ;;
                act (on_ui (setOtpValue ""))
            end
  end.

Definition submitOtp_try (c : component) (flowId authenticatorId : value)
    (otp_reply token_reply buy_reply : outcome) : Eff unit :=
  let R := otpResponse c in
  let! res := fetch (authn_request R flowId authenticatorId (otpValue c)) otp_reply in
  let json := or_default Null (Http.json false res) in
  if negb (ok res) then
    let txt := if truthy json then or_default "" (JSON_stringify json)
               else or_default "" (Http.text true res) in
    throw (Error ("OTP verify failed (" ++ status_text (status res) ++ "). " ++ txt))
  else
    act (on_ui (setOtpResponse json)) ;;
    let authCode := oprop "code" (oprop "authData" json) in
    (if strict_equal (oprop "flowStatus" json) (Str "SUCCESS_COMPLETED") && truthy authCode
     then stepup_exchange authCode token_reply
     else ret tt) ;;
    act (on_ui (setOtpVisible false)) ;;
    act (on_ui (setOtpValue "")) ;;
    purchase c buy_reply.

(** [submitOtp]: the three replies answer, in this order and when the
    request is made at all, the OTP submission, the token request and the
    purchase. *)
Definition submitOtp (otp_reply token_reply buy_reply : outcome) (w0 : world) : world :=
  let c := ui w0 in
  let w := on_ui (setOtpError None) w0 in
  if String.eqb (otpValue c) "" then on_ui (setOtpError (Some "Enter OTP")) w
  else if negb (truthy (otpResponse c))
  then on_ui (setOtpError (Some "Missing authorize response (no flow data)")) w
  else
    let flowId := flowId_lookup (otpResponse c) in
    let authenticatorId := authenticatorId_lookup (otpResponse c) in
    if negb (truthy flowId)
    then on_ui (setOtpError (Some "Unable to locate flowId in authorize response")) w
    else if negb (truthy authenticatorId)
    then on_ui (setOtpError (Some "Unable to locate authenticatorId in authorize response")) w
    else
      let w := on_ui (setOtpRequesting true) w in
      fst (finally
             (try_catch
                (submitOtp_try c flowId authenticatorId otp_reply token_reply buy_reply)
                (fun e => act (on_ui (setOtpError (Some (describe e))))))
             (on_ui (setOtpRequesting false)) w).

(** ** Code exchange after the redirect (lines 430-466) *)

(** What the suspended [exchangeCodeForTokens] keeps: its [state] argument
    and the client id it sent. *)
Record exchange : Type := { ex_state : option string; ex_client : value }.

Definition token_request (clientIdUsed : value) (code : string) (codeVerifier : value)
    : request :=
  let body := params_set "grant_type" "authorization_code" [] in
  let body := params_set "client_id" (to_string clientIdUsed) body in
  let body := params_set "code" code body in
  let body := params_set "redirect_uri" (REDIRECT_URI C) body in
  let body := params_set "code_verifier" (to_string codeVerifier) body in
  {| url := TOKEN_ENDPOINT C;
     method := "POST";
     headers := [ ("Content-Type", "application/x-www-form-urlencoded") ];
     body := Form body;
     credentials_include := false |}.

(** [exchangeCodeForTokens] up to its [await fetch]: [None] when it returns
    without sending anything. *)
Definition exchange_begin (code : string) (state : option string) (w : world)
    : world * option exchange :=
  let keyed (prefix : string) : value :=
    match state with
    | Some s => if String.eqb s "" then Str "" else loadSession (prefix ++ s) Null (session w)
    | None => Undef
    end in
  let codeVerifier := keyed "pkce_verifier:" ||| loadSession "pkce_verifier" Null (session w) in
  let clientIdUsed := keyed "pkce_client:" ||| Str (CLIENT_ID C) in
  if negb (truthy codeVerifier)
  then (on_ui (setError "Missing PKCE verifier. Please sign in again.") w, None)
  else (send (token_request clientIdUsed code codeVerifier) w,
        Some {| ex_state := state; ex_client := clientIdUsed |}).

Definition forget_flow (state : string) (st : Storage.t) : Storage.t :=
  match Storage.removeItem ("pkce_verifier:" ++ state) st with
  | Ok st1 =>
      match Storage.removeItem ("pkce_client:" ++ state) st1 with
      | Ok st2 => st2
      | Throw _ => st1
      end
  | Throw _ => st
  end.

(** [exchangeCodeForTokens] from the reply on. *)
Definition exchange_finish (x : exchange) (reply : outcome) (w : world) : world :=
  match reply with
  | Rejected e => on_ui (setError ("Token exchange error: " ++ describe e)) w
  | Resolved res =>
      if negb (ok res) then
        let txt := or_default "" (Http.text false res) in
        on_ui (setError ("Token exchange failed (" ++ status_text (status res) ++ "). "
                         ++ (if String.eqb txt "" then "See Network tab." else txt))) w
      else
        let json := or_default Null (Http.json false res) in
        if negb (truthy json) then on_ui (setError "Token response not JSON.") w
        else
          let json := tag_client json (ex_client x) in
          let w := on_ui (setTokens json) w in
          let w := on_session (saveSession "tokens" json) w in
          if string_truthy (ex_state x)
          then on_session (forget_flow (or_default "" (ex_state x))) w
          else w
  end.

(** ** The redirect-landing effect (lines 405-428)

    [BankOIDCDemoApp] in ChatPanel.tsx (lines 863-926) has the same effect
    and the same [exchangeCodeForTokens], statement for statement. *)

(** What is left to run once the effect has returned. *)
Inductive continuation : Type :=
| AwaitToken (x : exchange)   (* the exchange waits for the token endpoint *)
| AfterExchange.              (* the exchange returned without a request *)

Definition usedKey (state code : string) : string :=
  "pkce_code_used:" ++ state ++ ":" ++ code.

Definition landing_effect : Eff (option continuation) :=
  fun w =>
    let code := params_get "code" (search w) in
    let state := params_get "state" (search w) in
    let storedState := loadSession "pkce_state" Null (session w) in
    match code, state with
    | Some code, Some state =>
        if String.eqb code "" || String.eqb state ""
           || negb (strict_equal (Str state) storedState)
        then (w, Ok None)
        else
          match Storage.getItem (usedKey state code) (session w) with
          | Throw e => (w, Throw e)
          | Ok alreadyUsed =>
              if string_truthy alreadyUsed || exchangingRef (ui w) then (w, Ok None)
              else
                let w := on_ui (setExchangingRef true) w in
                match Storage.setItem (usedKey state code) "1" (session w) with
                | Throw e => (w, Throw e)
                | Ok st =>
                    let w := on_session (fun _ => st) w in
                    match exchange_begin code (Some state) w with
                    | (w, Some x) => (w, Ok (Some (AwaitToken x)))
                    | (w, None) => (w, Ok (Some AfterExchange))
                    end
                end
          end
    | _, _ => (w, Ok None)
    end.

(** The rest of the effect's async block: the query is dropped from the
    address and the in-flight flag is cleared. *)
Definition landing_rest (w : world) : world :=
  on_ui (setExchangingRef false) (set_search [] w).

Definition landing_resume (k : continuation) (reply : outcome) (w : world) : world :=
  match k with
  | AwaitToken x => landing_rest (exchange_finish x reply w)
  | AfterExchange => landing_rest w
  end.

(** ** Observing the page *)

(** A token-exchange call: a form post to the token endpoint with
    [grant_type=authorization_code]. *)
Definition is_token_exchange (r : request) : bool :=
  String.eqb (url r) (TOKEN_ENDPOINT C)
  && match body r with
     | Form ps =>
         match params_get "grant_type" ps with
         | Some g => String.eqb g "authorization_code"
         | None => false
         end
     | _ => false
     end.

Definition token_exchanges (w : world) : nat :=
  length (filter is_token_exchange (network w)).

Definition form_param (k : string) (r : request) : option string :=
  match body r with
  | Form ps => params_get k ps
  | _ => None
  end.

(** The used-code marker of a [(state, code)] pair is in the storage. *)
Definition marked (state code : string) (w : world) : Prop :=
  exists v, Storage.items (session w) !! usedKey state code = Some v /\ v <> "".

(** ** Schedules around the redirect landing

    What can happen on a page whose address carries the query [q]: the
    landing effect is invoked (again), the continuation of an earlier
    invocation runs (receiving [reply] if it waits for the token
    endpoint), or the page is loaded anew at the same address, which
    drops whatever was pending. *)
Inductive event : Type :=
| Invoke
| Resume (reply : outcome)
| Reload.

Record page : Type := { now : world; pending : list continuation }.

Definition step (q : list (string * string)) (p : page) (ev : event) : page :=
  match ev with
  | Invoke =>
      match landing_effect (set_search q (now p)) with
      | (w, Ok (Some k)) => {| now := w; pending := pending p ++ [k] |}
      | (w, _) => {| now := w; pending := pending p |}
      end
  | Resume reply =>
      match pending p with
      | k :: ks => {| now := landing_resume k reply (now p); pending := ks |}
      | [] => p
      end
  | Reload => {| now := load_page q (now p); pending := [] |}
  end.

Definition run (q : list (string * string)) (evs : list event) (p : page) : page :=
  fold_left (step q) evs p.

End Component.
End App.

(* ===================================================================== *)
(** * URL queries *)
(* ===================================================================== *)
Module Url.

(** [URLSearchParams.toString()], the [application/x-www-form-urlencoded]
    serialiser of the URL standard: a name or value is encoded in UTF-8;
    letters, digits and [*-._] stand for themselves, a space becomes [+]
    and every other byte is written [%XX] in upper-case hexadecimal. *)

Definition kept (n : N) : bool :=
  ((65 <=? n) && (n <=? 90) || (97 <=? n) && (n <=? 122) || (48 <=? n) && (n <=? 57)
   || (n =? 42) || (n =? 45) || (n =? 46) || (n =? 95))%N.

Definition hex_upper (n : N) : ascii :=
  if (n <? 10)%N then ascii_of_N (48 + n) else ascii_of_N (55 + n).

Definition encode_byte (b : Byte.byte) : string :=
  let n := Byte.to_N b in
  if kept n then String (ascii_of_N n) ""
  else if (n =? 32)%N then "+"
  else String "%" (String (hex_upper (n / 16)) (String (hex_upper (n mod 16)) "")).

Fixpoint encode_bytes (bs : list Byte.byte) : string :=
  match bs with
  | [] => ""
  | b :: r => encode_byte b ++ encode_bytes r
  end.

Definition encode (s : string) : string := encode_bytes (Pkce.TextEncoder_encode s).

Definition serialize (ps : list (string * string)) : string :=
  Js.join "&" (map (fun p => encode (fst p) ++ "=" ++ encode (snd p)) ps).

(** [url.toString()] for [url = new URL(address)] after the given
    [searchParams.set] calls, where [address] is an absolute URL in its
    serialised form, without query or fragment (the values the README
    gives for [src/config.ts] are). *)
Definition with_query (address : string) (ps : list (string * string)) : string :=
  match ps with
  | [] => address
  | _ => address ++ "?" ++ serialize ps
  end.

End Url.

(* ===================================================================== *)
(** * The other calls of api.ts (lines 130-213) *)
(* ===================================================================== *)
Module Calls.
Import Http App.

(** The addresses of [API_CONFIG] that [Api.api_config] does not list. *)
Record addresses : Type := {
  ADD_VEHICLE_URL : string;
  GET_QUOTE_URL : string
}.

Section Requests.
Variable API_CONFIG : Api.api_config.
Variable API_MORE : addresses.

(** [addVehicle] (lines 130-159). An argument can be any value at run
    time: [accessToken] goes through a template literal, the other three
    through [JSON.stringify]. *)
Definition addVehicle_request (accessToken registrationNumber vehicleType year : value)
    : request :=
  {| url := ADD_VEHICLE_URL API_MORE;
     method := "POST";
     headers := [ ("Authorization", "Bearer " ++ to_string accessToken);
                  ("Accept", "application/json");
                  ("Content-Type", "application/json") ];
     body := Text (or_default ""
                     (JSON_stringify (Obj [ ("registrationNumber", registrationNumber);
                                            ("vehicleType", vehicleType);
                                            ("year", year) ])));
     credentials_include := false |}.

Definition addVehicle (reply : outcome) : result value :=
  match reply with
  | Rejected e => Throw e
  | Resolved res =>
      if negb (ok res) then
        let text := or_default "" (Http.text false res) in
        Throw (Error ("Failed to add vehicle: " ++ status_text (status res) ++ " " ++ text))
      else
        let data := or_default Null (Http.json false res) in
        if negb (truthy data) then Throw (Error "Vehicle response was not JSON")
        else Ok data
  end.

(** [getQuote] (lines 161-185). *)
Definition getQuote_request (accessToken vehicleId : value) : request :=
  {| url := Url.with_query (GET_QUOTE_URL API_MORE) [ ("vehicleId", to_string vehicleId) ];
     method := "GET";
     headers := [ ("Authorization", "Bearer " ++ to_string accessToken);
                  ("Accept", "application/json") ];
     body := NoBody;
     credentials_include := false |}.

Definition getQuote (reply : outcome) : result value :=
  match reply with
  | Rejected e => Throw e
  | Resolved res =>
      if negb (ok res) then
        let text := or_default "" (Http.text false res) in
        Throw (Error ("Failed to get quote: " ++ status_text (status res) ++ " " ++ text))
      else
        let data := or_default Null (Http.json false res) in
        if negb (truthy data) then Throw (Error "Quote response was not JSON")
        else Ok data
  end.

(** [buyInsurance] (lines 187-213). *)
Definition buyInsurance_request (accessToken vehicleId quoteId : value) : request :=
  {| url := Url.with_query (Api.BUY_INSURANCE_URL API_CONFIG)
              (params_set "quoteId" (to_string quoteId)
                 (params_set "vehicleId" (to_string vehicleId) []));
     method := "POST";
     headers := [ ("Authorization", "Bearer " ++ to_string accessToken);
                  ("Accept", "application/json") ];
     body := NoBody;
     credentials_include := false |}.

Definition buyInsurance (reply : outcome) : result value :=
  match reply with
  | Rejected e => Throw e
  | Resolved res =>
      if negb (ok res) then
        let text := or_default "" (Http.text false res) in
        Throw (Error ("Failed to buy insurance: " ++ status_text (status res) ++ " " ++ text))
      else
        let data := or_default Null (Http.json false res) in
        if negb (truthy data) then Throw (Error "Insurance response was not JSON")
        else Ok data
  end.

End Requests.
End Calls.

(* ===================================================================== *)
(** * The vehicle side of the component (InsuranceDemoApp.tsx) *)
(* ===================================================================== *)
Module Garage.
Import Http App.

(** [OIDC_CONFIG]: the two endpoints [oidc_config] does not list. *)
Record endpoints : Type := {
  USERINFO_ENDPOINT : string;
  ENDSESSION_ENDPOINT : string
}.

(** The [newVehicleForm] cell. [year] holds an integer; an emptied year
    field ([parseInt] giving [NaN]) is outside the modelled numbers. *)
Record form : Type := {
  registrationNumber : string;
  vehicleType : string;
  year : Z
}.

(** The [useState] cells [component] leaves out. *)
Record cells : Type := {
  userInfo : value;
  showAddVehicle : bool;
  newVehicleForm : form;
  quoteLoading : bool;
  addVehicleLoading : bool
}.

Definition setUserInfo (x : value) (m : cells) : cells :=
  {| userInfo := x; showAddVehicle := showAddVehicle m;
     newVehicleForm := newVehicleForm m; quoteLoading := quoteLoading m;
     addVehicleLoading := addVehicleLoading m |}.

Definition setShowAddVehicle (x : bool) (m : cells) : cells :=
  {| userInfo := userInfo m; showAddVehicle := x;
     newVehicleForm := newVehicleForm m; quoteLoading := quoteLoading m;
     addVehicleLoading := addVehicleLoading m |}.

Definition setNewVehicleForm (x : form) (m : cells) : cells :=
  {| userInfo := userInfo m; showAddVehicle := showAddVehicle m;
     newVehicleForm := x; quoteLoading := quoteLoading m;
     addVehicleLoading := addVehicleLoading m |}.

Definition setQuoteLoading (x : bool) (m : cells) : cells :=
  {| userInfo := userInfo m; showAddVehicle := showAddVehicle m;
     newVehicleForm := newVehicleForm m; quoteLoading := x;
     addVehicleLoading := addVehicleLoading m |}.

Definition setAddVehicleLoading (x : bool) (m : cells) : cells :=
  {| userInfo := userInfo m; showAddVehicle := showAddVehicle m;
     newVehicleForm := newVehicleForm m; quoteLoading := quoteLoading m;
     addVehicleLoading := x |}.

(** The whole component on its page. *)
Record desk : Type := { page : world; more : cells }.

Definition on_page (f : world -> world) (d : desk) : desk :=
  {| page := f (page d); more := more d |}.

Definition on_more (f : cells -> cells) (d : desk) : desk :=
  {| page := page d; more := f (more d) |}.

(** The form as first rendered and as [handleAddVehicle] resets it;
    [thisYear] is [new Date().getFullYear()]. *)
Definition blank_form (thisYear : Z) : form :=
  {| registrationNumber := ""; vehicleType := "Sedan"; year := thisYear |}.

Definition initial_cells (thisYear : Z) : cells :=
  {| userInfo := Null; showAddVehicle := false; newVehicleForm := blank_form thisYear;
     quoteLoading := false; addVehicleLoading := false |}.

(** A page load: a new component instance over the same tab storage. *)
Definition reload (thisYear : Z) (q : list (string * string)) (d : desk) : desk :=
  {| page := load_page q (page d); more := initial_cells thisYear |}.

(** [[...v]]: the elements of an array, the characters of a string; any
    other value is not iterable. *)
Definition iterate (v : value) : result (list value) :=
  match v with
  | Arr l => Ok l
  | Str s => Ok (map (fun c => Str (String c "")) (list_ascii_of_string s))
  | _ => Throw (TypeError "vehicles is not iterable")
  end.

Section Handlers.
Variable C : oidc_config.
Variable C_MORE : endpoints.
Variable API_CONFIG : Api.api_config.
Variable API_MORE : Calls.addresses.

(** ** Profile and vehicles (lines 88-109)

    The effect that runs when [tokens] changes; the two replies answer the
    user-info request and the vehicles request. *)

Definition userinfo_request (tokens : value) : request :=
  {| url := USERINFO_ENDPOINT C_MORE;
     method := "GET";
     headers := [ ("Authorization", "Bearer " ++ to_string (prop "access_token" tokens)) ];
     body := NoBody;
     credentials_include := false |}.

Definition fetch_userinfo (reply : outcome) : result value :=
  match reply with
  | Rejected e => Throw e
  | Resolved res =>
      if negb (ok res) then Throw (Error "Failed to fetch userinfo")
      else
        match content res with
        | None => Throw body_unreadable
        | Some t =>
            match JSON_parse t with
            | Some v => Ok v
            | None => Throw not_json
            end
        end
  end.

Definition profile_effect (userinfo_reply vehicles_reply : outcome) (d0 : desk) : desk :=
  let tokens := tokens (ui (page d0)) in
  if negb (truthy tokens) then d0
  else
    let d := on_page (send (userinfo_request tokens)) d0 in
    let d :=
      match fetch_userinfo userinfo_reply with
      | Ok info => on_more (setUserInfo info) d
      | Throw e => on_page (on_ui (setError (describe e))) d
      end in
    let accessToken := to_string (prop "access_token" tokens) in
    let d := on_page (send (Api.fetchVehicles_request API_CONFIG accessToken)) d in
    match Api.fetchVehicles accessToken vehicles_reply with
    | Ok list => on_page (on_ui (setVehicles list)) d
    | Throw e => on_page (on_ui (setError ("Vehicles fetch failed: " ++ describe e))) d
    end.

(** ** Adding a vehicle (lines 468-505) *)

Definition handleAddVehicle (thisYear : Z) (reply : outcome) (d0 : desk) : desk :=
  let c := ui (page d0) in
  let f := newVehicleForm (more d0) in
  if String.eqb (registrationNumber f) "" then
    on_page (on_ui (setError "Please enter registration number")) d0
  else
    let d := on_more (setAddVehicleLoading true) d0 in
    let d := on_page (on_ui (setError "")) d in
    let failed (e : exn) (d : desk) : desk :=
      on_page (on_ui (setError ("Failed to add vehicle: " ++ describe e))) d in
    let d :=
      match bearer_of (tokens c) with
      | Throw e => failed e d
      | Ok bearerToken =>
          if negb (truthy bearerToken) then
            on_more (setAddVehicleLoading false)
              (on_page (on_ui (setError "Missing bearer token")) d)
          else
            let d :=
              on_page (send (Calls.addVehicle_request API_MORE bearerToken
                               (Str (registrationNumber f)) (Str (vehicleType f))
                               (Num (year f)))) d in
            match Calls.addVehicle reply with
            | Throw e => failed e d
            | Ok newVehicle =>
                match iterate (vehicles c ||| Arr []) with
                | Throw e => failed e d
                | Ok l =>
                    let d := on_page (on_ui (setVehicles (Arr (l ++ [newVehicle])))) d in
                    let d := on_more (setNewVehicleForm (blank_form thisYear)) d in
                    on_more (setShowAddVehicle false) d
                end
            end
      end in
    on_more (setAddVehicleLoading false) d.

(** ** Asking for a quote (lines 507-536)

    A vehicle without [insuranceStatus] makes the handler fail before its
    [try]: the promise it returns rejects. *)

Definition handleGetQuote (vehicle : value) (reply : outcome) (d0 : desk)
    : desk * result unit :=
  let c := ui (page d0) in
  if nullish vehicle then (d0, Throw (cannot_read "insuranceStatus"))
  else if nullish (prop "insuranceStatus" vehicle)
  then (d0, Throw (cannot_read "isInsured"))
  else if truthy (prop "isInsured" (prop "insuranceStatus" vehicle)) then
    (on_page (on_ui (setError "This vehicle already has active insurance")) d0, Ok tt)
  else
    let d := on_more (setQuoteLoading true) d0 in
    let d := on_page (on_ui (setError "")) d in
    let failed (e : exn) (d : desk) : desk :=
      on_page (on_ui (setError ("Failed to get quote: " ++ describe e))) d in
    let d :=
      match bearer_of (tokens c) with
      | Throw e => failed e d
      | Ok bearerToken =>
          if negb (truthy bearerToken) then
            on_more (setQuoteLoading false)
              (on_page (on_ui (setError "Missing bearer token")) d)
          else
            let d :=
              on_page (send (Calls.getQuote_request API_MORE bearerToken
                               (prop "vehicleId" vehicle))) d in
            match Calls.getQuote reply with
            | Throw e => failed e d
            | Ok quoteData => on_page (on_ui (setQuote quoteData)) d
            end
      end in
    (on_more (setQuoteLoading false) d, Ok tt).

(** ** Signing out (lines 538-552) *)

Definition clearSession (d : desk) : desk :=
  let d := on_page (on_ui (setTokens Null)) d in
  let d := on_more (setUserInfo Null) d in
  let d := on_page (on_ui (setVehicles Null)) d in
  let d := on_page (on_ui (setSelectedVehicle Null)) d in
  on_page (on_session (fun st => match Storage.removeItem "tokens" st with
                                 | Ok st' => st'
                                 | Throw _ => st
                                 end)) d.

Definition rpLogout (d0 : desk) : desk :=
  let tokens := tokens (ui (page d0)) in
  let q := [] in
  let q := if truthy (oprop "id_token" tokens)
           then params_set "id_token_hint" (to_string (oprop "id_token" tokens)) q
           else q in
  let q := params_set "post_logout_redirect_uri" (REDIRECT_URI C) q in
  let d := clearSession d0 in
  on_page (assign (ENDSESSION_ENDPOINT C_MORE, q)) d.

End Handlers.
End Garage.

(* ===================================================================== *)
(** * The chat panel (ChatPanel.tsx, lines 41-153) *)
(* ===================================================================== *)
Module Chat.
Import Http App.

(** [String.prototype.trim] on code units below 256: white space and line
    terminators are tab, line feed, vertical tab, form feed, carriage
    return, space and no-break space. *)
Definition is_space (c : ascii) : bool :=
  let n := N_of_ascii c in
  ((9 <=? n) && (n <=? 13) || (n =? 32) || (n =? 160))%N.

Fixpoint trim_start (s : string) : string :=
  match s with
  | EmptyString => EmptyString
  | String c r => if is_space c then trim_start r else s
  end.

Fixpoint trim_end (s : string) : string :=
  match s with
  | EmptyString => EmptyString
  | String c r =>
      match trim_end r with
      | EmptyString => if is_space c then EmptyString else String c EmptyString
      | r' => String c r'
      end
  end.

Definition trim (s : string) : string := trim_end (trim_start s).

(** A [ChatMessage]; [hadTransactions] is [undefined] where the property
    is not set. *)
Record message : Type := {
  id : string;
  role : string;
  content : value;
  timestamp : Z;
  hadTransactions : value
}.

(** The [useState] cells of [ChatPanel]. *)
Record panel : Type := {
  messages : list message;
  input : string;
  loading : bool;
  error : option string;
  isCollapsed : bool
}.

(** The panel and the requests the page has sent. *)
Record room : Type := { view : panel; wire : list request }.

Definition on_view (f : panel -> panel) (r : room) : room :=
  {| view := f (view r); wire := wire r |}.

Definition setMessages (f : list message -> list message) (p : panel) : panel :=
  {| messages := f (messages p); input := input p; loading := loading p;
     error := error p; isCollapsed := isCollapsed p |}.

Definition setInput (x : string) (p : panel) : panel :=
  {| messages := messages p; input := x; loading := loading p;
     error := error p; isCollapsed := isCollapsed p |}.

Definition setLoading (x : bool) (p : panel) : panel :=
  {| messages := messages p; input := input p; loading := x;
     error := error p; isCollapsed := isCollapsed p |}.

Definition setError (x : option string) (p : panel) : panel :=
  {| messages := messages p; input := input p; loading := loading p;
     error := x; isCollapsed := isCollapsed p |}.

Definition chat_request (accessToken : value) (prompt : string) : request :=
  {| url := "http://localhost:3002/chat";
     method := "POST";
     headers := [ ("Content-Type", "application/json");
                  ("Authorization", "Bearer " ++ to_string accessToken) ];
     body := Text (or_default "" (JSON_stringify (Obj [ ("prompt", Str prompt) ])));
     credentials_include := false |}.

(** [await response.json()]. *)
Definition read_json (res : response) : result value :=
  match Http.content res with
  | None => Throw body_unreadable
  | Some t =>
      match JSON_parse t with
      | Some v => Ok v
      | None => Throw not_json
      end
  end.

(** The [try] block of [sendMessage] from the response on: the assistant's
    message, or what is thrown. [clock] gives the successive readings of
    the clock: 0 and 1 for the user's message, 2 and 3 for the
    assistant's. *)
Definition answer (clock : nat -> Z) (reply : outcome) : result message :=
  match reply with
  | Rejected e => Throw e
  | Resolved response =>
      if negb (ok response) then
        match read_json response with
        | Throw e => Throw e
        | Ok errorData =>
            if nullish errorData then Throw (cannot_read "message")
            else Throw (Error (to_string (prop "message" errorData
                                          ||| Str ("HTTP " ++ status_text (status response)))))
        end
      else
        match read_json response with
        | Throw e => Throw e
        | Ok data =>
            if nullish data then Throw (cannot_read "response")
            else Ok {| id := print_Z (clock 2 + 1);
                       role := "assistant";
                       content := prop "response" data;
                       timestamp := clock 3;
                       hadTransactions := prop "hadTransactions" data |}
        end
  end.

(** [sendMessage] (lines 82-141). *)
Definition sendMessage (accessToken : value) (clock : nat -> Z) (reply : outcome)
    (r0 : room) : room :=
  let p := view r0 in
  if String.eqb (trim (input p)) "" || negb (truthy accessToken) || loading p then r0
  else
    let prompt := input p in
    let r := on_view (setError None) r0 in
    let userMessage :=
      {| id := print_Z (clock 0); role := "user"; content := Str prompt;
         timestamp := clock 1; hadTransactions := Undef |} in
    let r := on_view (setMessages (fun prev => (prev ++ [userMessage])%list)) r in
    let r := on_view (setInput "") r in
    let r := on_view (setLoading true) r in
    let r := {| view := view r; wire := (wire r ++ [chat_request accessToken prompt])%list |} in
    let r :=
      match answer clock reply with
      | Ok assistantMessage =>
          on_view (setMessages (fun prev => (prev ++ [assistantMessage])%list)) r
      | Throw err =>
          on_view (setError (Some (if String.eqb (emessage err) ""
                                   then "Failed to send message"
                                   else emessage err))) r
      end in
    on_view (setLoading false) r.

(** [handleKeyPress] (lines 148-153). *)
Definition handleKeyPress (key : string) (shiftKey : bool) (accessToken : value)
    (clock : nat -> Z) (reply : outcome) (r0 : room) : room :=
  if String.eqb key "Enter" && negb shiftKey
  then sendMessage accessToken clock reply r0
  else r0.

End Chat.

(* ===================================================================== *)
(** * The chat backend (api-chat/server.js, lines 60-65 and 158-220) *)
(* ===================================================================== *)
Module Backend.
Import Http App.

(** [String.prototype.toLowerCase] on code units below 256: the letters
    [A-Z] and the capital letters of the Latin-1 supplement. *)
Definition lower_unit (c : ascii) : ascii :=
  let n := N_of_ascii c in
  if ((65 <=? n) && (n <=? 90) || (192 <=? n) && (n <=? 222) && negb (n =? 215))%N
  then ascii_of_N (n + 32) else c.

Fixpoint toLowerCase (s : string) : string :=
  match s with
  | EmptyString => EmptyString
  | String c r => String (lower_unit c) (toLowerCase r)
  end.

(** [s.startsWith(p)]. *)
Fixpoint startsWith (p s : string) : bool :=
  match p, s with
  | EmptyString, _ => true
  | String a p', String b s' => Ascii.eqb a b && startsWith p' s'
  | String _ _, EmptyString => false
  end.

(** [hay.includes(needle)]. *)
Fixpoint includes (needle hay : string) : bool :=
  startsWith needle hay ||
  match hay with
  | EmptyString => false
  | String _ r => includes needle r
  end.

(** [s.substring(n)]. *)
Fixpoint substring_from (n : nat) (s : string) : string :=
  match n, s with
  | O, _ => s
  | S n', String _ r => substring_from n' r
  | S _, EmptyString => EmptyString
  end.

Definition keywords : list string :=
  [ "vehicle"; "car"; "insurance"; "policy"; "vehicles"; "cars"; "coverage"; "premium";
    "insured"; "van"; "motorcycle"; "bike"; "registration"; "summary"; "overview";
    "policies" ].

(** [isPolicyInfoRequest] (lines 61-65), for a prompt that is a string;
    on any other value [prompt.toLowerCase] is not a function. *)
Definition isPolicyInfoRequest (prompt : string) : bool :=
  let lowerPrompt := toLowerCase prompt in
  existsb (fun keyword => includes keyword lowerPrompt) keywords.

(** What the handler makes of the answer of [callMcpServer] (lines
    183-200): the policy data, or [null] when the call is rejected or its
    answer lacks [result.content[0]] or the text there does not parse;
    every failure of this part is caught on the spot. *)
Definition policy_data (mcp : result value) : value :=
  match mcp with
  | Throw _ => Null
  | Ok mcpResponse =>
      if nullish mcpResponse then Null
      else
        let result := prop "result" mcpResponse in
        if truthy result && truthy (prop "content" result)
           && truthy (oat0 (prop "content" result))
        then
          let contentText := prop "text" (oat0 (prop "content" result)) in
          match JSON_parse (to_string contentText) with
          | Some v => v
          | None => Null
          end
        else Null
  end.

Section Handler.

(** [generateResponse] (lines 68-156) is left open: it returns a text or
    throws. *)
Variable generateResponse : string -> value -> result string.

Definition failed (e : exn) : nat * value :=
  (500, Obj [ ("error", Str "Chat processing failed"); ("message", Str (emessage e)) ]).

(** The handler of [POST /chat] (lines 159-220). [body] is [req.body] as
    [express.json()] parsed it, [authorization] the request's
    [Authorization] header, [mcp] what [callMcpServer] gives if it is
    called. The result is the status and JSON of the response, and the
    access tokens [callMcpServer] was called with. *)
Definition chat (body : value) (authorization : option string) (mcp : result value)
    : (nat * value) * list string :=
  if nullish body then (failed (cannot_read "prompt"), [])
  else
    let prompt := prop "prompt" body in
    if negb (truthy prompt)
    then ((400, Obj [ ("error", Str "prompt is required") ]), [])
    else
      let unauthorized :=
        (401, Obj [ ("error", Str "Missing or invalid Authorization header") ]) in
      match authorization with
      | None => (unauthorized, [])
      | Some authHeader =>
          if String.eqb authHeader "" || negb (startsWith "Bearer " authHeader)
          then (unauthorized, [])
          else
            let accessToken := substring_from 7 authHeader in
            match prompt with
            | Str text =>
                let needsPolicyInfo := isPolicyInfoRequest text in
                let policyInfoData := if needsPolicyInfo then policy_data mcp else Null in
                let calls := if needsPolicyInfo then [accessToken] else [] in
                match generateResponse text policyInfoData with
                | Throw e => (failed e, calls)
                | Ok responseText =>
                    ((200, Obj [ ("response", Str responseText);
                                 ("hadPolicyInfo", Bool (truthy policyInfoData));
                                 ("policyInfoData", policyInfoData ||| Null) ]),
                     calls)
                end
            | _ => (failed (not_a_function "prompt.toLowerCase"), [])
            end
      end.

(** The response as the browser receives it. *)
Definition respond (r : nat * value) : response :=
  {| status := fst r; Http.content := JSON_stringify (snd r) |}.

End Handler.
End Backend.


(* ===================================================================== *)
(** * Vocabulary of the properties *)
(* ===================================================================== *)

Module Props.
Import App.

(** ** Challenge *)

Definition to_url (s : string) : string :=
  Pkce.replace_all "/" "_" (Pkce.replace_all "+" "-" s).

(** ** Values and texts *)

(** A value [JSON.stringify] writes in full: no [undefined] inside and,
    in every object, one property per name. *)
Fixpoint serializable (v : value) : Prop :=
  match v with
  | Undef => False
  | Null | Bool _ | Num _ | Str _ => True
  | Arr l =>
      (fix all (l : list value) : Prop :=
         match l with
         | [] => True
         | x :: r => serializable x /\ all r
         end) l
  | Obj fs =>
      NoDup (map fst fs)
      /\ (fix all (fs : list (string * value)) : Prop :=
            match fs with
            | [] => True
            | (_, x) :: r => serializable x /\ all r
            end) fs
  end.

Fixpoint height (v : value) : nat :=
  match v with
  | Arr l =>
      S ((fix hs (l : list value) : nat :=
            match l with
            | [] => 0
            | x :: r => Nat.max (height x) (hs r)
            end) l)
  | Obj fs =>
      S ((fix hs (fs : list (string * value)) : nat :=
            match fs with
            | [] => 0
            | (_, x) :: r => Nat.max (height x) (hs r)
            end) fs)
  | _ => 1
  end.

Definition text_of (v : value) : string :=
  match stringify v with
  | Some t => t
  | None => "null"
  end.

Definition member_text (kv : string * value) : string :=
  Json.quote (fst kv) ++ ":" ++ text_of (snd kv).

Definition digit_headed (s : string) : bool :=
  match s with
  | EmptyString => false
  | String c _ => is_digit c
  end.

(** What may follow a value in a text written by [stringify]. *)
Definition closes (rest : string) : Prop :=
  match rest with
  | EmptyString => True
  | String c _ => c = ","%char \/ c = "]"%char \/ c = "}"%char
  end.

(** A text begins a value: its first character is neither white space nor
    a closing bracket. *)
Definition opens (t : string) : Prop :=
  exists c r, t = String c r /\ is_ws c = false
              /\ Ascii.eqb c "]" = false /\ Ascii.eqb c "}" = false.

(** What the round trip needs of one value: its text begins a value, is at
    least as long as the value is high, and is read back by any parser
    run with enough fuel, whatever closing text follows. *)
Definition reads_back (v : value) : Prop :=
  opens (text_of v)
  /\ height v <= String.length (text_of v)
  /\ forall fuel rest, height v <= fuel -> closes rest ->
       parse_value fuel (text_of v ++ rest) = Some (v, rest).

(** A reader returns less text than it was given. *)
Definition shrinking {A} (pv : string -> option (A * string)) : Prop :=
  forall s v rest, pv s = Some (v, rest) -> String.length rest < String.length s.

(** A property name that does not begin with a digit is no array index. *)
Definition named (k : string) : Prop :=
  match k with
  | EmptyString => True
  | String c _ => (N_of_ascii c < 48 \/ 57 < N_of_ascii c)%N
  end.

(** ** The modelled JSON *)

(** A value the model holds as the platform does: every number is an
    integer of magnitude at most [2^53], which a double holds without
    rounding and [String] writes in digits, and no property name begins
    with a digit, so that the properties are enumerated in the order
    written. *)
Fixpoint precise (v : value) : bool :=
  match v with
  | Num n => (Z.abs n <=? 9007199254740992)%Z
  | Arr l =>
      (fix all (l : list value) : bool :=
         match l with
         | [] => true
         | x :: r => precise x && all r
         end) l
  | Obj fs =>
      (fix all (fs : list (string * value)) : bool :=
         match fs with
         | [] => true
         | (k, x) :: r => negb (digit_headed k) && precise x && all r
         end) fs
  | _ => true
  end.

(** A text [JSON_parse] reads as [JSON.parse] does: it is no JSON at all,
    or it is read into a value held exactly. A JSON text with a fraction,
    an exponent, a larger integer or an escape above [00ff] is not. *)
Definition modelled (text : string) : bool :=
  match JSON_parse text with
  | Some v => precise v
  | None => negb (JSON_valid text)
  end.

(** A reply whose body, if it has one, is such a text. *)
Definition readable (reply : Http.outcome) : bool :=
  match reply with
  | Http.Rejected _ => true
  | Http.Resolved res =>
      match Http.content res with
      | Some text => modelled text
      | None => true
      end
  end.

(** A recogniser that accepts what a reader reads, leaving the same text. *)
Definition follows (pv : string -> option (value * string))
    (vv : string -> option string) : Prop :=
  forall s v rest, pv s = Some (v, rest) -> vv s = Some rest.

(** ** Storage *)

(** The write [saveSession] attempts goes through. *)
Definition written (key : string) (value : Js.value) (st : Storage.t) : Prop :=
  exists st',
    Storage.setItem key
      (match JSON_stringify value with Some t => t | None => "undefined" end) st
    = Ok st'.

(** ** Vehicles *)

(** A parsed body none of whose recognised shapes applies. *)
Definition unrecognized (data : value) : Prop :=
  Api.isArray data = false
  /\ Api.isArray (prop "vehicles" data) = false
  /\ Api.isArray (prop "list" data) = false.

(** ** Redirect landing *)

Section Landing.
Variable C : oidc_config.

(** What one invocation of the landing effect can do. *)
Inductive landing_outcome (w w' : world) (r : result (option continuation)) : Prop :=
| Skipped : w' = w -> r = Ok None -> landing_outcome w w' r
| Failed e :
    r = Throw e -> network w' = network w -> session w' = session w ->
    landing_outcome w w' r
| Unsent state code :
    params_get "code" (search w) = Some code ->
    params_get "state" (search w) = Some state ->
    r = Ok (Some AfterExchange) -> network w' = network w ->
    marked state code w' ->
    landing_outcome w w' r
| Sent state code x client verifier :
    params_get "code" (search w) = Some code ->
    params_get "state" (search w) = Some state ->
    r = Ok (Some (AwaitToken x)) ->
    network w' = (network w ++ [token_request C client code verifier])%list ->
    marked state code w' ->
    landing_outcome w w' r.

(** The invariant of every schedule: either no call has been added, or
    exactly one has and the marker of the pair in [q] is stored. *)
Definition once (q : list (string * string)) (n : nat) (w : world) : Prop :=
  token_exchanges C w = n
  \/ (token_exchanges C w = n + 1
      /\ exists state code,
           params_get "code" q = Some code /\ params_get "state" q = Some state
           /\ marked state code w).

(** The stronger invariant once the call has been made. *)
Definition spent (q : list (string * string)) (n : nat) (w : world) : Prop :=
  token_exchanges C w = n + 1
  /\ exists state code,
       params_get "code" q = Some code /\ params_get "state" q = Some state
       /\ marked state code w.

End Landing.

(** A landing with the query [q] passes every guard of the effect on [w]:
    both parameters are there, the state is the pending one, the pair is
    not marked, nothing is in flight, the marker can be written and a
    verifier is stored. *)
Definition ready (q : list (string * string)) (state code : string) (w : world) : Prop :=
  params_get "code" q = Some code
  /\ params_get "state" q = Some state
  /\ code <> "" /\ state <> ""
  /\ loadSession "pkce_state" Null (session w) = Str state
  /\ string_truthy (Storage.items (session w) !! usedKey state code) = false
  /\ exchangingRef (ui w) = false
  /\ (exists st, Storage.setItem (usedKey state code) "1" (session w) = Ok st)
  /\ truthy (loadSession ("pkce_verifier:" ++ state) Null (session w)
             ||| loadSession "pkce_verifier" Null (session w)) = true.

End Props.

(* ===================================================================== *)
(** * A deployment to run the model on *)
(* ===================================================================== *)

Module Demo.
Import App.

(** The values of the repository's README for [src/config.ts]. *)
Definition config : oidc_config :=
  {| AUTHORIZATION_ENDPOINT := "https://localhost:9444/oauth2/authorize";
     TOKEN_ENDPOINT := "https://localhost:9444/oauth2/token";
     CLIENT_ID := "YOUR_CLIENT_ID_FOR_LOGIN";
     CLIENT_ID2 := "YOUR_CLIENT_ID_FOR_TRANSACTIONS";
     REDIRECT_URI := "http://localhost:5173";
     SCOPE := "openid profile email" |}.

Definition api : Api.api_config :=
  {| Api.GET_VEHICLES_URL := "https://localhost:8243/insurance/1/vehicles";
     Api.BUY_INSURANCE_URL := "https://localhost:8243/insurance/1/buy" |}.

Definition empty_storage : Storage.t :=
  {| Storage.items := ∅; Storage.enabled := true; Storage.quota := 5000000 |}.

(** A tab that has just opened the application. *)
Definition fresh : world :=
  {| ui := initial_component empty_storage; session := empty_storage;
     search := []; network := []; navigated := None |}.

(** Some bytes for [crypto.getRandomValues]. *)
Definition values1 (i : nat) : Byte.byte := Pkce.byte_of_N (N.of_nat (7 * i + 3)).
Definition values2 (i : nat) : Byte.byte := Pkce.byte_of_N (N.of_nat (11 * i + 5)).

Definition state0 : string := randomString 24 values2.

(** The tab after [startLogin] and the provider's redirect back with
    [code=code-1] and the state of the flow. *)
Definition query (code : string) : list (string * string) :=
  [ ("code", code); ("state", state0) ].

Definition landed : world :=
  load_page (query "code-1") (startLogin config Undef values1 values2 fresh).

Definition json_reply (status : nat) (v : value) : outcome :=
  Resolved {| status := status; content := JSON_stringify v |}.

Definition login_tokens : value :=
  Obj [ ("access_token", Str "AT-login"); ("id_token", Str "");
        ("expires_in", Num 3600) ].

Definition stepup_tokens : value :=
  Obj [ ("access_token", Str "AT-stepup"); ("expires_in", Num 3600) ].

Definition invalid_grant : value := Obj [ ("error", Str "invalid_grant") ].

(** The landing of [landed], answered by the token endpoint with
    [login_tokens]. *)
Definition signed_in : world :=
  now (run config (query "code-1") [Invoke; Resume (json_reply 200 login_tokens)]
         {| now := landed; pending := [] |}).

(** The signed-in user has picked the uninsured vehicle and got a quote. *)
Definition shopping : world :=
  on_ui (fun c =>
           setQuote (Obj [ ("id", Str "Q-1"); ("vehicleId", Str "VEH-003");
                           ("premium", Num 52000) ])
             (setSelectedVehicle
                (Api.vehicle "VEH-003" "Toyota" "Hiace" "WP-KA-9912" "VAN" 2020 5200000
                   [ ("isInsured", Bool false) ] true false false)
                (setVehicles Api.mockVehicles c)))
    signed_in.

(** A step-up response that names the flow and the authenticator. *)
Definition challenge : value :=
  Obj [ ("flowId", Str "flow-1");
        ("nextStep",
          Obj [ ("authenticators",
                  Arr [ Obj [ ("authenticatorId", Str "email-otp") ] ]) ]) ].

(** The OTP entry is shown and the user has typed the code. *)
Definition otp_entered : world :=
  on_ui (setOtpValue "123456")
    (startEmailOtp config (Str (CLIENT_ID2 config)) (json_reply 200 challenge) shopping).

Definition otp_completed : value :=
  Obj [ ("flowStatus", Str "SUCCESS_COMPLETED");
        ("authData", Obj [ ("code", Str "stepup-code") ]) ].

Definition otp_completed_without_code : value :=
  Obj [ ("flowStatus", Str "SUCCESS_COMPLETED") ].

Definition policy : value :=
  Obj [ ("policyNumber", Str "POL-2026-000001"); ("endDate", Str "2026-12-31") ].

End Demo.

(* ===================================================================== *)
(** * Vocabulary of the further properties *)
(* ===================================================================== *)

Module Terms.
Import App Http.

(** [String.fromCharCode(...bytes)]: the binary string of a byte array. *)
Definition binary (bs : list Byte.byte) : string :=
  string_of_list_ascii (map (fun b => ascii_of_N (Byte.to_N b)) bs).

(** An unreserved character of RFC 3986: a letter, a digit or one of
    [-._~]. *)
Definition unreserved (c : ascii) : bool :=
  let n := N_of_ascii c in
  ((65 <=? n) && (n <=? 90) || (97 <=? n) && (n <=? 122) || (48 <=? n) && (n <=? 57)
   || (n =? 45) || (n =? 46) || (n =? 95) || (n =? 126))%N.

(** A character of the base64url alphabet (RFC 4648, table 2). *)
Definition base64url_char (c : ascii) : bool :=
  let n := N_of_ascii c in
  ((65 <=? n) && (n <=? 90) || (97 <=? n) && (n <=? 122) || (48 <=? n) && (n <=? 57)
   || (n =? 45) || (n =? 95))%N.

Fixpoint every (p : ascii -> bool) (s : string) : bool :=
  match s with
  | EmptyString => true
  | String c r => p c && every p r
  end.

(** A text of ASCII characters only. *)
Definition ascii_only (s : string) : bool :=
  every (fun c => (N_of_ascii c <? 128)%N) s.

(** A character that is neither white space for [atob], nor the padding
    sign, nor the separator of a token's segments. *)
Definition plain (c : ascii) : bool :=
  let n := N_of_ascii c in
  negb ((n =? 9) || (n =? 10) || (n =? 12) || (n =? 13) || (n =? 32))%N
  && negb (Ascii.eqb c "=") && negb (Ascii.eqb c ".").

(** The room an entry takes in the storage. *)
Definition entry_size (k v : string) : N :=
  N.of_nat (String.length k + String.length v).

(** A usable storage with room for [n] more characters. *)
Definition roomy (n : N) (st : Storage.t) : Prop :=
  Storage.enabled st = true
  /\ (Storage.footprint (Storage.items st) + n <= Storage.quota st)%N.

(** The client a sign-in runs for: the argument of [startLogin] when it is
    a non-empty string, the configured one otherwise. *)
Definition login_client (C : oidc_config) (clientId : value) : string :=
  match clientId with
  | Str s => if String.eqb s "" then CLIENT_ID C else s
  | _ => CLIENT_ID C
  end.

(** A character the query serialiser writes as it is. *)
Definition query_safe (c : ascii) : bool := Url.kept (N_of_ascii c).

(** What a reply grants: the truthy JSON body of a 2xx response. *)
Definition granted (reply : outcome) : option value :=
  match reply with
  | Rejected _ => None
  | Resolved res =>
      if ok res then
        match Http.json false res with
        | Some v => if truthy v then Some v else None
        | None => None
        end
      else None
  end.

(** The request [submitOtp] opens with: the OTP, posted to the flow the
    stored challenge names. *)
Definition opening (c : component) : request :=
  authn_request (otpResponse c) (flowId_lookup (otpResponse c))
    (authenticatorId_lookup (otpResponse c)) (otpValue c).

(** An answer to the OTP submission that completes the flow and carries a
    code: the condition under which [submitOtp] exchanges. *)
Definition completes (json : value) : bool :=
  strict_equal (oprop "flowStatus" json) (Str "SUCCESS_COMPLETED")
  && truthy (oprop "code" (oprop "authData" json)).

(** A character that cannot end or split a query parameter. *)
Definition query_inert (c : ascii) : bool :=
  negb (Ascii.eqb c "&") && negb (Ascii.eqb c "=") && negb (Ascii.eqb c "?")
  && negb (Ascii.eqb c "#") && negb (Ascii.eqb c " ").

(** A reader that returns values [JSON.stringify] writes in full. *)
Definition sound (pv : string -> option (value * string)) : Prop :=
  forall s v rest, pv s = Some (v, rest) -> Props.serializable v.

End Terms.

(* ===================================================================== *)
(** * A deployment for the vehicle side *)
(* ===================================================================== *)
Module Trial.
Import App Http Props Terms.
Import Garage.

(** The remaining values of the README and of QUICKSTART_CHAT.md for
    [src/config.ts]. *)
Definition more_config : endpoints :=
  {| USERINFO_ENDPOINT := "https://localhost:9444/oauth2/userinfo";
     ENDSESSION_ENDPOINT := "https://localhost:9444/oidc/logout" |}.

Definition more_api : Calls.addresses :=
  {| Calls.ADD_VEHICLE_URL := "https://localhost:8243/vehicleapi/1.0.0/vehicles/add";
     Calls.GET_QUOTE_URL := "https://localhost:8243/motorinsurancequoteapi/2/quote" |}.

(** The signed-in user of [Demo.signed_in], the vehicles not loaded yet. *)
Definition arrived : desk :=
  {| page := Demo.signed_in; more := initial_cells 2026 |}.

(** The vehicles are listed. *)
Definition listed : desk :=
  on_page (on_ui (setVehicles Api.mockVehicles)) arrived.

Definition van : value :=
  Api.vehicle "VEH-003" "Toyota" "Hiace" "WP-KA-9912" "VAN" 2020 5200000
    [ ("isInsured", Bool false) ] true false false.

Definition quote_1 : value :=
  Obj [ ("id", Str "Q-1"); ("vehicleId", Str "VEH-003"); ("premium", Num 52000) ].

(** The user has opened the form and typed a registration number. *)
Definition typing : desk :=
  on_more (fun m => setNewVehicleForm
                      {| registrationNumber := "WP-XY-1234"; vehicleType := "SUV";
                         year := 2024 |}
                      (setShowAddVehicle true m))
    listed.

Definition added : value :=
  Api.vehicle "VEH-004" "Suzuki" "Vitara" "WP-XY-1234" "SUV" 2024 9500000
    [ ("isInsured", Bool false) ] true false false.

End Trial.

Module Lounge.
Import App Http Props Terms.

(** A panel in which the user has typed a question. *)
Definition asking : Chat.room :=
  {| Chat.view := {| Chat.messages := []; Chat.input := "Is my van insured?";
                     Chat.loading := false; Chat.error := None;
                     Chat.isCollapsed := false |};
     Chat.wire := [] |}.

Definition clock (i : nat) : Z := 1790000000000 + Z.of_nat i.

Definition told : value :=
  Obj [ ("response", Str "None of your vehicles currently have active insurance coverage.");
        ("hadPolicyInfo", Bool true) ].

End Lounge.


(* ===================================================================== *)
(** * Facts about the PKCE helpers *)
(* ===================================================================== *)
Module PkceFacts.
Import Pkce Props.

(** Induction over a byte list three bytes at a time, as [base64_with]
    consumes it. *)
Lemma triples_ind (P : list Byte.byte -> Prop) :
  P [] ->
  (forall a, P [a]) ->
  (forall a b, P [a; b]) ->
  (forall a b c r, P r -> P (a :: b :: c :: r)) ->
  forall bs, P bs.
Proof.
  intros H0 H1 H2 H3.
  fix IH 1.
  intros [|a [|b [|c r]]];
    [exact H0 | apply H1 | apply H2 | apply H3, IH].
Qed.

Lemma to_url_cons x r :
  to_url (String x r)
  = String (if Ascii.eqb (if Ascii.eqb x "+" then "-" else x) "/" then "_"
            else if Ascii.eqb x "+" then "-" else x)%char (to_url r).
Proof. reflexivity. Qed.

Lemma sextet_to_url (i : N) :
  (if Ascii.eqb (if Ascii.eqb (sextet std_alphabet i) "+" then "-"
                 else sextet std_alphabet i) "/" then "_"
   else if Ascii.eqb (sextet std_alphabet i) "+" then "-"
        else sextet std_alphabet i)%char
  = sextet url_alphabet i.
Proof.
  unfold sextet. generalize (N.to_nat i). intros n.
  do 64 (destruct n as [|n]; [reflexivity|]).
  destruct n; reflexivity.
Qed.

Lemma sextet_url_safe (i : N) :
  Ascii.eqb (sextet url_alphabet i) "+" = false
  /\ Ascii.eqb (sextet url_alphabet i) "/" = false
  /\ Ascii.eqb (sextet url_alphabet i) "=" = false.
Proof.
  unfold sextet. generalize (N.to_nat i). intros n.
  do 64 (destruct n as [|n]; [repeat split; reflexivity|]).
  destruct n; repeat split; reflexivity.
Qed.

Lemma to_url_base64 bs :
  to_url (base64_with std_alphabet "=" bs) = base64_with url_alphabet "=" bs.
Proof.
  induction bs as [|a|a b|a b c r IH] using triples_ind.
  - reflexivity.
  - cbn [base64_with]. rewrite !to_url_cons, !sextet_to_url. reflexivity.
  - cbn [base64_with]. rewrite !to_url_cons, !sextet_to_url. reflexivity.
  - cbn [base64_with]. rewrite !to_url_cons, !sextet_to_url, IH. reflexivity.
Qed.

Lemma strip_cons_other x r :
  Ascii.eqb x "=" = false ->
  strip_trailing_eq (String x r) = String x (strip_trailing_eq r).
Proof.
  intros Hx. cbn [strip_trailing_eq]. rewrite Hx.
  destruct (strip_trailing_eq r); reflexivity.
Qed.

Lemma strip_base64 bs :
  strip_trailing_eq (base64_with url_alphabet "=" bs) = base64_with url_alphabet "" bs.
Proof.
  induction bs as [|a|a b|a b c r IH] using triples_ind.
  - reflexivity.
  - cbn [base64_with].
    rewrite !strip_cons_other by apply sextet_url_safe. reflexivity.
  - cbn [base64_with].
    rewrite !strip_cons_other by apply sextet_url_safe. reflexivity.
  - cbn [base64_with].
    rewrite !strip_cons_other by apply sextet_url_safe. rewrite IH. reflexivity.
Qed.

Lemma base64UrlEncode_spec bs : base64UrlEncode bs = base64url_nopad bs.
Proof.
  unfold base64UrlEncode, base64url_nopad, btoa.
  change (strip_trailing_eq (to_url (base64_with std_alphabet "=" bs))
          = base64_with url_alphabet "" bs).
  rewrite to_url_base64. apply strip_base64.
Qed.

Lemma base64url_alphabet_only bs :
  mentions "+" (base64url_nopad bs) = false
  /\ mentions "/" (base64url_nopad bs) = false
  /\ mentions "=" (base64url_nopad bs) = false.
Proof.
  unfold base64url_nopad.
  induction bs as [|a|a b|a b c r IH] using triples_ind;
    cbn [base64_with mentions String.append].
  - auto.
  - pose proof (sextet_url_safe (idx1 a)) as (-> & -> & ->).
    pose proof (sextet_url_safe (idx2 a Byte.x00)) as (-> & -> & ->). auto.
  - pose proof (sextet_url_safe (idx1 a)) as (-> & -> & ->).
    pose proof (sextet_url_safe (idx2 a b)) as (-> & -> & ->).
    pose proof (sextet_url_safe (idx3 b Byte.x00)) as (-> & -> & ->). auto.
  - pose proof (sextet_url_safe (idx1 a)) as (-> & -> & ->).
    pose proof (sextet_url_safe (idx2 a b)) as (-> & -> & ->).
    pose proof (sextet_url_safe (idx3 b c)) as (-> & -> & ->).
    pose proof (sextet_url_safe (idx4 c)) as (-> & -> & ->).
    cbn [orb]. exact IH.
Qed.

End PkceFacts.

(* ===================================================================== *)
(** * Facts about numbers and texts *)
(* ===================================================================== *)
Module NumberFacts.
Import Props.
Section Facts.
Local Arguments String.append !_ _ / : simpl nomatch.

Lemma append_assoc (a b c : string) : (a ++ b) ++ c = a ++ (b ++ c).
Proof. induction a as [|x a IH]; cbn; [reflexivity|]. f_equal. exact IH. Qed.

Lemma digit_char_code d : (d < 10)%N -> N_of_ascii (digit_char d) = (48 + d)%N.
Proof. intros Hd. unfold digit_char. apply N_ascii_embedding. lia. Qed.

Lemma digit_char_is_digit d : (d < 10)%N -> is_digit (digit_char d) = true.
Proof.
  intros Hd. unfold is_digit. rewrite digit_char_code by exact Hd.
  apply andb_true_intro. split; apply N.leb_le; lia.
Qed.

Lemma print_N_go_append f n suffix rest :
  print_N_go f n suffix ++ rest = print_N_go f n (suffix ++ rest).
Proof.
  revert n suffix. induction f as [|f IH]; intros n suffix; cbn; [reflexivity|].
  destruct (n <? 10)%N; [reflexivity|]. apply IH.
Qed.

(** Reading back the digits written with enough fuel. *)
Lemma read_digits_print_N_go f n :
  (n < 10 ^ N.of_nat f)%N ->
  exists k, forall acc suffix,
    read_digits acc (print_N_go f n suffix) = read_digits (acc * 10 ^ k + n) suffix.
Proof.
  revert n. induction f as [|f IH]; intros n Hn.
  - cbn in Hn. assert (n = 0%N) as -> by lia.
    exists 0%N. intros acc suffix. cbn. f_equal. lia.
  - cbn [print_N_go]. destruct (n <? 10)%N eqn:E.
    + apply N.ltb_lt in E. exists 1%N. intros acc suffix.
      cbn [read_digits]. rewrite digit_char_is_digit by (apply N.mod_lt; lia).
      rewrite digit_char_code by (apply N.mod_lt; lia).
      rewrite N.mod_small by exact E. f_equal. lia.
    + apply N.ltb_ge in E.
      destruct (IH (n / 10)%N) as (k & Hk).
      { rewrite Nat2N.inj_succ, N.pow_succ_r' in Hn.
        apply N.Div0.div_lt_upper_bound. lia. }
      exists (N.succ k). intros acc suffix. rewrite Hk.
      cbn [read_digits]. rewrite digit_char_is_digit by (apply N.mod_lt; lia).
      rewrite digit_char_code by (apply N.mod_lt; lia).
      f_equal. rewrite N.pow_succ_r'.
      pose proof (N.div_mod n 10 ltac:(lia)) as H.
      revert H. generalize (n / 10)%N (n mod 10)%N (10 ^ k)%N.
      intros q d X ->. lia.
Qed.

Lemma print_N_fuel n : (n < 10 ^ N.of_nat (S (N.to_nat (N.log2 n))))%N.
Proof.
  rewrite Nat2N.inj_succ, N2Nat.id.
  destruct (N.eq_dec n 0%N) as [->|Hn]; [cbn; lia|].
  pose proof (N.log2_spec n ltac:(lia)) as (_ & Hlt).
  eapply N.lt_le_trans; [exact Hlt|].
  apply N.pow_le_mono_l. lia.
Qed.

Lemma read_digits_stop acc s : digit_headed s = false -> read_digits acc s = (acc, s).
Proof. destruct s as [|c r]; cbn; [reflexivity|]. intros ->. reflexivity. Qed.

Lemma read_digits_print_N n rest :
  digit_headed rest = false ->
  read_digits 0 (print_N n ++ rest) = (n, rest).
Proof.
  intros Hr. unfold print_N. rewrite print_N_go_append. cbn [String.append].
  destruct (read_digits_print_N_go _ n (print_N_fuel n)) as (k & Hk).
  rewrite Hk. cbn. apply read_digits_stop, Hr.
Qed.

(** The first digit written for a positive number is not [0]. *)
Lemma print_N_go_positive f n suffix :
  (0 < n)%N -> (n < 10 ^ N.of_nat f)%N ->
  exists d r, (0 < d < 10)%N /\ print_N_go f n suffix = String (digit_char d) r.
Proof.
  revert n suffix. induction f as [|f IH]; intros n suffix Hpos Hn.
  - cbn in Hn. lia.
  - cbn [print_N_go]. destruct (n <? 10)%N eqn:E.
    + apply N.ltb_lt in E. exists n, suffix. rewrite N.mod_small by exact E. auto.
    + apply N.ltb_ge in E. apply IH.
      * apply N.div_str_pos. lia.
      * rewrite Nat2N.inj_succ, N.pow_succ_r' in Hn.
        apply N.Div0.div_lt_upper_bound. lia.
Qed.

Lemma print_N_zero : print_N 0 = "0".
Proof. reflexivity. Qed.

Lemma parse_nat_print_N n rest :
  digit_headed rest = false ->
  parse_nat (print_N n ++ rest) = Some (n, rest).
Proof.
  intros Hr. destruct (N.eq_dec n 0%N) as [->|Hn]; [reflexivity|].
  pose proof (read_digits_print_N n rest Hr) as Hread.
  unfold print_N in *.
  destruct (print_N_go_positive _ n "" ltac:(lia) (print_N_fuel n)) as (d & r & Hd & E).
  rewrite E in *. cbn [String.append parse_nat] in *.
  assert (Ascii.eqb (digit_char d) "0" = false) as ->.
  { apply Ascii.eqb_neq. intros H. apply (f_equal N_of_ascii) in H.
    rewrite digit_char_code in H by lia. cbn in H. lia. }
  rewrite digit_char_is_digit by lia. by rewrite Hread.
Qed.

Lemma closes_not_digit rest : closes rest -> digit_headed rest = false.
Proof. destruct rest as [|c r]; cbn; [auto|]. intros [->|[->| ->]]; reflexivity. Qed.

Lemma closes_integer_end rest : closes rest -> integer_end rest = true.
Proof. destruct rest as [|c r]; cbn; [auto|]. intros [->|[->| ->]]; reflexivity. Qed.

Lemma closes_no_ws rest : closes rest -> skip_ws rest = rest.
Proof. destruct rest as [|c r]; cbn; [auto|]. intros [->|[->| ->]]; reflexivity. Qed.

Lemma print_N_head n :
  exists d r, (d < 10)%N /\ print_N n = String (digit_char d) r.
Proof.
  unfold print_N. generalize (N.to_nat (N.log2 n)). intros f.
  generalize "". revert n. induction f as [|f IH]; intros n suffix.
  - exists (n mod 10)%N, suffix. split; [apply N.mod_lt; lia|].
    cbn. destruct (n <? 10)%N; reflexivity.
  - cbn [print_N_go]. destruct (n <? 10)%N.
    + exists (n mod 10)%N, suffix. split; [apply N.mod_lt; lia|reflexivity].
    + apply IH.
Qed.

Lemma parse_number_print_N n rest :
  closes rest -> parse_number (print_N n ++ rest) = Some (Num (Z.of_N n), rest).
Proof.
  intros Hr. pose proof (closes_not_digit _ Hr) as Hd.
  pose proof (closes_integer_end _ Hr) as He.
  pose proof (parse_nat_print_N n rest Hd) as Hp.
  destruct (print_N_head n) as (d & r & Hlt & E).
  rewrite E in *. cbn [String.append parse_number] in *.
  assert (Ascii.eqb (digit_char d) "-" = false) as ->.
  { apply Ascii.eqb_neq. intros H. apply (f_equal N_of_ascii) in H.
    rewrite digit_char_code in H by lia. cbn in H. lia. }
  rewrite Hp, He. reflexivity.
Qed.

Lemma parse_number_print_Z z rest :
  closes rest -> parse_number (print_Z z ++ rest) = Some (Num z, rest).
Proof.
  intros Hr. destruct z as [|p|p]; cbn [print_Z].
  - apply (parse_number_print_N 0 rest Hr).
  - apply (parse_number_print_N (N.pos p) rest Hr).
  - pose proof (closes_not_digit _ Hr) as Hd.
    pose proof (closes_integer_end _ Hr) as He.
    cbn [String.append parse_number]. cbn [Ascii.eqb Bool.eqb].
    rewrite (parse_nat_print_N (N.pos p) rest Hd), He. reflexivity.
Qed.

End Facts.
End NumberFacts.

Module TextFacts.
Import Props NumberFacts.
Section Facts.
Local Arguments String.append !_ _ / : simpl nomatch.

Lemma parse_chars_escape_unit c tail :
  parse_chars (escape_unit c ++ tail) = push c (parse_chars tail).
Proof.
  destruct c as [[] [] [] [] [] [] [] []]; reflexivity.
Qed.

Lemma parse_chars_escape s rest :
  parse_chars (escape s ++ String dquote rest) = Some (s, rest).
Proof.
  induction s as [|c s IH]; [reflexivity|].
  cbn [escape]. rewrite append_assoc, parse_chars_escape_unit, IH. reflexivity.
Qed.

Lemma parse_chars_quote s rest :
  exists body, quote s ++ rest = String dquote body
               /\ parse_chars body = Some (s, rest).
Proof.
  exists (escape s ++ String dquote rest). split.
  - unfold quote. cbn. rewrite append_assoc. reflexivity.
  - apply parse_chars_escape.
Qed.

End Facts.
End TextFacts.

(* ===================================================================== *)
(** * JSON.parse after JSON.stringify *)
(* ===================================================================== *)
Module ValueFacts.
Import Props NumberFacts TextFacts.
Section Facts.
Local Arguments String.append !_ _ / : simpl nomatch.

Lemma value_nested_ind (P : value -> Prop) :
  P Undef -> P Null -> (forall b, P (Bool b)) -> (forall n, P (Num n)) ->
  (forall s, P (Str s)) ->
  (forall l, Forall P l -> P (Arr l)) ->
  (forall fs, Forall (fun kv => P (snd kv)) fs -> P (Obj fs)) ->
  forall v, P v.
Proof.
  intros HU HN HB HNum HS HA HO.
  fix IH 1. intros [| |b|n|s|l|fs].
  - exact HU.
  - exact HN.
  - apply HB.
  - apply HNum.
  - apply HS.
  - apply HA. induction l as [|x r IHl]; constructor; [apply IH|exact IHl].
  - apply HO. induction fs as [|[k x] r IHl]; constructor; [apply IH|exact IHl].
Qed.

Lemma serializable_Arr l : serializable (Arr l) <-> Forall serializable l.
Proof.
  cbn. induction l as [|x r IH]; [split; auto|].
  rewrite Forall_cons, IH. reflexivity.
Qed.

Lemma serializable_Obj fs :
  serializable (Obj fs)
  <-> NoDup (map fst fs) /\ Forall (fun kv => serializable (snd kv)) fs.
Proof.
  cbn. apply and_iff_compat_l.
  induction fs as [|[k x] r IH]; [split; auto|].
  rewrite Forall_cons, IH. reflexivity.
Qed.

Lemma height_Arr l x : In x l -> height x < height (Arr l).
Proof.
  cbn. induction l as [|y r IH]; [intros []|].
  intros [->|Hin]; [lia|]. specialize (IH Hin). lia.
Qed.

Lemma height_Obj fs k x : In (k, x) fs -> height x < height (Obj fs).
Proof.
  cbn. induction fs as [|[k' y] r IH]; [intros []|].
  intros [[= -> ->]|Hin]; [lia|]. specialize (IH Hin). lia.
Qed.

Lemma stringify_serializable v : serializable v -> stringify v = Some (text_of v).
Proof. unfold text_of. destruct v as [| |[]| | | |]; cbn; try reflexivity. intros []. Qed.

Lemma stringify_Arr l :
  stringify (Arr l) = Some ("[" ++ Js.join "," (map text_of l) ++ "]").
Proof.
  reflexivity.
Qed.

Lemma stringify_Obj fs :
  Forall (fun kv => serializable (snd kv)) fs ->
  stringify (Obj fs) = Some ("{" ++ Js.join "," (map member_text fs) ++ "}").
Proof.
  intros Hfs. cbn [stringify].
  match goal with
  | |- Some (_ ++ Js.join _ ?a ++ _) = Some (_ ++ Js.join _ ?b ++ _) =>
      assert (a = b) as ->; [|reflexivity]
  end.
  induction Hfs as [|[k x] r Hx _ IH]; [reflexivity|].
  cbn [map]. rewrite <- IH. cbn [snd] in Hx.
  rewrite (stringify_serializable x Hx). reflexivity.
Qed.

End Facts.
End ValueFacts.

Module ParseFacts.
Import Props NumberFacts TextFacts ValueFacts.
Section Facts.
Local Arguments String.append !_ _ / : simpl nomatch.

Lemma length_append (a b : string) :
  String.length (a ++ b) = String.length a + String.length b.
Proof. induction a as [|x a IH]; cbn; [reflexivity|]. by rewrite IH. Qed.

Lemma opens_length t : opens t -> 1 <= String.length t.
Proof. intros (c & r & -> & _). cbn. lia. Qed.

Lemma opens_skip_ws t rest : opens t -> skip_ws (t ++ rest) = t ++ rest.
Proof. intros (c & r & -> & Hws & _). cbn. rewrite Hws. reflexivity. Qed.

Lemma join_length ts :
  Forall opens ts -> length ts <= String.length (Js.join "," ts).
Proof.
  induction 1 as [|t ts Ht _ IH]; [cbn; lia|].
  apply opens_length in Ht.
  destruct ts as [|t' ts]; [cbn; lia|].
  change (Js.join "," (t :: t' :: ts)) with (t ++ "," ++ Js.join "," (t' :: ts)).
  rewrite !length_append. cbn [length] in *. lia.
Qed.

Lemma parse_value_number f c r :
  is_digit c = true \/ c = "-"%char ->
  parse_value (S f) (String c r) = parse_number (String c r).
Proof.
  intros H.
  destruct c as [[] [] [] [] [] [] [] []];
    (destruct H as [H|H]; [cbn in H; try discriminate H | try discriminate H]);
    reflexivity.
Qed.

Lemma print_Z_head z :
  exists c r, print_Z z = String c r /\ (is_digit c = true \/ c = "-"%char).
Proof.
  destruct z as [|p|p]; cbn [print_Z].
  - destruct (print_N_head (Z.to_N 0)) as (d & r & Hd & ->).
    exists (digit_char d), r. split; [reflexivity|].
    left. by apply digit_char_is_digit.
  - destruct (print_N_head (Z.to_N (Z.pos p))) as (d & r & Hd & ->).
    exists (digit_char d), r. split; [reflexivity|].
    left. by apply digit_char_is_digit.
  - exists "-"%char, (print_N (N.pos p)). split; [reflexivity|]. by right.
Qed.

Lemma digit_or_minus_opens c r :
  is_digit c = true \/ c = "-"%char -> opens (String c r).
Proof.
  intros H. exists c, r. split; [reflexivity|].
  destruct c as [[] [] [] [] [] [] [] []];
    (destruct H as [H|H]; [cbn in H; try discriminate H | try discriminate H]);
    repeat split.
Qed.

(** Reading back the elements of a non-empty array. *)
Lemma parse_elems_join f l rest n :
  l <> [] ->
  Forall (fun x => forall rest', closes rest' ->
                     parse_value f (text_of x ++ rest') = Some (x, rest')) l ->
  length l <= n ->
  parse_elems (parse_value f) n (Js.join "," (map text_of l) ++ String "]" rest)
  = Some (l, rest).
Proof.
  intros Hne Hl. revert n. induction Hl as [|x l Hx Hl IH]; [done|].
  intros [|n] Hn; [cbn in Hn; lia|]. cbn [length] in Hn.
  destruct l as [|y l].
  - cbn [map Js.join parse_elems].
    rewrite Hx by (cbn; auto). cbn. reflexivity.
  - change (Js.join "," (map text_of (x :: y :: l)))
      with (text_of x ++ "," ++ Js.join "," (map text_of (y :: l))).
    rewrite !append_assoc. cbn [parse_elems].
    rewrite Hx by (cbn; auto). cbn [String.append skip_ws].
    change (is_ws ",") with false. cbn iota.
    change (Ascii.eqb "," ",") with true. cbn iota.
    rewrite IH by (done || lia). reflexivity.
Qed.

End Facts.
End ParseFacts.

Module ObjectFacts.
Import Props NumberFacts TextFacts ValueFacts ParseFacts.
Section Facts.
Local Arguments String.append !_ _ / : simpl nomatch.

Lemma set_field_fresh k v (acc : list (string * value)) :
  k ∉ map fst acc -> set_field k v acc = (acc ++ [(k, v)])%list.
Proof.
  induction acc as [|[k' v'] acc IH]; cbn; [reflexivity|].
  intros Hk. apply not_elem_of_cons in Hk as (Hne & Hk).
  destruct (String.eqb k' k) eqn:E; [apply String.eqb_eq in E; congruence|].
  by rewrite IH.
Qed.

Lemma define_from (ms acc : list (string * value)) :
  NoDup (map fst (acc ++ ms)%list) ->
  fold_left (fun a kv => set_field (fst kv) (snd kv) a) ms acc = (acc ++ ms)%list.
Proof.
  revert acc. induction ms as [|[k v] ms IH]; intros acc Hnd; cbn.
  - by rewrite app_nil_r.
  - rewrite set_field_fresh.
    + rewrite IH; rewrite <- app_assoc; [reflexivity|exact Hnd].
    + rewrite map_app in Hnd. apply NoDup_app in Hnd as (_ & Hd & _).
      intros Hin. apply (Hd k Hin). cbn. left.
Qed.

Lemma define_all_distinct ms : NoDup (map fst ms) -> define_all ms = ms.
Proof. intros Hnd. unfold define_all. by rewrite define_from. Qed.

Lemma member_text_shape k x tail :
  member_text (k, x) ++ tail
  = String dquote (escape k ++ String dquote (String ":" (text_of x ++ tail))).
Proof.
  unfold member_text, quote. cbn [fst snd String.append].
  rewrite !append_assoc. cbn [String.append]. reflexivity.
Qed.

Lemma member_text_opens kv : opens (member_text kv).
Proof.
  unfold member_text, quote. cbn [String.append].
  eexists _, _. split; [reflexivity|]. repeat split.
Qed.

(** Reading back the members of a non-empty object. *)
Lemma parse_members_join f fs rest n :
  fs <> [] ->
  Forall (fun kv => forall rest', closes rest' ->
                      parse_value f (text_of (snd kv) ++ rest') = Some (snd kv, rest')) fs ->
  length fs <= n ->
  parse_members (parse_value f) n (Js.join "," (map member_text fs) ++ String "}" rest)
  = Some (fs, rest).
Proof.
  intros Hne Hl. revert n. induction Hl as [|[k x] l Hx Hl IH]; [done|].
  intros [|n] Hn; [cbn in Hn; lia|]. cbn [length snd] in *.
  destruct l as [|y l].
  - cbn [map Js.join]. rewrite member_text_shape. cbn [parse_members skip_ws].
    change (is_ws dquote) with false. cbn iota.
    change (Ascii.eqb dquote dquote) with true. cbn iota.
    rewrite parse_chars_escape. cbn [skip_ws].
    change (is_ws ":") with false. cbn iota.
    change (Ascii.eqb ":" ":") with true. cbn iota.
    rewrite Hx by (cbn; auto). cbn. reflexivity.
  - change (Js.join "," (map member_text ((k, x) :: y :: l)))
      with (member_text (k, x) ++ "," ++ Js.join "," (map member_text (y :: l))).
    rewrite append_assoc, member_text_shape. cbn [parse_members skip_ws].
    change (is_ws dquote) with false. cbn iota.
    change (Ascii.eqb dquote dquote) with true. cbn iota.
    rewrite parse_chars_escape. cbn [skip_ws].
    change (is_ws ":") with false. cbn iota.
    change (Ascii.eqb ":" ":") with true. cbn iota.
    rewrite append_assoc.
    rewrite Hx by (cbn; auto). cbn [String.append skip_ws].
    change (is_ws ",") with false. cbn iota.
    change (Ascii.eqb "," ",") with true. cbn iota.
    rewrite IH by (done || lia). reflexivity.
Qed.

End Facts.
End ObjectFacts.

Module RoundTrip.
Import Props NumberFacts TextFacts ValueFacts ParseFacts ObjectFacts.
Section Facts.
Local Arguments String.append !_ _ / : simpl nomatch.

Lemma text_of_Arr l : text_of (Arr l) = "[" ++ Js.join "," (map text_of l) ++ "]".
Proof. reflexivity. Qed.

Lemma text_of_Obj fs :
  Forall (fun kv => serializable (snd kv)) fs ->
  text_of (Obj fs) = "{" ++ Js.join "," (map member_text fs) ++ "}".
Proof. intros H. unfold text_of. by rewrite stringify_Obj. Qed.

Lemma join_height_elems (l : list value) :
  Forall (fun x => opens (text_of x) /\ height x <= String.length (text_of x)) l ->
  forall x, In x l -> height x <= String.length (Js.join "," (map text_of l)).
Proof.
  induction 1 as [|y l (Hy & Hh) Hl IH]; [intros ? []|].
  intros x Hin. destruct l as [|z l].
  - destruct Hin as [->|[]]. exact Hh.
  - change (Js.join "," (map text_of (y :: z :: l)))
      with (text_of y ++ "," ++ Js.join "," (map text_of (z :: l))).
    rewrite !length_append. destruct Hin as [->|Hin]; [lia|].
    specialize (IH x Hin). lia.
Qed.

Lemma join_height_members (fs : list (string * value)) :
  Forall (fun kv => height (snd kv) <= String.length (text_of (snd kv))) fs ->
  forall k x, In (k, x) fs -> height x <= String.length (Js.join "," (map member_text fs)).
Proof.
  induction 1 as [|[k' y] l Hh Hl IH]; [intros ? ? []|].
  intros k x Hin. cbn [snd] in Hh.
  assert (Hm : height y <= String.length (member_text (k', y))).
  { unfold member_text. cbn [fst snd]. rewrite !length_append. lia. }
  destruct l as [|z l].
  - destruct Hin as [[= -> ->]|[]]. exact Hm.
  - change (Js.join "," (map member_text ((k', y) :: z :: l)))
      with (member_text (k', y) ++ "," ++ Js.join "," (map member_text (z :: l))).
    rewrite !length_append. destruct Hin as [[= -> ->]|Hin]; [lia|].
    specialize (IH k x Hin). lia.
Qed.

Lemma height_Arr_bound l n :
  (forall x, In x l -> height x <= n) -> height (Arr l) <= S n.
Proof.
  intros H. cbn. apply le_n_S.
  induction l as [|x r IH]; [lia|].
  apply Nat.max_lub; [apply H; by left|apply IH; intros; apply H; by right].
Qed.

Lemma height_Obj_bound fs n :
  (forall k x, In (k, x) fs -> height x <= n) -> height (Obj fs) <= S n.
Proof.
  intros H. cbn. apply le_n_S.
  induction fs as [|[k x] r IH]; [lia|].
  apply Nat.max_lub; [apply (H k); by left|apply IH; intros; eapply H; by right].
Qed.

Theorem serializable_reads_back v : serializable v -> reads_back v.
Proof.
  induction v as [| |b|n|s|l IH|fs IH] using value_nested_ind; intros Hv.
  - destruct Hv.
  - split; [|split].
    + eexists _, _. split; [reflexivity|]. repeat split.
    + cbn. lia.
    + intros [|f] rest Hf _; [cbn in Hf; lia|]. reflexivity.
  - split; [|split].
    + destruct b; eexists _, _; (split; [reflexivity|]); repeat split.
    + destruct b; cbn; lia.
    + intros [|f] rest Hf _; [cbn in Hf; lia|]. destruct b; reflexivity.
  - unfold reads_back. change (text_of (Num n)) with (print_Z n).
    destruct (print_Z_head n) as (c & r & E & Hc).
    split; [|split].
    + rewrite E. by apply digit_or_minus_opens.
    + rewrite E. cbn. lia.
    + intros [|f] rest Hf Hr; [cbn in Hf; lia|].
      pose proof (parse_number_print_Z n rest Hr) as Hp.
      rewrite E in *. cbn [String.append] in *.
      rewrite parse_value_number by exact Hc. exact Hp.
  - unfold reads_back. change (text_of (Str s)) with (quote s).
    split; [|split].
    + unfold quote. eexists _, _. split; [reflexivity|]. repeat split.
    + unfold quote. cbn. lia.
    + intros [|f] rest Hf _; [cbn in Hf; lia|].
      destruct (parse_chars_quote s rest) as (body & -> & Hb).
      cbn [parse_value skip_ws].
      change (is_ws dquote) with false. cbn iota.
      change (Ascii.eqb dquote "n") with false.
      change (Ascii.eqb dquote "t") with false.
      change (Ascii.eqb dquote "f") with false.
      change (Ascii.eqb dquote dquote) with true. cbn iota.
      rewrite Hb. reflexivity.
  - apply serializable_Arr in Hv.
    assert (Hall : Forall reads_back l).
    { apply Forall_forall. intros x Hx.
      rewrite Forall_forall in IH, Hv. apply IH; [exact Hx|]. apply Hv, Hx. }
    clear IH Hv. unfold reads_back. rewrite text_of_Arr.
    assert (Hlen : forall x, In x l ->
              height x <= String.length (Js.join "," (map text_of l))).
    { apply join_height_elems. eapply Forall_impl; [exact Hall|].
      intros x (? & ? & _). auto. }
    split; [|split].
    + eexists _, _. split; [reflexivity|]. repeat split.
    + cbn [String.append String.length]. rewrite length_append.
      etrans; [apply (height_Arr_bound l _ Hlen)|]. lia.
    + intros [|f] rest Hf Hr; [cbn in Hf; lia|].
      cbn [String.append]. rewrite append_assoc. cbn [String.append].
      cbn [parse_value skip_ws].
      change (is_ws "[") with false. cbn iota.
      change (Ascii.eqb "[" "n") with false.
      change (Ascii.eqb "[" "t") with false.
      change (Ascii.eqb "[" "f") with false.
      change (Ascii.eqb "[" dquote) with false.
      change (Ascii.eqb "[" "[") with true. cbn iota.
      destruct l as [|x l]; [reflexivity|].
      assert (Hopen : opens (Js.join "," (map text_of (x :: l)))).
      { apply Forall_cons in Hall as ((Ho & _) & _).
        destruct Ho as (c & r & E & Hc).
        destruct l as [|y l]; cbn [map Js.join]; rewrite E; cbn [String.append];
          eexists _, _; (split; [reflexivity|]); exact Hc. }
      pose proof Hopen as (c & r & E & Hws & Hnb & _).
      rewrite (opens_skip_ws _ _ Hopen). rewrite E at 1. cbn [String.append].
      rewrite Hnb.
      rewrite parse_elems_join; [reflexivity|done| |].
      * apply Forall_forall. intros y Hy rest' Hr'.
        rewrite Forall_forall in Hall. destruct (Hall y Hy) as (_ & _ & Hp).
        apply Hp; [|exact Hr'].
        apply list_elem_of_In in Hy.
        pose proof (height_Arr (x :: l) y Hy). lia.
      * rewrite length_append.
        assert (length (x :: l) <= String.length (Js.join "," (map text_of (x :: l)))).
        { rewrite <- (length_map text_of). apply join_length.
          apply Forall_map. eapply Forall_impl; [exact Hall|].
          intros ? (? & _). auto. }
        lia.
  - apply serializable_Obj in Hv as (Hnd & Hv).
    assert (Hall : Forall (fun kv => reads_back (snd kv)) fs).
    { apply Forall_forall. intros x Hx.
      rewrite Forall_forall in IH, Hv. apply IH; [exact Hx|]. apply Hv, Hx. }
    clear IH. unfold reads_back. rewrite (text_of_Obj _ Hv).
    assert (Hlen : forall k x, In (k, x) fs ->
              height x <= String.length (Js.join "," (map member_text fs))).
    { apply join_height_members. eapply Forall_impl; [exact Hall|].
      intros x (? & ? & _). auto. }
    split; [|split].
    + eexists _, _. split; [reflexivity|]. repeat split.
    + cbn [String.append String.length]. rewrite length_append.
      etrans; [apply (height_Obj_bound fs _ Hlen)|]. lia.
    + intros [|f] rest Hf Hr; [cbn in Hf; lia|].
      cbn [String.append]. rewrite append_assoc. cbn [String.append].
      cbn [parse_value skip_ws].
      change (is_ws "{") with false. cbn iota.
      change (Ascii.eqb "{" "n") with false.
      change (Ascii.eqb "{" "t") with false.
      change (Ascii.eqb "{" "f") with false.
      change (Ascii.eqb "{" dquote) with false.
      change (Ascii.eqb "{" "[") with false.
      change (Ascii.eqb "{" "{") with true. cbn iota.
      destruct fs as [|kv fs]; [reflexivity|].
      assert (Hopen : opens (Js.join "," (map member_text (kv :: fs)))).
      { destruct (member_text_opens kv) as (c & r & E & Hc).
        destruct fs as [|y l]; cbn [map Js.join]; rewrite E; cbn [String.append];
          eexists _, _; (split; [reflexivity|]); exact Hc. }
      pose proof Hopen as (c & r & E & Hws & _ & Hnb).
      rewrite (opens_skip_ws _ _ Hopen). rewrite E at 1. cbn [String.append].
      rewrite Hnb.
      rewrite parse_members_join; [by rewrite define_all_distinct|done| |].
      * apply Forall_forall. intros [k y] Hy rest' Hr'.
        rewrite Forall_forall in Hall. destruct (Hall (k, y) Hy) as (_ & _ & Hp).
        apply Hp; [|exact Hr'].
        apply list_elem_of_In in Hy.
        pose proof (height_Obj (kv :: fs) k y Hy). cbn [snd]. lia.
      * rewrite length_append.
        assert (length (kv :: fs)
                <= String.length (Js.join "," (map member_text (kv :: fs)))).
        { rewrite <- (length_map member_text). apply join_length.
          apply Forall_map, Forall_forall. intros ? _. apply member_text_opens. }
        lia.
Qed.

(** [JSON.parse(JSON.stringify(v))] gives [v] back. *)
Theorem JSON_parse_stringify v :
  serializable v ->
  exists text, JSON_stringify v = Some text /\ text <> "" /\ JSON_parse text = Some v.
Proof.
  intros Hv. exists (text_of v).
  destruct (serializable_reads_back v Hv) as (Ho & Hh & Hp).
  split; [by apply stringify_serializable|]. split.
  - destruct Ho as (c & r & -> & _). discriminate.
  - unfold JSON_parse.
    specialize (Hp (S (String.length (text_of v))) "" ltac:(lia) I).
    assert (text_of v ++ "" = text_of v) as E.
    { generalize (text_of v). intros t. induction t as [|c t IH]; cbn; [reflexivity|].
      by rewrite IH. }
    rewrite E in Hp. rewrite Hp. reflexivity.
Qed.

End Facts.
End RoundTrip.

(* ===================================================================== *)
(** * The parser's fuel *)
(* ===================================================================== *)
Module FuelFacts.
Import Props.
Section Facts.
Local Arguments String.append !_ _ / : simpl nomatch.

Lemma skip_ws_length s : String.length (skip_ws s) <= String.length s.
Proof.
  induction s as [|c s IH]; cbn; [lia|]. destruct (is_ws c); cbn; lia.
Qed.

Lemma skip_ws_cons s d r :
  skip_ws s = String d r -> String.length r < String.length s.
Proof.
  intros H. pose proof (skip_ws_length s) as Hl. rewrite H in Hl. cbn in Hl. lia.
Qed.

Lemma push_length c p t rest :
  push c p = Some (t, rest) -> exists t', p = Some (t', rest).
Proof. destruct p as [[t' r']|]; cbn; [|discriminate]. intros [= _ <-]. eauto. Qed.

Lemma parse_chars_shrinking_upto n s t rest :
  String.length s <= n ->
  parse_chars s = Some (t, rest) -> String.length rest < String.length s.
Proof.
  revert s t rest. induction n as [|n IH]; intros s t rest Hle.
  { destruct s; [discriminate|cbn in Hle; lia]. }
  destruct s as [|c r]; cbn [parse_chars]; [discriminate|]. cbn in Hle.
  destruct (Ascii.eqb c dquote); [intros [= _ <-]; cbn; lia|].
  destruct (Ascii.eqb c backslash).
  - destruct r as [|e r1]; [discriminate|].
    destruct (Ascii.eqb e "u").
    + destruct r1 as [|h1 [|h2 [|h3 [|h4 r2]]]]; try discriminate.
      destruct (hex4 h1 h2 h3 h4) as [m|]; [|discriminate].
      destruct (m <? 256)%N; [|discriminate].
      intros (t' & H)%push_length. apply IH in H; cbn in *; lia.
    + destruct (unescape e); [|discriminate].
      intros (t' & H)%push_length. apply IH in H; cbn in *; lia.
  - destruct (N_of_ascii c <? 32)%N; [discriminate|].
    intros (t' & H)%push_length. apply IH in H; cbn in *; lia.
Qed.

Lemma parse_chars_shrinking : shrinking parse_chars.
Proof. intros s t rest. by apply (parse_chars_shrinking_upto (String.length s)). Qed.

Lemma read_digits_length acc s :
  String.length (snd (read_digits acc s)) <= String.length s.
Proof.
  revert acc. induction s as [|c s IH]; intros acc; cbn; [lia|].
  destruct (is_digit c); cbn; [|lia]. specialize (IH (acc * 10 + (N_of_ascii c - 48))%N). lia.
Qed.

Lemma parse_nat_shrinking : shrinking parse_nat.
Proof.
  intros s n rest. destruct s as [|c r]; cbn [parse_nat]; [discriminate|].
  destruct (Ascii.eqb c "0"); [intros [= _ <-]; cbn; lia|].
  destruct (is_digit c) eqn:E; [|discriminate].
  intros [= H]. cbn [read_digits] in H. rewrite E in H.
  pose proof (read_digits_length (0 * 10 + (N_of_ascii c - 48))%N r) as Hl.
  rewrite H in Hl. cbn in *. lia.
Qed.

Lemma parse_number_shrinking : shrinking parse_number.
Proof.
  intros s v rest. destruct s as [|c r]; cbn [parse_number]; [discriminate|].
  destruct (Ascii.eqb c "-").
  - destruct (parse_nat r) as [[n rest']|] eqn:E; [|discriminate].
    destruct (integer_end rest'); [|discriminate]. intros [= _ <-].
    apply parse_nat_shrinking in E. cbn. lia.
  - destruct (parse_nat (String c r)) as [[n rest']|] eqn:E; [|discriminate].
    destruct (integer_end rest'); [|discriminate]. intros [= _ <-].
    apply parse_nat_shrinking in E. exact E.
Qed.

Lemma expect_length word s rest :
  expect word s = Some rest -> String.length rest <= String.length s.
Proof.
  revert s. induction word as [|w word IH]; intros s; cbn.
  - intros [= <-]. lia.
  - destruct s as [|c r]; [discriminate|].
    destruct (Ascii.eqb w c); [|discriminate].
    intros H%IH. cbn. lia.
Qed.

Lemma literal_length word v s v' rest :
  literal word v s = Some (v', rest) -> String.length rest <= String.length s.
Proof.
  unfold literal. destruct (expect word s) eqn:E; [|discriminate].
  intros [= _ <-]. by apply expect_length in E.
Qed.

Lemma parse_elems_shrinking pv n : shrinking pv -> shrinking (parse_elems pv n).
Proof.
  intros Hpv. induction n as [|n IH]; intros s vs rest; cbn; [discriminate|].
  destruct (pv s) as [[v s1]|] eqn:E; [|discriminate]. apply Hpv in E.
  destruct (skip_ws s1) as [|d s2] eqn:Es; [discriminate|].
  apply skip_ws_cons in Es.
  destruct (Ascii.eqb d ",").
  - destruct (parse_elems pv n s2) as [[vs' s3]|] eqn:E2; [|discriminate].
    intros [= _ <-]. apply IH in E2. lia.
  - destruct (Ascii.eqb d "]"); [|discriminate]. intros [= _ <-]. lia.
Qed.

Lemma parse_members_shrinking pv n : shrinking pv -> shrinking (parse_members pv n).
Proof.
  intros Hpv. induction n as [|n IH]; intros s ms rest; cbn; [discriminate|].
  destruct (skip_ws s) as [|q s0] eqn:E0; [discriminate|]. apply skip_ws_cons in E0.
  destruct (Ascii.eqb q dquote); [|discriminate].
  destruct (parse_chars s0) as [[k s1]|] eqn:E1; [|discriminate].
  apply parse_chars_shrinking in E1.
  destruct (skip_ws s1) as [|col s2] eqn:E2; [discriminate|]. apply skip_ws_cons in E2.
  destruct (Ascii.eqb col ":"); [|discriminate].
  destruct (pv s2) as [[v s3]|] eqn:E3; [|discriminate]. apply Hpv in E3.
  destruct (skip_ws s3) as [|d s4] eqn:E4; [discriminate|]. apply skip_ws_cons in E4.
  destruct (Ascii.eqb d ",").
  - destruct (parse_members pv n s4) as [[ms' s5]|] eqn:E5; [|discriminate].
    intros [= _ <-]. apply IH in E5. lia.
  - destruct (Ascii.eqb d "}"); [|discriminate]. intros [= _ <-]. lia.
Qed.

Lemma parse_value_shrinking fuel : shrinking (parse_value fuel).
Proof.
  induction fuel as [|f IH]; intros s v rest; cbn [parse_value]; [discriminate|].
  destruct (skip_ws s) as [|c r] eqn:E; [discriminate|]. apply skip_ws_cons in E.
  destruct (Ascii.eqb c "n"); [intros H%literal_length; lia|].
  destruct (Ascii.eqb c "t"); [intros H%literal_length; lia|].
  destruct (Ascii.eqb c "f"); [intros H%literal_length; lia|].
  destruct (Ascii.eqb c dquote).
  { destruct (parse_chars r) as [[t rest']|] eqn:E1; [|discriminate].
    intros [= _ <-]. apply parse_chars_shrinking in E1. lia. }
  destruct (Ascii.eqb c "[").
  { destruct (skip_ws r) as [|c1 r1] eqn:E1; [discriminate|]. apply skip_ws_cons in E1.
    destruct (Ascii.eqb c1 "]"); [intros [= _ <-]; lia|].
    destruct (parse_elems _ _ r) as [[vs rest']|] eqn:E2; [|discriminate].
    intros [= _ <-]. apply (parse_elems_shrinking _ _ IH) in E2. lia. }
  destruct (Ascii.eqb c "{").
  { destruct (skip_ws r) as [|c1 r1] eqn:E1; [discriminate|]. apply skip_ws_cons in E1.
    destruct (Ascii.eqb c1 "}"); [intros [= _ <-]; lia|].
    destruct (parse_members _ _ r) as [[ms rest']|] eqn:E2; [|discriminate].
    intros [= _ <-]. apply (parse_members_shrinking _ _ IH) in E2. lia. }
  intros H%parse_number_shrinking. cbn in H. lia.
Qed.

(** Two element readers that agree on the texts no longer than [s] give
    the same elements, whatever bounds at least the length of [s] the two
    loops are run with. *)
Lemma parse_elems_agree pv pv' n m s :
  shrinking pv ->
  (forall s', String.length s' <= String.length s -> pv s' = pv' s') ->
  String.length s <= n -> String.length s <= m ->
  parse_elems pv n s = parse_elems pv' m s.
Proof.
  intros Hpv. revert m s. induction n as [|n IH]; intros m s Hagree Hn Hm.
  - destruct s; [|cbn in Hn; lia].
    destruct m as [|m]; [reflexivity|]. cbn.
    rewrite <- Hagree by lia.
    destruct (pv "") as [[v s1]|] eqn:E; [|reflexivity].
    apply Hpv in E. cbn in E. lia.
  - destruct m as [|m].
    { destruct s; [|cbn in Hm; lia]. cbn.
      destruct (pv "") as [[v s1]|] eqn:E; [|reflexivity].
      apply Hpv in E. cbn in E. lia. }
    cbn. rewrite <- Hagree by lia.
    destruct (pv s) as [[v s1]|] eqn:E; [|reflexivity]. apply Hpv in E.
    destruct (skip_ws s1) as [|d s2] eqn:Es; [reflexivity|].
    apply skip_ws_cons in Es.
    destruct (Ascii.eqb d ","); [|reflexivity].
    rewrite (IH m s2); [reflexivity| |lia|lia].
    intros s' Hs'. apply Hagree. lia.
Qed.

Lemma parse_members_agree pv pv' n m s :
  shrinking pv ->
  (forall s', String.length s' <= String.length s -> pv s' = pv' s') ->
  String.length s <= n -> String.length s <= m ->
  parse_members pv n s = parse_members pv' m s.
Proof.
  intros Hpv. revert m s. induction n as [|n IH]; intros m s Hagree Hn Hm.
  - destruct s; [|cbn in Hn; lia].
    destruct m as [|m]; reflexivity.
  - destruct m as [|m].
    { destruct s; [|cbn in Hm; lia]. reflexivity. }
    cbn.
    destruct (skip_ws s) as [|q s0] eqn:E0; [reflexivity|]. apply skip_ws_cons in E0.
    destruct (Ascii.eqb q dquote); [|reflexivity].
    destruct (parse_chars s0) as [[k s1]|] eqn:E1; [|reflexivity].
    apply parse_chars_shrinking in E1.
    destruct (skip_ws s1) as [|col s2] eqn:E2; [reflexivity|]. apply skip_ws_cons in E2.
    destruct (Ascii.eqb col ":"); [|reflexivity].
    rewrite <- Hagree by lia.
    destruct (pv s2) as [[v s3]|] eqn:E3; [|reflexivity]. apply Hpv in E3.
    destruct (skip_ws s3) as [|d s4] eqn:E4; [reflexivity|]. apply skip_ws_cons in E4.
    destruct (Ascii.eqb d ","); [|reflexivity].
    rewrite (IH m s4); [reflexivity| |lia|lia].
    intros s' Hs'. apply Hagree. lia.
Qed.

(** More fuel than the text is long changes nothing. *)
Lemma parse_value_fuel f f' s :
  String.length s < f -> String.length s < f' ->
  parse_value f s = parse_value f' s.
Proof.
  revert f' s. induction f as [|f IH]; intros f' s Hf Hf'; [lia|].
  destruct f' as [|f']; [lia|]. cbn [parse_value].
  destruct (skip_ws s) as [|c r] eqn:E; [reflexivity|]. apply skip_ws_cons in E.
  assert (Hagree : forall s', String.length s' <= String.length r ->
                     parse_value f s' = parse_value f' s')
    by (intros s' Hs'; apply IH; lia).
  repeat (match goal with |- (if ?b then _ else _) = _ => destruct b; [reflexivity|] end).
  destruct (Ascii.eqb c "[").
  { destruct (skip_ws r) as [|c1 r1]; [reflexivity|].
    destruct (Ascii.eqb c1 "]"); [reflexivity|].
    rewrite (parse_elems_agree (parse_value f) (parse_value f') _
               (String.length r) r (parse_value_shrinking f) Hagree); [reflexivity|lia|lia]. }
  destruct (Ascii.eqb c "{"); [|reflexivity].
  destruct (skip_ws r) as [|c1 r1]; [reflexivity|].
  destruct (Ascii.eqb c1 "}"); [reflexivity|].
  rewrite (parse_members_agree (parse_value f) (parse_value f') _
             (String.length r) r (parse_value_shrinking f) Hagree); [reflexivity|lia|lia].
Qed.

(** [JSON_parse] is what the parser gives with any fuel beyond the length
    of the text: the bound it runs with never cuts a parse short. *)
Theorem JSON_parse_any_fuel s fuel :
  String.length s < fuel ->
  JSON_parse s
  = match parse_value fuel s with
    | Some (v, rest) =>
        match skip_ws rest with
        | EmptyString => Some v
        | String _ _ => None
        end
    | None => None
    end.
Proof.
  intros Hf. unfold JSON_parse.
  rewrite (parse_value_fuel (S (String.length s)) fuel s) by lia. reflexivity.
Qed.

End Facts.
End FuelFacts.

(** ** The parser and the grammar *)

Module GrammarFacts.
Import App Http Props.

Section Facts.
Local Arguments String.append !_ _ / : simpl nomatch.

Lemma read_digits_skip acc s : snd (read_digits acc s) = skip_digits s.
Proof.
  revert acc. induction s as [|c r IH]; intros acc; cbn; [reflexivity|].
  destruct (is_digit c); [apply IH|reflexivity].
Qed.

Lemma parse_nat_valid s n rest : parse_nat s = Some (n, rest) -> valid_int s = Some rest.
Proof.
  destruct s as [|c r]; [discriminate|]. cbn [parse_nat valid_int].
  destruct (Ascii.eqb c "0"); [by intros [= _ <-]|].
  destruct (is_digit c) eqn:E; [|discriminate].
  intros [= H]. f_equal. change (read_digits 0 (String c r) = (n, rest)) in H.
  pose proof (read_digits_skip 0 (String c r)) as Hs. rewrite H in Hs.
  cbn [snd skip_digits] in Hs. rewrite E in Hs. by rewrite Hs.
Qed.

Lemma integer_end_valid rest :
  integer_end rest = true -> valid_frac rest = Some rest /\ valid_exp rest = Some rest.
Proof.
  destruct rest as [|c r]; [done|]. cbn.
  destruct (Ascii.eqb c "."), (Ascii.eqb c "e"), (Ascii.eqb c "E"); cbn; done.
Qed.

Lemma parse_number_valid s v rest :
  parse_number s = Some (v, rest) -> valid_number s = Some rest.
Proof.
  destruct s as [|c r]; [discriminate|]. unfold parse_number, valid_number.
  destruct (if Ascii.eqb c "-" then parse_nat r else parse_nat (String c r))
    as [[n rest']|] eqn:E; [|discriminate].
  destruct (integer_end rest') eqn:Hend; [|discriminate]. intros [= _ <-].
  assert (valid_int (if Ascii.eqb c "-" then r else String c r) = Some rest') as ->.
  { destruct (Ascii.eqb c "-"); by eapply parse_nat_valid. }
  destruct (integer_end_valid _ Hend) as (-> & ->). reflexivity.
Qed.

Lemma push_Some c p t rest :
  push c p = Some (t, rest) -> exists t', p = Some (t', rest).
Proof. destruct p as [[t' r']|]; [|discriminate]. intros [= _ <-]. eauto. Qed.

Lemma parse_chars_valid_upto n :
  forall s t rest, String.length s <= n ->
    parse_chars s = Some (t, rest) -> valid_chars s = Some rest.
Proof.
  induction n as [|n IH]; intros s t rest Hn.
  - destruct s; [discriminate|cbn in Hn; lia].
  - destruct s as [|c r]; [discriminate|]. cbn [parse_chars valid_chars].
    cbn in Hn.
    destruct (Ascii.eqb c dquote); [by intros [= _ <-]|].
    destruct (Ascii.eqb c backslash).
    + destruct r as [|e r1]; [discriminate|].
      destruct (Ascii.eqb e "u").
      * destruct r1 as [|h1 [|h2 [|h3 [|h4 r2]]]]; try discriminate.
        destruct (hex4 h1 h2 h3 h4) as [k|]; [|discriminate].
        destruct (k <? 256)%N; [|discriminate].
        intros (t' & H)%push_Some. eapply IH; [|exact H]. cbn in Hn. lia.
      * destruct (unescape e); [|discriminate].
        intros (t' & H)%push_Some. eapply IH; [|exact H]. cbn in Hn. lia.
    + destruct (N_of_ascii c <? 32)%N; [discriminate|].
      intros (t' & H)%push_Some. eapply IH; [|exact H]. lia.
Qed.

Lemma parse_chars_valid s t rest :
  parse_chars s = Some (t, rest) -> valid_chars s = Some rest.
Proof. by apply (parse_chars_valid_upto (String.length s)). Qed.

Lemma literal_valid word v s x rest :
  literal word v s = Some (x, rest) -> expect word s = Some rest.
Proof. unfold literal. destruct (expect word s); [by intros [= _ <-]|discriminate]. Qed.

Lemma parse_elems_valid pv vv : follows pv vv ->
  forall n s vs rest, parse_elems pv n s = Some (vs, rest) ->
    valid_elems vv n s = Some rest.
Proof.
  intros Hf. induction n as [|n IH]; intros s vs rest; [discriminate|].
  cbn [parse_elems valid_elems].
  destruct (pv s) as [[v s1]|] eqn:E; [|discriminate].
  rewrite (Hf _ _ _ E).
  destruct (skip_ws s1) as [|d s2]; [discriminate|].
  destruct (Ascii.eqb d ",").
  - destruct (parse_elems pv n s2) as [[vs' s3]|] eqn:E2; [|discriminate].
    intros [= _ <-]. by eapply IH.
  - destruct (Ascii.eqb d "]"); [by intros [= _ <-]|discriminate].
Qed.

Lemma parse_members_valid pv vv : follows pv vv ->
  forall n s ms rest, parse_members pv n s = Some (ms, rest) ->
    valid_members vv n s = Some rest.
Proof.
  intros Hf. induction n as [|n IH]; intros s ms rest; [discriminate|].
  cbn [parse_members valid_members].
  destruct (skip_ws s) as [|q s0]; [discriminate|].
  destruct (Ascii.eqb q dquote); [|discriminate].
  destruct (parse_chars s0) as [[k s1]|] eqn:Ek; [|discriminate].
  rewrite (parse_chars_valid _ _ _ Ek).
  destruct (skip_ws s1) as [|col s2]; [discriminate|].
  destruct (Ascii.eqb col ":"); [|discriminate].
  destruct (pv s2) as [[v s3]|] eqn:E; [|discriminate].
  rewrite (Hf _ _ _ E).
  destruct (skip_ws s3) as [|d s4]; [discriminate|].
  destruct (Ascii.eqb d ",").
  - destruct (parse_members pv n s4) as [[ms' s5]|] eqn:E2; [|discriminate].
    intros [= _ <-]. by eapply IH.
  - destruct (Ascii.eqb d "}"); [by intros [= _ <-]|discriminate].
Qed.

Lemma parse_value_valid fuel : follows (parse_value fuel) (valid_value fuel).
Proof.
  induction fuel as [|f IH]; intros s v rest; [discriminate|].
  cbn [parse_value valid_value].
  destruct (skip_ws s) as [|c r]; [discriminate|].
  destruct (Ascii.eqb c "n"); [apply literal_valid|].
  destruct (Ascii.eqb c "t"); [apply literal_valid|].
  destruct (Ascii.eqb c "f"); [apply literal_valid|].
  destruct (Ascii.eqb c dquote).
  { destruct (parse_chars r) as [[t rest']|] eqn:E; [|discriminate].
    intros [= _ <-]. by eapply parse_chars_valid. }
  destruct (Ascii.eqb c "[").
  { destruct (skip_ws r) as [|c1 r1]; [discriminate|].
    destruct (Ascii.eqb c1 "]"); [by intros [= _ <-]|].
    destruct (parse_elems _ _ r) as [[vs rest']|] eqn:E; [|discriminate].
    intros [= _ <-]. by eapply parse_elems_valid. }
  destruct (Ascii.eqb c "{").
  { destruct (skip_ws r) as [|c1 r1]; [discriminate|].
    destruct (Ascii.eqb c1 "}"); [by intros [= _ <-]|].
    destruct (parse_members _ _ r) as [[ms rest']|] eqn:E; [|discriminate].
    intros [= _ <-]. by eapply parse_members_valid. }
  apply parse_number_valid.
Qed.

(** What [JSON_parse] reads is JSON. *)
Lemma JSON_parse_valid s v : JSON_parse s = Some v -> JSON_valid s = true.
Proof.
  unfold JSON_parse, JSON_valid.
  destruct (parse_value _ s) as [[x rest]|] eqn:E; [|discriminate].
  rewrite (parse_value_valid _ _ _ _ E).
  destruct (skip_ws rest); [reflexivity|discriminate].
Qed.

(** What is no JSON, [JSON_parse] refuses. *)
Lemma JSON_invalid_refused s : JSON_valid s = false -> JSON_parse s = None.
Proof.
  intros H. destruct (JSON_parse s) as [v|] eqn:E; [|reflexivity].
  apply JSON_parse_valid in E. congruence.
Qed.

(** On a modelled text the two outcomes of [JSON_parse] are the two
    outcomes of [JSON.parse]. *)
Lemma modelled_outcome text :
  modelled text = true ->
  (exists v, JSON_parse text = Some v /\ precise v = true /\ JSON_valid text = true)
  \/ (JSON_parse text = None /\ JSON_valid text = false).
Proof.
  unfold modelled. destruct (JSON_parse text) as [v|] eqn:E.
  - intros Hx. left. exists v. split; [reflexivity|]. split; [exact Hx|].
    by eapply JSON_parse_valid.
  - intros H%negb_true_iff. by right.
Qed.

(** When a readable 2xx answer gives no JSON to the model, it gives none
    to the code: the body cannot be read, or it is no JSON. *)
Lemma readable_refused res :
  readable (Resolved res) = true -> Http.json false res = None ->
  content res = None
  \/ exists text, content res = Some text /\ JSON_valid text = false.
Proof.
  unfold readable, Http.json, Http.text.
  destruct (content res) as [text|]; [|by left].
  intros Hm Hp. right. exists text. split; [reflexivity|].
  destruct (modelled_outcome text Hm) as [(v & Hv & _)|(_ & Hn)]; [congruence|exact Hn].
Qed.

End Facts.
End GrammarFacts.

(* ===================================================================== *)
(** * Facts about the storage and the landing effect *)
(* ===================================================================== *)
Module StorageFacts.
Import Storage.

Lemma setItem_Ok k v st st' :
  setItem k v st = Ok st' ->
  items st' = <[k := v]> (items st) /\ enabled st = true /\ enabled st' = true
  /\ quota st' = quota st.
Proof.
  unfold setItem. destruct (enabled st) eqn:He; [|discriminate].
  destruct (_ <=? _)%N; [|discriminate].
  intros [= <-]. cbn. auto.
Qed.

Lemma removeItem_Ok k st st' :
  removeItem k st = Ok st' ->
  items st' = delete k (items st) /\ enabled st' = enabled st /\ quota st' = quota st.
Proof.
  unfold removeItem. destruct (enabled st); [|discriminate].
  intros [= <-]. cbn. auto.
Qed.

Lemma saveSession_other key value st k :
  k <> key -> items (saveSession key value st) !! k = items st !! k.
Proof.
  intros Hk. unfold saveSession.
  destruct (setItem key _ st) as [st'|] eqn:Hs; [|reflexivity].
  apply setItem_Ok in Hs as (-> & _). by rewrite lookup_insert_ne.
Qed.

Lemma saveSession_enabled key value st :
  enabled (saveSession key value st) = enabled st.
Proof.
  unfold saveSession.
  destruct (setItem key _ st) as [st'|] eqn:Hs; [|reflexivity].
  apply setItem_Ok in Hs as (_ & -> & -> & _). reflexivity.
Qed.

Lemma loadSession_setItem_other k v st st' k' fb :
  k' <> k -> setItem k v st = Ok st' -> loadSession k' fb st' = loadSession k' fb st.
Proof.
  intros Hk (Hitems & He & He' & _)%setItem_Ok.
  unfold loadSession, getItem. rewrite He, He', Hitems, lookup_insert_ne by done.
  reflexivity.
Qed.

End StorageFacts.

Module LandingFacts.
Import App Http Storage Props StorageFacts.

Section Facts.
Variable C : oidc_config.

Lemma usedKey_not_tokens state code : "tokens" <> usedKey state code.
Proof. discriminate. Qed.

Lemma usedKey_not_verifier s state code : "pkce_verifier:" ++ s <> usedKey state code.
Proof. unfold usedKey. cbn. intros [=]. Qed.

Lemma usedKey_not_client s state code : "pkce_client:" ++ s <> usedKey state code.
Proof. unfold usedKey. cbn. intros [=]. Qed.

Lemma usedKey_not_legacy state code : "pkce_verifier" <> usedKey state code.
Proof. unfold usedKey. cbn. intros [=]. Qed.

Lemma strict_equal_Str s v : strict_equal (Str s) v = true <-> v = Str s.
Proof.
  destruct v; cbn; try (split; [discriminate|intros [=]]).
  rewrite String.eqb_eq. split; [intros ->; reflexivity | intros [= ->]; reflexivity].
Qed.

Lemma forget_flow_other s st k :
  k <> "pkce_verifier:" ++ s -> k <> "pkce_client:" ++ s ->
  items (forget_flow s st) !! k = items st !! k.
Proof.
  intros H1 H2. unfold forget_flow.
  destruct (removeItem ("pkce_verifier:" ++ s) st) as [st1|] eqn:E1; [|reflexivity].
  apply removeItem_Ok in E1 as (E1 & _).
  destruct (removeItem ("pkce_client:" ++ s) st1) as [st2|] eqn:E2.
  - apply removeItem_Ok in E2 as (E2 & _).
    rewrite E2, lookup_delete_ne, E1, lookup_delete_ne; auto.
  - rewrite E1, lookup_delete_ne; auto.
Qed.

Lemma exchange_finish_network x reply w :
  network (exchange_finish x reply w) = network w.
Proof.
  unfold exchange_finish.
  repeat case_match; reflexivity.
Qed.

Lemma exchange_finish_marker x reply w state code :
  items (session (exchange_finish x reply w)) !! usedKey state code
  = items (session w) !! usedKey state code.
Proof.
  unfold exchange_finish.
  repeat case_match; try reflexivity; cbn.
  - rewrite forget_flow_other, saveSession_other;
      auto using usedKey_not_tokens, usedKey_not_verifier, usedKey_not_client.
  - rewrite saveSession_other; auto using usedKey_not_tokens.
Qed.

Lemma landing_resume_network k reply w :
  network (landing_resume k reply w) = network w.
Proof. destruct k; cbn; [apply exchange_finish_network | reflexivity]. Qed.

Lemma landing_resume_marked k reply w state code :
  marked state code w -> marked state code (landing_resume k reply w).
Proof.
  unfold marked. destruct k; cbn; [|auto].
  rewrite exchange_finish_marker. auto.
Qed.

Lemma token_request_is_exchange client code verifier :
  is_token_exchange C (token_request C client code verifier) = true.
Proof.
  unfold is_token_exchange, token_request. cbn.
  rewrite String.eqb_refl. reflexivity.
Qed.

Lemma token_request_code client code verifier :
  form_param "code" (token_request C client code verifier) = Some code.
Proof. reflexivity. Qed.

Lemma token_exchanges_send w r :
  token_exchanges C (send r w)
  = token_exchanges C w + (if is_token_exchange C r then 1 else 0).
Proof.
  unfold token_exchanges, send. cbn.
  rewrite filter_app, length_app. cbn.
  destruct (is_token_exchange C r); reflexivity.
Qed.


Lemma landing_effect_outcome w :
  landing_outcome C w (fst (landing_effect C w)) (snd (landing_effect C w)).
Proof.
  unfold landing_effect.
  destruct (params_get "code" (search w)) as [code|] eqn:Hc;
    [|by apply Skipped].
  destruct (params_get "state" (search w)) as [state|] eqn:Hs;
    [|by apply Skipped].
  destruct (_ || _ || _) eqn:Hg; [by apply Skipped|].
  destruct (getItem (usedKey state code) (session w)) as [used|e] eqn:Hget;
    [|by eapply Failed].
  destruct (string_truthy used || exchangingRef (ui w)) eqn:Hu; [by apply Skipped|].
  cbn [on_ui session ui].
  destruct (setItem (usedKey state code) "1" (session w)) as [st|e] eqn:Hset;
    [|by eapply Failed].
  apply setItem_Ok in Hset as (Hitems & _).
  assert (Hm : forall w0, session w0 = st -> marked state code w0).
  { intros w0 Hw. exists "1". rewrite Hw, Hitems, lookup_insert_eq.
    split; [done|discriminate]. }
  unfold exchange_begin. cbn [on_session on_ui session ui].
  destruct (negb (truthy _)).
  - eapply Unsent; eauto.
  - eapply Sent; eauto.
Qed.

Lemma landing_effect_marked w state code :
  params_get "code" (search w) = Some code ->
  params_get "state" (search w) = Some state ->
  marked state code w ->
  landing_effect C w = (w, Ok None).
Proof.
  intros Hc Hs (v & Hv & Hne). unfold landing_effect. rewrite Hc, Hs.
  destruct (_ || _ || _) eqn:Hg; [reflexivity|].
  unfold getItem. destruct (enabled (session w)) eqn:He.
  - rewrite Hv. cbn. destruct v; [done|]. reflexivity.
  - apply orb_false_elim in Hg as (_ & Hg).
    unfold loadSession, getItem in Hg. rewrite He in Hg. discriminate.
Qed.


Lemma step_invoke_now q p :
  now (step C q p Invoke) = fst (landing_effect C (set_search q (now p))).
Proof.
  unfold step. destruct (landing_effect C _) as [w [[k|]|e]]; reflexivity.
Qed.

Lemma spent_step q n p ev : spent C q n (now p) -> spent C q n (now (step C q p ev)).
Proof.
  intros (Hn & state & code & Hc & Hs & Hm).
  destruct ev as [|reply|].
  - rewrite step_invoke_now, (landing_effect_marked _ state code); try done.
    split; [exact Hn|]. exists state, code. auto.
  - cbn. destruct (pending p) as [|k ks]; cbn.
    + split; [exact Hn|]. exists state, code. auto.
    + split.
      * unfold token_exchanges. rewrite landing_resume_network. exact Hn.
      * exists state, code. auto using landing_resume_marked.
  - cbn. split; [exact Hn|]. exists state, code. auto.
Qed.

Lemma once_step q n p ev : once C q n (now p) -> once C q n (now (step C q p ev)).
Proof.
  intros [Hn|Hsp]; [|right; by apply (spent_step q n p ev)].
  destruct ev as [|reply|].
  - rewrite step_invoke_now.
    pose proof (landing_effect_outcome (set_search q (now p))) as Ho.
    destruct (landing_effect C (set_search q (now p))) as [w' r]. cbn in *.
    destruct Ho as [-> _|e _ Hnet _|state code _ _ _ Hnet _
                    |state code x client verifier Hc Hs _ Hnet Hm].
    + left. exact Hn.
    + left. unfold token_exchanges in *. by rewrite Hnet.
    + left. unfold token_exchanges in *. by rewrite Hnet.
    + right. split.
      * rewrite <- Hn.
        change (token_exchanges C w'
                = token_exchanges C (set_search q (now p)) + 1).
        pose proof (token_exchanges_send (set_search q (now p))
                      (token_request C client code verifier)) as Hsend.
        rewrite token_request_is_exchange in Hsend. rewrite <- Hsend.
        unfold token_exchanges. rewrite Hnet. reflexivity.
      * exists state, code. auto.
  - cbn. destruct (pending p) as [|k ks]; cbn; [by left|].
    left. unfold token_exchanges in *. by rewrite landing_resume_network.
  - left. exact Hn.
Qed.

Lemma once_run q n evs p : once C q n (now p) -> once C q n (now (run C q evs p)).
Proof.
  revert p. induction evs as [|ev evs IH]; intros p Hp; [exact Hp|].
  cbn. apply IH, once_step, Hp.
Qed.

Lemma spent_run q n evs p : spent C q n (now p) -> spent C q n (now (run C q evs p)).
Proof.
  revert p. induction evs as [|ev evs IH]; intros p Hp; [exact Hp|].
  cbn. apply IH, spent_step, Hp.
Qed.

(** A landing that passes every guard of the effect. *)
Lemma landing_effect_ready q state code w st :
  params_get "code" q = Some code ->
  params_get "state" q = Some state ->
  code <> "" -> state <> "" ->
  loadSession "pkce_state" Null (session w) = Str state ->
  string_truthy (items (session w) !! usedKey state code) = false ->
  exchangingRef (ui w) = false ->
  setItem (usedKey state code) "1" (session w) = Ok st ->
  truthy (loadSession ("pkce_verifier:" ++ state) Null st
          ||| loadSession "pkce_verifier" Null st) = true ->
  spent C q (token_exchanges C w) (fst (landing_effect C (set_search q w))).
Proof.
  intros Hc Hs Hce Hse Hstored Hfree Href Hset Hver.
  unfold landing_effect. cbn [search set_search session ui].
  rewrite Hc, Hs, Hstored.
  apply String.eqb_neq in Hce, Hse. rewrite Hce, Hse. cbn [orb strict_equal].
  rewrite String.eqb_refl. cbn [negb].
  pose proof Hset as (Hitems & Hen & _)%setItem_Ok.
  unfold getItem. rewrite Hen, Hfree, Href. cbn [orb on_ui session ui].
  change (session (set_search q w)) with (session w).
  rewrite Hset. unfold exchange_begin. cbn [on_session session].
  apply String.eqb_neq in Hse. destruct (String.eqb state "") eqn:E;
    [by apply String.eqb_eq in E|].
  rewrite Hver. cbn [negb fst]. split.
  - rewrite token_exchanges_send, token_request_is_exchange.
    unfold token_exchanges. cbn. reflexivity.
  - exists state, code. repeat split; try done.
    exists "1". cbn. rewrite Hitems, lookup_insert_eq. split; [done|discriminate].
Qed.

End Facts.
End LandingFacts.

(* ===================================================================== *)
(** * Facts about the step-up flow *)
(* ===================================================================== *)
Module JsFacts.
Import Props NumberFacts.

Lemma or_else_Null a b : a ||| b = Null -> truthy a = false /\ b = Null.
Proof.
  unfold or_else. destruct (truthy a) eqn:E; [|auto].
  intros ->. discriminate.
Qed.

Lemma or_else_falsy a b : truthy a = false -> a ||| b = b.
Proof. unfold or_else. intros ->. reflexivity. Qed.

Lemma truthy_or_else a b : truthy (a ||| b) = truthy a || truthy b.
Proof. unfold or_else. destruct (truthy a) eqn:E; cbn; auto. Qed.

Lemma lookup_set_field k k' v fs :
  lookup_field k (set_field k' v fs)
  = if String.eqb k' k then v else lookup_field k fs.
Proof.
  induction fs as [|[a x] r IH]; cbn.
  - reflexivity.
  - destruct (String.eqb a k') eqn:E1; cbn.
    + apply String.eqb_eq in E1. subst a. destruct (String.eqb k' k); reflexivity.
    + destruct (String.eqb a k) eqn:E2; [|exact IH].
      apply String.eqb_eq in E2. subst a. rewrite String.eqb_sym, E1. reflexivity.
Qed.

Lemma print_N_not_named i k : named k -> String.eqb (print_N i) k = false.
Proof.
  intros Hk. destruct (print_N_head i) as (d & r & Hd & ->).
  destruct k as [|c k']; [reflexivity|]. cbn.
  destruct (Ascii.eqb (digit_char d) c) eqn:E; [|reflexivity].
  apply Ascii.eqb_eq in E. subst c. cbn in Hk. unfold digit_char in Hk.
  rewrite N_ascii_embedding in Hk by lia. lia.
Qed.

Lemma lookup_indexed k i l : named k -> lookup_field k (App.indexed i l) = Undef.
Proof.
  intros Hk. revert i.
  induction l as [|x r IH]; intros i; cbn [App.indexed lookup_field]; [reflexivity|].
  rewrite print_N_not_named by exact Hk. apply IH.
Qed.

Lemma lookup_indexed_units k i s : named k -> lookup_field k (App.indexed_units i s) = Undef.
Proof.
  intros Hk. revert i.
  induction s as [|c r IH]; intros i; cbn [App.indexed_units lookup_field];
    [reflexivity|].
  rewrite print_N_not_named by exact Hk. apply IH.
Qed.

Lemma lookup_spread k v : named k -> lookup_field k (App.spread v) = oprop k v.
Proof.
  intros Hk. destruct v; cbn; try reflexivity.
  - by apply lookup_indexed_units.
  - by apply lookup_indexed.
Qed.

End JsFacts.

Module StepUpFacts.
Import App Http Props JsFacts.

Section Facts.
Variable C : oidc_config.
Variable API_CONFIG : Api.api_config.

Lemma emailOtpFlow_ok clientId snapshot r t res w :
  ok r = true -> content r = Some t -> JSON_parse t = Some res ->
  exists req, emailOtpFlow C clientId snapshot (Resolved r) w = (send req w, Ok res).
Proof.
  intros Hok Hc Hp. unfold emailOtpFlow, bind, fetch. cbn.
  rewrite Hok, Hc, Hp. cbn. eauto.
Qed.

Lemma flowId_lookup_normalized res a h :
  flowId_probe res = Null ->
  flowId_lookup (normalize res Null a h) = Null.
Proof.
  unfold flowId_probe. intros (H & _)%or_else_Null.
  rewrite !truthy_or_else in H.
  repeat (apply orb_false_elim in H as (H & ?)).
  unfold flowId_lookup, normalize. cbn [prop].
  rewrite !lookup_set_field. cbn.
  rewrite !lookup_spread by (cbn; lia).
  repeat match goal with
         | H : truthy ?x = false |- context [?x ||| ?y] =>
             rewrite (or_else_falsy x y H)
         end.
  reflexivity.
Qed.

End Facts.
End StepUpFacts.

Module SubmitFacts.
Import App Http Props.
Section Facts.
Variable C : oidc_config.
Variable API_CONFIG : Api.api_config.

Lemma stepup_request_is_exchange authCode :
  is_token_exchange C (stepup_token_request C authCode) = true.
Proof.
  unfold is_token_exchange, stepup_token_request. cbn.
  rewrite String.eqb_refl. reflexivity.
Qed.

Lemma authn_request_not_exchange R f a otp :
  is_token_exchange C (authn_request R f a otp) = false.
Proof. unfold is_token_exchange. cbn. apply andb_false_r. Qed.

Lemma buy_request_not_exchange sv qt b :
  is_token_exchange C (buy_request API_CONFIG sv qt b) = false.
Proof. unfold is_token_exchange. cbn. apply andb_false_r. Qed.

(** The purchase sends at most the buy request and leaves the token set
    alone. *)
Lemma purchase_effect c reply w :
  let w' := fst (purchase API_CONFIG c reply w) in
  (network w' = network w
   \/ exists b, bearer_of (tokens c) = Ok b
               /\ network w' = (network w ++ [buy_request API_CONFIG (selectedVehicle c) (quote c) b])%list)
  /\ tokens (ui w') = tokens (ui w)
  /\ session w' = session w.
Proof.
  cbn zeta. unfold purchase.
  destruct (bearer_of (tokens c)) as [b|e]; [|cbn; auto].
  destruct (negb (truthy b)); [cbn; auto|].
  destruct (_ || _); [cbn; auto|].
  unfold bind, fetch, throw, act.
  destruct reply as [e|res]; cbn; [eauto 6|].
  destruct (negb (ok res)); cbn; [eauto 6|].
  destruct (negb (truthy _)); cbn; [eauto 6|].
  destruct (updated_vehicles _ _ _); cbn; eauto 6.
Qed.

Lemma stepup_exchange_effect authCode reply w :
  let w' := fst (stepup_exchange C authCode reply w) in
  network w' = (network w ++ [stepup_token_request C authCode])%list.
Proof.
  cbn zeta. unfold stepup_exchange, try_catch, bind, fetch, throw, act.
  destruct reply as [e|res]; cbn; [reflexivity|].
  destruct (negb (ok res)); cbn; [reflexivity|].
  destruct (negb (truthy _)); cbn; reflexivity.
Qed.

(** The requests [submitOtp] adds once the OTP submission has been
    answered with a 2xx response: the submission itself, the token
    request when the flow is complete and carries a code, and at most the
    purchase. *)
Lemma submitOtp_try_effect c f a res token_reply buy_reply json w :
  ok res = true -> Http.json false res = Some json ->
  let authCode := oprop "code" (oprop "authData" json) in
  let go := strict_equal (oprop "flowStatus" json) (Str "SUCCESS_COMPLETED")
            && truthy authCode in
  let w' := fst (try_catch
                   (submitOtp_try C API_CONFIG c f a (Resolved res) token_reply buy_reply)
                   (fun e => act (on_ui (setOtpError (Some (describe e))))) w) in
  filter (is_token_exchange C) (network w')
  = (filter (is_token_exchange C) (network w)
     ++ if go then [stepup_token_request C authCode] else [])%list
  /\ (go = false -> tokens (ui w') = tokens (ui w) /\ session w' = session w).
Proof.
  intros Hok Hj. cbn zeta.
  unfold submitOtp_try, try_catch, bind, fetch, act, ret. cbn [fst snd].
  rewrite Hok, Hj. cbn [negb or_default].
  set (w1 := on_ui (setOtpResponse json) (send _ w)).
  assert (Hw1 : filter (is_token_exchange C) (network w1)
                = filter (is_token_exchange C) (network w)).
  { unfold w1. cbn. rewrite filter_app, filter_cons_False, filter_nil, app_nil_r;
      [reflexivity|]. rewrite authn_request_not_exchange. auto. }
  assert (Ht1 : tokens (ui w1) = tokens (ui w)) by reflexivity.
  assert (Hs1 : session w1 = session w) by reflexivity.
  clearbody w1.
  assert (Hp : forall w2,
             filter (is_token_exchange C)
               (network (fst (purchase API_CONFIG c buy_reply w2)))
             = filter (is_token_exchange C) (network w2)
             /\ tokens (ui (fst (purchase API_CONFIG c buy_reply w2))) = tokens (ui w2)
             /\ session (fst (purchase API_CONFIG c buy_reply w2)) = session w2).
  { intros w2. destruct (purchase_effect c buy_reply w2) as ([->|(b & _ & ->)] & Ht & Hs);
      [auto|].
    rewrite filter_app, filter_cons_False, filter_nil, app_nil_r; [auto|].
    rewrite buy_request_not_exchange. auto. }
  destruct (strict_equal _ _ && truthy _) eqn:Hgo.
  - split; [|discriminate].
    pose proof (stepup_exchange_effect (oprop "code" (oprop "authData" json)) token_reply w1) as Hx.
    destruct (stepup_exchange C _ token_reply w1) as [w2 [[]|e]]; cbn [fst] in Hx.
    + match goal with
      | |- context [purchase API_CONFIG c buy_reply ?w3] =>
          destruct (Hp w3) as (Hn & _);
          destruct (purchase API_CONFIG c buy_reply w3) as [w4 [[]|e]];
          cbn [fst snd on_ui network ui] in *
      end.
      * rewrite Hn, Hx, filter_app, Hw1, filter_cons_True, filter_nil; [reflexivity|].
        rewrite stepup_request_is_exchange. exact I.
      * rewrite Hn, Hx, filter_app, Hw1, filter_cons_True, filter_nil; [reflexivity|].
        rewrite stepup_request_is_exchange. exact I.
    + cbn [fst snd on_ui network ui].
      rewrite Hx, filter_app, Hw1, filter_cons_True, filter_nil; [reflexivity|].
      rewrite stepup_request_is_exchange. exact I.
  - match goal with
    | |- context [purchase API_CONFIG c buy_reply ?w3] =>
        destruct (Hp w3) as (Hn & Ht & Hs);
        destruct (purchase API_CONFIG c buy_reply w3) as [w4 [[]|e]];
        cbn [fst snd on_ui network ui session tokens setOtpError setOtpVisible setOtpValue] in *
    end.
    + rewrite Hn, Hw1, app_nil_r, Ht, Hs. auto.
    + rewrite Hn, Hw1, app_nil_r, Ht, Hs. auto.
Qed.

End Facts.
End SubmitFacts.


(* ===================================================================== *)
(** * The definitions on concrete inputs *)
(* ===================================================================== *)
Module Examples.
Import App.

Example sha256_of_empty_text :
  Pkce.sha256 "" = "47DEQpj8HBSa-_TImW-5JCeuQeRkm5NMpJWZG3hSuFU".
Proof. vm_compute. reflexivity. Qed.

Example round_constants :
  nth 0 Pkce.Sha256.K 0%N = 1116352408%N
  /\ nth 63 Pkce.Sha256.K 0%N = 3329325298%N
  /\ nth 0 Pkce.Sha256.H0 0%N = 1779033703%N
  /\ length Pkce.Sha256.K = 64.
Proof. vm_compute. auto. Qed.

Example btoa_pads : Pkce.btoa (Pkce.TextEncoder_encode "ab?>>>~~") = "YWI/Pj4+fn4=".
Proof. vm_compute. reflexivity. Qed.

Example base64UrlEncode_strips :
  Pkce.base64UrlEncode (Pkce.TextEncoder_encode "ab?>>>~~") = "YWI_Pj4-fn4".
Proof. vm_compute. reflexivity. Qed.

Example strip_trailing_eq_keeps_inner : Pkce.strip_trailing_eq "=a==b===" = "=a==b".
Proof. reflexivity. Qed.

Example atob_decodes :
  Jwt.atob "aGVsbG8=" = Some "hello"
  /\ Jwt.atob " aGVs bG8" = Some "hello"
  /\ Jwt.atob "aGVsb" = None
  /\ Jwt.atob "aGV-bG8=" = None.
Proof. vm_compute. auto. Qed.

Example parseJwt_reads_payload :
  Jwt.parseJwt (Str "header.eyJ1c2VybmFtZSI6ImFsaWNlIn0.signature")
  = Obj [ ("username", Str "alice") ]
  /\ Jwt.parseJwt (Str "no-dots") = Null
  /\ Jwt.parseJwt (Num 7) = Null.
Proof. vm_compute. auto. Qed.

Example to_string_of_array :
  to_string (Arr [ Num 12; Null; Arr [ Str "a"; Num (-305) ]; Obj []; Undef ])
  = "12,,a,-305,[object Object],".
Proof. vm_compute. reflexivity. Qed.

Example JSON_parse_reads_numbers_and_space :
  JSON_parse " [1, -20 ,0 , [ ] ] " = Some (Arr [ Num 1; Num (-20); Num 0; Arr [] ]).
Proof. vm_compute. reflexivity. Qed.

Example JSON_parse_refuses :
  JSON_parse "[1,]" = None /\ JSON_parse "01" = None /\ JSON_parse "" = None
  /\ JSON_parse "undefined" = None /\ JSON_parse "nul" = None.
Proof. vm_compute. auto. Qed.

(** JSON the platform reads and the model does not hold, and texts that
    are no JSON. *)
Example JSON_valid_beyond_the_model :
  JSON_valid "[1.5]" = true /\ JSON_parse "[1.5]" = None /\ Props.modelled "[1.5]" = false
  /\ JSON_valid "1E2" = true /\ Props.modelled "1E2" = false
  /\ JSON_valid "-0.25e-3" = true
  /\ JSON_valid (String dquote ("\u20ac" ++ String dquote "")) = true
  /\ Props.modelled (String dquote ("\u20ac" ++ String dquote "")) = false
  /\ Props.modelled "9007199254740993" = false /\ Props.modelled "9007199254740992" = true
  /\ Props.modelled " [1, -20 ,0 , [ ] ] " = true.
Proof. vm_compute. repeat split. Qed.

Example JSON_valid_refuses :
  JSON_valid "" = false /\ JSON_valid "[1,]" = false /\ JSON_valid "01" = false
  /\ JSON_valid "1." = false /\ JSON_valid ".5" = false /\ JSON_valid "1e" = false
  /\ JSON_valid "-" = false /\ JSON_valid "+1" = false /\ JSON_valid "NaN" = false
  /\ JSON_valid "{a:1}" = false /\ JSON_valid "[1] 2" = false
  /\ JSON_valid "Internal Server Error" = false
  /\ Props.modelled "Internal Server Error" = true /\ Props.modelled "" = true.
Proof. vm_compute. repeat split. Qed.

Example JSON_parse_last_member_wins :
  match JSON_stringify (Obj [ ("a", Num 1); ("b", Null) ]) with
  | Some head =>
      JSON_parse ("[" ++ head ++ "," ++ head ++ "]")
      = Some (Arr [ Obj [ ("a", Num 1); ("b", Null) ]; Obj [ ("a", Num 1); ("b", Null) ] ])
  | None => False
  end.
Proof. vm_compute. reflexivity. Qed.

Example stringify_skips_undefined :
  JSON_stringify (Arr [ Undef; Obj [ ("a", Undef); ("b", Bool true) ] ])
  = JSON_stringify (Arr [ Null; Obj [ ("b", Bool true) ] ])
  /\ JSON_stringify Undef = None.
Proof. vm_compute. auto. Qed.

Example links_probe :
  authnHref_probe (Obj [ ("links", Arr [ Obj [ ("href", Str "/oauth2/authn") ] ]) ])
  = Ok (Str "/oauth2/authn")
  /\ authnHref_probe
       (Obj [ ("links", Arr [ Obj [ ("rel", Str "self") ];
                              Obj [ ("href", Arr [ Str "/AuthN" ]) ] ]) ])
     = Ok (Arr [ Str "/AuthN" ])
  /\ authnHref_probe (Obj [ ("links", Str "abc") ]) = Ok Null
  /\ authnHref_probe (Obj [ ("links", Obj [ ("find", Num 1) ]) ])
     = Throw (not_a_function "res?.links?.find").
Proof. vm_compute. auto. Qed.

Example randomString_draws_from_charset :
  randomString 8 (fun i => Pkce.byte_of_N (N.of_nat (60 + i))) = "89-._~AB".
Proof. vm_compute. reflexivity. Qed.

Example login_stores_the_flow :
  map fst (map_to_list (Storage.items (session Demo.landed)))
  ≡ₚ [ "pkce_state"; "pkce_verifier:" ++ Demo.state0; "pkce_client:" ++ Demo.state0 ].
Proof. vm_compute. apply (bool_decide_unpack _). vm_compute. exact I. Qed.

End Examples.

(* ===================================================================== *)
(** * Facts behind the further properties *)
(* ===================================================================== *)

Module CodecFacts.
Import App Http Props Terms.
Import Pkce Props Terms PkceFacts.
Section Facts.
Local Arguments String.append !_ _ / : simpl nomatch.

(** ** Checking a property of small numbers by running it *)

Lemma below_all (P : N -> bool) (n : nat) :
  forallb P (map N.of_nat (seq 0 n)) = true ->
  forall x, (x < N.of_nat n)%N -> P x = true.
Proof.
  intros H x Hx. rewrite forallb_forall in H. apply H.
  rewrite <- (N2Nat.id x). apply in_map. apply in_seq. lia.
Qed.

Lemma bytes_all (P : Byte.byte -> bool) :
  forallb (fun n => P (byte_of_N n)) (map N.of_nat (seq 0 256)) = true ->
  forall b, P b = true.
Proof.
  intros H b.
  pose proof (below_all (fun n => P (byte_of_N n)) 256 H (Byte.to_N b)) as Hb.
  cbv beta in Hb.
  assert (byte_of_N (Byte.to_N b) = b) as E by (destruct b; reflexivity).
  rewrite E in Hb. apply Hb. destruct b; vm_compute; reflexivity.
Qed.

Lemma pairs_all (P : Byte.byte -> Byte.byte -> bool) :
  forallb (fun n => forallb (fun m => P (byte_of_N n) (byte_of_N m))
                      (map N.of_nat (seq 0 256)))
          (map N.of_nat (seq 0 256)) = true ->
  forall a b, P a b = true.
Proof.
  intros H a.
  apply (bytes_all (fun b => P a b)).
  revert a. apply (bytes_all (fun a => forallb (fun m => P a (byte_of_N m)) _)).
  exact H.
Qed.


(** ** The six-bit groups of [base64_with] *)

Lemma idx1_bound a : (idx1 a < 64)%N.
Proof.
  apply N.ltb_lt. revert a. apply (bytes_all (fun a => (idx1 a <? 64)%N)).
  vm_compute. reflexivity.
Qed.

Lemma idx2_bound a b : (idx2 a b < 64)%N.
Proof.
  apply N.ltb_lt. revert a b. apply (pairs_all (fun a b => (idx2 a b <? 64)%N)).
  vm_compute. reflexivity.
Qed.

Lemma idx3_bound a b : (idx3 a b < 64)%N.
Proof.
  apply N.ltb_lt. revert a b. apply (pairs_all (fun a b => (idx3 a b <? 64)%N)).
  vm_compute. reflexivity.
Qed.

Lemma idx4_bound a : (idx4 a < 64)%N.
Proof.
  apply N.ltb_lt. revert a. apply (bytes_all (fun a => (idx4 a <? 64)%N)).
  vm_compute. reflexivity.
Qed.

Lemma first_unit a b :
  ascii_of_N (idx1 a * 4 + idx2 a b / 16) = ascii_of_N (Byte.to_N a).
Proof.
  apply Ascii.eqb_eq. revert a b.
  apply (pairs_all (fun a b =>
    Ascii.eqb (ascii_of_N (idx1 a * 4 + idx2 a b / 16)) (ascii_of_N (Byte.to_N a)))).
  vm_compute. reflexivity.
Qed.

Lemma second_unit_high a b : (idx2 a b mod 16 = Byte.to_N b / 16)%N.
Proof.
  apply N.eqb_eq. revert a b.
  apply (pairs_all (fun a b => (idx2 a b mod 16 =? Byte.to_N b / 16)%N)).
  vm_compute. reflexivity.
Qed.

Lemma second_unit_low b c : (idx3 b c / 4 = Byte.to_N b mod 16)%N.
Proof.
  apply N.eqb_eq. revert b c.
  apply (pairs_all (fun b c => (idx3 b c / 4 =? Byte.to_N b mod 16)%N)).
  vm_compute. reflexivity.
Qed.

Lemma second_unit a b c :
  ascii_of_N ((idx2 a b mod 16) * 16 + idx3 b c / 4) = ascii_of_N (Byte.to_N b).
Proof.
  rewrite second_unit_high, second_unit_low. f_equal.
  rewrite N.mul_comm. symmetry. apply N.div_mod. discriminate.
Qed.

Lemma third_unit_high b c : (idx3 b c mod 4 = Byte.to_N c / 64)%N.
Proof.
  apply N.eqb_eq. revert b c.
  apply (pairs_all (fun b c => (idx3 b c mod 4 =? Byte.to_N c / 64)%N)).
  vm_compute. reflexivity.
Qed.

Lemma third_unit b c :
  ascii_of_N ((idx3 b c mod 4) * 64 + idx4 c) = ascii_of_N (Byte.to_N c).
Proof.
  rewrite third_unit_high.
  assert (idx4 c = Byte.to_N c mod 64)%N as ->.
  { apply N.eqb_eq. revert c.
    apply (bytes_all (fun c => (idx4 c =? Byte.to_N c mod 64)%N)).
    vm_compute. reflexivity. }
  f_equal. rewrite N.mul_comm. symmetry. apply N.div_mod. discriminate.
Qed.

Lemma sextet_val_sextet i :
  (i < 64)%N -> Jwt.sextet_val (sextet std_alphabet i) = Some i.
Proof.
  intros Hi.
  pose proof (below_all
    (fun i => match Jwt.sextet_val (sextet std_alphabet i) with
              | Some j => (j =? i)%N
              | None => false
              end) 64 ltac:(vm_compute; reflexivity) i Hi) as H.
  cbv beta in H. destruct (Jwt.sextet_val (sextet std_alphabet i)); [|discriminate].
  apply N.eqb_eq in H. by subst.
Qed.

Lemma sextet_plain i : plain (sextet std_alphabet i) = true.
Proof.
  unfold sextet. generalize (N.to_nat i). intros n.
  do 64 (destruct n as [|n]; [reflexivity|]).
  destruct n; reflexivity.
Qed.


(** ** [atob] reads back what [btoa] writes *)

Local Abbreviation raw := (base64_with std_alphabet "").

Lemma plain_kept x r :
  plain x = true ->
  Jwt.drop_ascii_ws (String x r) = String x (Jwt.drop_ascii_ws r)
  /\ Jwt.drop_padding (String x r) = String x (Jwt.drop_padding r).
Proof.
  unfold plain. intros H.
  apply andb_prop in H as (H & _). apply andb_prop in H as (Hw & He).
  apply negb_true_iff in Hw, He.
  cbn [Jwt.drop_ascii_ws Jwt.drop_padding]. cbv zeta. rewrite Hw, He. auto.
Qed.

Lemma drop_ascii_ws_btoa bs : Jwt.drop_ascii_ws (btoa bs) = btoa bs.
Proof.
  unfold btoa.
  induction bs as [|a|a b|a b c r IH] using triples_ind; cbn [base64_with].
  - reflexivity.
  - rewrite !(proj1 (plain_kept _ _ (sextet_plain _))). reflexivity.
  - rewrite !(proj1 (plain_kept _ _ (sextet_plain _))). reflexivity.
  - rewrite !(proj1 (plain_kept _ _ (sextet_plain _))), IH. reflexivity.
Qed.

Lemma drop_padding_btoa bs : Jwt.drop_padding (btoa bs) = raw bs.
Proof.
  unfold btoa.
  induction bs as [|a|a b|a b c r IH] using triples_ind; cbn [base64_with].
  - reflexivity.
  - rewrite !(proj2 (plain_kept _ _ (sextet_plain _))). reflexivity.
  - rewrite !(proj2 (plain_kept _ _ (sextet_plain _))). reflexivity.
  - rewrite !(proj2 (plain_kept _ _ (sextet_plain _))), IH. reflexivity.
Qed.

Lemma four_more n : S (S (S (S n))) mod 4 = n mod 4.
Proof. replace (S (S (S (S n)))) with (n + 1 * 4) by lia. apply Nat.Div0.mod_add. Qed.

Lemma btoa_length bs : String.length (btoa bs) mod 4 = 0.
Proof.
  unfold btoa.
  induction bs as [|a|a b|a b c r IH] using triples_ind; cbn [base64_with];
    try reflexivity.
  cbn [String.length]. by rewrite four_more.
Qed.

Lemma raw_length bs : String.length (raw bs) mod 4 <> 1.
Proof.
  induction bs as [|a|a b|a b c r IH] using triples_ind; cbn [base64_with];
    try (cbn; lia).
  cbn [String.length]. by rewrite four_more.
Qed.

Lemma decode_raw bs :
  exists vs, Jwt.sextets (raw bs) = Some vs /\ Jwt.decode_groups vs = binary bs.
Proof.
  induction bs as [|a|a b|a b c r IH] using triples_ind; cbn [base64_with].
  - by exists [].
  - exists [idx1 a; idx2 a Byte.x00]. split.
    + cbn [Jwt.sextets String.append].
      by rewrite !sextet_val_sextet by auto using idx1_bound, idx2_bound.
    + cbn [Jwt.decode_groups]. by rewrite first_unit.
  - exists [idx1 a; idx2 a b; idx3 b Byte.x00]. split.
    + cbn [Jwt.sextets String.append].
      by rewrite !sextet_val_sextet by auto using idx1_bound, idx2_bound, idx3_bound.
    + cbn [Jwt.decode_groups]. by rewrite first_unit, second_unit.
  - destruct IH as (vs & Hs & Hd).
    exists (idx1 a :: idx2 a b :: idx3 b c :: idx4 c :: vs). split.
    + cbn [Jwt.sextets].
      rewrite !sextet_val_sextet
        by auto using idx1_bound, idx2_bound, idx3_bound, idx4_bound.
      by rewrite Hs.
    + cbn [Jwt.decode_groups]. rewrite first_unit, second_unit, third_unit, Hd.
      reflexivity.
Qed.

Theorem atob_btoa bs : Jwt.atob (btoa bs) = Some (binary bs).
Proof.
  unfold Jwt.atob. cbv zeta.
  rewrite drop_ascii_ws_btoa, btoa_length. cbn [Nat.eqb].
  rewrite drop_padding_btoa.
  destruct (String.length (raw bs) mod 4 =? 1)%nat eqn:E.
  - apply Nat.eqb_eq in E. by apply raw_length in E.
  - destruct (decode_raw bs) as (vs & -> & ->). reflexivity.
Qed.

(** ** The padding loop of [parseJwt] *)

Lemma pad_to_4_skip f a b c d r :
  Jwt.pad_to_4 f (String a (String b (String c (String d r))))
  = String a (String b (String c (String d (Jwt.pad_to_4 f r)))).
Proof.
  revert r. induction f as [|f IH]; intros r; [reflexivity|].
  cbn [Jwt.pad_to_4 String.length]. rewrite four_more.
  destruct (String.length r mod 4 =? 0)%nat; [reflexivity|].
  cbn [String.append]. apply IH.
Qed.

Lemma pad_to_4_raw bs : Jwt.pad_to_4 3 (raw bs) = btoa bs.
Proof.
  unfold btoa.
  induction bs as [|a|a b|a b c r IH] using triples_ind; cbn [base64_with];
    try reflexivity.
  rewrite pad_to_4_skip, IH. reflexivity.
Qed.

(** ** From the URL alphabet back to the standard one *)

Lemma sextet_from_url i :
  (if Ascii.eqb (if Ascii.eqb (sextet url_alphabet i) "-" then "+"
                 else sextet url_alphabet i) "_" then "/"
   else if Ascii.eqb (sextet url_alphabet i) "-" then "+"
        else sextet url_alphabet i)%char
  = sextet std_alphabet i.
Proof.
  unfold sextet. generalize (N.to_nat i). intros n.
  do 64 (destruct n as [|n]; [reflexivity|]).
  destruct n; reflexivity.
Qed.

Lemma from_url_cons x r :
  replace_all "_" "/" (replace_all "-" "+" (String x r))
  = String (if Ascii.eqb (if Ascii.eqb x "-" then "+" else x) "_" then "/"
            else if Ascii.eqb x "-" then "+" else x)%char
      (replace_all "_" "/" (replace_all "-" "+" r)).
Proof. reflexivity. Qed.

Lemma from_url_raw bs :
  replace_all "_" "/" (replace_all "-" "+" (base64url_nopad bs)) = raw bs.
Proof.
  unfold base64url_nopad.
  induction bs as [|a|a b|a b c r IH] using triples_ind; cbn [base64_with].
  - reflexivity.
  - cbn [String.append]. rewrite !from_url_cons, !sextet_from_url. reflexivity.
  - cbn [String.append]. rewrite !from_url_cons, !sextet_from_url. reflexivity.
  - rewrite !from_url_cons, !sextet_from_url, IH. reflexivity.
Qed.

(** What [parseJwt] does to a payload segment written by
    [base64UrlEncode]. *)
Theorem payload_decoded bs :
  Jwt.atob (Jwt.pad_to_4 3
             (replace_all "_" "/" (replace_all "-" "+" (base64UrlEncode bs))))
  = Some (binary bs).
Proof.
  rewrite base64UrlEncode_spec, from_url_raw, pad_to_4_raw. apply atob_btoa.
Qed.


(** ** Segments of a token *)

Lemma sextet_url_plain i : plain (sextet url_alphabet i) = true.
Proof.
  unfold sextet. generalize (N.to_nat i). intros n.
  do 64 (destruct n as [|n]; [reflexivity|]).
  destruct n; reflexivity.
Qed.

Lemma base64url_plain bs : every plain (base64url_nopad bs) = true.
Proof.
  unfold base64url_nopad.
  induction bs as [|a|a b|a b c r IH] using triples_ind;
    cbn [base64_with every String.append]; rewrite ?sextet_url_plain; auto.
Qed.

Lemma plain_no_dot s : every plain s = true -> mentions "." s = false.
Proof.
  induction s as [|c s IH]; cbn [every mentions]; [reflexivity|].
  intros H. apply andb_prop in H as (Hc & Hs). rewrite (IH Hs), orb_false_r.
  unfold plain in Hc. apply andb_prop in Hc as (_ & Hc).
  by apply negb_true_iff in Hc.
Qed.

Lemma split_dot_segment h r :
  mentions "." h = false -> Jwt.split_dot (h ++ String "." r) = h :: Jwt.split_dot r.
Proof.
  induction h as [|c h IH]; cbn [mentions String.append Jwt.split_dot]; [reflexivity|].
  intros H. apply orb_false_elim in H as (Hc & Hh).
  rewrite Hc, (IH Hh). reflexivity.
Qed.

Lemma binary_encode s : ascii_only s = true -> binary (TextEncoder_encode s) = s.
Proof.
  unfold ascii_only, binary.
  induction s as [|c s IH]; cbn [every TextEncoder_encode]; [reflexivity|].
  intros H. apply andb_prop in H as (Hc & Hs).
  unfold utf8_unit. cbv zeta. rewrite Hc.
  cbn [app map string_of_list_ascii]. rewrite (IH Hs). f_equal.
  clear - Hc. destruct c as [[] [] [] [] [] [] [] []]; vm_compute in Hc |- *;
    solve [reflexivity | discriminate].
Qed.


(** ** Lengths *)

Lemma string_of_list_length l : String.length (string_of_list_ascii l) = length l.
Proof. induction l as [|c l IH]; cbn; [reflexivity|]. by rewrite IH. Qed.

Lemma every_string_of_list p l :
  Forall (fun c => p c = true) l -> every p (string_of_list_ascii l) = true.
Proof.
  induction 1 as [|c l Hc _ IH]; cbn [string_of_list_ascii every]; [reflexivity|].
  by rewrite Hc, IH.
Qed.

Lemma base64url_length bs :
  String.length (base64url_nopad bs) = (4 * length bs + 2) / 3.
Proof.
  unfold base64url_nopad.
  induction bs as [|a|a b|a b c r IH] using triples_ind; cbn [base64_with];
    try reflexivity.
  cbn [String.length length]. rewrite IH.
  replace (4 * S (S (S (length r))) + 2) with (4 * length r + 2 + 4 * 3) by lia.
  rewrite Nat.div_add by discriminate. lia.
Qed.

Lemma sextet_base64url i : base64url_char (sextet url_alphabet i) = true.
Proof.
  unfold sextet. generalize (N.to_nat i). intros n.
  do 64 (destruct n as [|n]; [reflexivity|]).
  destruct n; reflexivity.
Qed.

Lemma base64url_chars bs : every base64url_char (base64url_nopad bs) = true.
Proof.
  unfold base64url_nopad.
  induction bs as [|a|a b|a b c r IH] using triples_ind;
    cbn [base64_with every String.append]; rewrite ?sextet_base64url; auto.
Qed.

(** ** The digest has 32 bytes *)

Lemma be_bytes_length k x : length (Sha256.be_bytes k x) = k.
Proof.
  revert x. induction k as [|k IH]; intros x; cbn [Sha256.be_bytes]; [reflexivity|].
  rewrite length_app, IH. cbn. lia.
Qed.

Lemma compress_length h block :
  length h = 8 -> length (Sha256.compress h block) = 8.
Proof.
  intros Hh. unfold Sha256.compress. cbv zeta.
  rewrite length_map, length_combine, Hh. reflexivity.
Qed.

Lemma fold_compress_length blocks h :
  length h = 8 -> length (fold_left Sha256.compress blocks h) = 8.
Proof.
  revert h. induction blocks as [|b blocks IH]; intros h Hh; cbn [fold_left]; [exact Hh|].
  apply IH, compress_length, Hh.
Qed.

Lemma words_bytes_length h :
  length (flat_map (Sha256.be_bytes 4) h) = 4 * length h.
Proof.
  induction h as [|x h IH]; cbn [flat_map length]; [reflexivity|].
  rewrite length_app, be_bytes_length, IH. lia.
Qed.

Lemma digest_length msg : length (Sha256.digest msg) = 32.
Proof.
  unfold Sha256.digest. cbv zeta.
  rewrite length_map, words_bytes_length, fold_compress_length; [reflexivity|].
  unfold Sha256.H0. rewrite length_map. reflexivity.
Qed.


(** ** Random texts *)

Lemma randomString_shape (length : nat) (values : nat -> Byte.byte) :
  String.length (App.randomString length values) = length
  /\ every unreserved (App.randomString length values) = true.
Proof.
  unfold App.randomString. split.
  - by rewrite string_of_list_length, length_map, length_seq.
  - apply every_string_of_list, Forall_map, Forall_forall.
    intros i _. cbv beta.
    generalize (N.to_nat (Byte.to_N (values i)) mod String.length App.charset).
    intros j. unfold App.charset.
    do 66 (destruct j as [|j]; [reflexivity|]).
    destruct j; reflexivity.
Qed.

(** ** Reading a token *)

Lemma parseJwt_reads (header signature : string) (v : value) :
  serializable v ->
  ascii_only (text_of v) = true ->
  mentions "." header = false ->
  Jwt.parseJwt
    (Str (header ++ "."
          ++ base64UrlEncode (TextEncoder_encode (text_of v))
          ++ "." ++ signature))
  = v.
Proof.
  intros Hv Ha Hh.
  set (p := base64UrlEncode (TextEncoder_encode (text_of v))).
  assert (Jwt.split_dot (header ++ "." ++ p ++ "." ++ signature)
          = header :: p :: Jwt.split_dot signature) as Hparts.
  { change (header ++ "." ++ p ++ "." ++ signature)
      with (header ++ String "." (p ++ String "." signature)).
    rewrite (split_dot_segment _ _ Hh).
    rewrite split_dot_segment; [reflexivity|].
    unfold p. rewrite base64UrlEncode_spec.
    apply plain_no_dot, base64url_plain. }
  unfold Jwt.parseJwt.
  assert (truthy (Str (header ++ "." ++ p ++ "." ++ signature)) = true) as ->.
  { cbn [truthy]. destruct header; reflexivity. }
  cbn [negb]. rewrite Hparts. cbn [length Nat.ltb Nat.leb nth].
  unfold p. rewrite payload_decoded, (binary_encode _ Ha).
  destruct (RoundTrip.JSON_parse_stringify v Hv) as (t & Ht & _ & Hp).
  unfold JSON_stringify in Ht. rewrite (ValueFacts.stringify_serializable v Hv) in Ht.
  injection Ht as <-. by rewrite Hp.
Qed.

End Facts.
End CodecFacts.

Module RoomFacts.
Import App Http Props Terms.
Import Storage Props Terms.

Lemma size_commutes (j1 j2 z1 z2 : string) (y : N) :
  (N.of_nat (String.length j1 + String.length z1)
   + (N.of_nat (String.length j2 + String.length z2) + y)
   = N.of_nat (String.length j2 + String.length z2)
     + (N.of_nat (String.length j1 + String.length z1) + y))%N.
Proof. lia. Qed.

Lemma footprint_fresh m k v :
  m !! k = None -> footprint (<[k := v]> m) = (entry_size k v + footprint m)%N.
Proof.
  intros Hk. unfold footprint.
  rewrite map_fold_insert_L; [reflexivity| |exact Hk].
  intros. apply size_commutes.
Qed.

Lemma footprint_delete m k : (footprint (delete k m) <= footprint m)%N.
Proof.
  destruct (m !! k) as [x|] eqn:Hk.
  - unfold footprint at 2.
    rewrite (map_fold_delete_L _ _ k x m); [|intros; apply size_commutes|exact Hk].
    fold (footprint (delete k m)). lia.
  - rewrite delete_id by exact Hk. lia.
Qed.

Lemma footprint_insert m k v :
  (footprint (<[k := v]> m) <= footprint m + entry_size k v)%N.
Proof.
  rewrite <- insert_delete_eq.
  rewrite footprint_fresh by apply lookup_delete_eq.
  pose proof (footprint_delete m k). lia.
Qed.

Lemma setItem_roomy k v st n :
  roomy n st -> (entry_size k v <= n)%N ->
  exists st', setItem k v st = Ok st'
              /\ items st' = <[k := v]> (items st)
              /\ roomy (n - entry_size k v) st'.
Proof.
  intros (He & Hr) Hn. unfold setItem. rewrite He.
  pose proof (footprint_insert (items st) k v) as Hf.
  destruct (_ <=? _)%N eqn:E.
  - eexists. split; [reflexivity|]. cbn. split; [reflexivity|].
    split; [reflexivity|]. cbn. lia.
  - apply N.leb_gt in E. lia.
Qed.

Lemma text_parses v :
  serializable v ->
  JSON_stringify v = Some (text_of v) /\ text_of v <> ""
  /\ JSON_parse (text_of v) = Some v.
Proof.
  intros Hv.
  destruct (RoundTrip.JSON_parse_stringify v Hv) as (t & Ht & Hne & Hp).
  pose proof (ValueFacts.stringify_serializable v Hv) as Hs.
  unfold JSON_stringify in *. rewrite Hs in Ht. injection Ht as <-. auto.
Qed.

Lemma saveSession_roomy key v st n :
  serializable v -> roomy n st -> (entry_size key (text_of v) <= n)%N ->
  items (saveSession key v st) = <[key := text_of v]> (items st)
  /\ roomy (n - entry_size key (text_of v)) (saveSession key v st).
Proof.
  intros Hv Hr Hn. unfold saveSession.
  destruct (text_parses v Hv) as (-> & _).
  destruct (setItem_roomy key (text_of v) st n Hr Hn) as (st' & -> & Hi & Hr').
  auto.
Qed.

Lemma loadSession_stored key fallback st v :
  serializable v -> enabled st = true -> items st !! key = Some (text_of v) ->
  loadSession key fallback st = v.
Proof.
  intros Hv He Hk. destruct (text_parses v Hv) as (_ & Hne & Hp).
  unfold loadSession, getItem. rewrite He, Hk.
  apply String.eqb_neq in Hne. by rewrite Hne, Hp.
Qed.

End RoomFacts.

Module LoginFacts.
Import App Http Props Terms.
Import App Http Storage Props Terms RoomFacts.
Section Facts.
Local Arguments String.append !_ _ / : simpl nomatch.
Variable C : oidc_config.

Lemma escape_unreserved s : every unreserved s = true -> escape s = s.
Proof.
  induction s as [|c s IH]; cbn [every escape]; [reflexivity|].
  intros H. apply andb_prop in H as (Hc & Hs). rewrite (IH Hs).
  assert (escape_unit c = String c "") as ->; [|reflexivity].
  clear - Hc. destruct c as [[] [] [] [] [] [] [] []]; vm_compute in Hc |- *;
    solve [reflexivity | discriminate].
Qed.

Lemma text_of_Str s : text_of (Str s) = String dquote (escape s ++ String dquote "").
Proof. reflexivity. Qed.

Lemma text_of_unreserved s :
  every unreserved s = true -> String.length (text_of (Str s)) = String.length s + 2.
Proof.
  intros H. rewrite text_of_Str, (escape_unreserved s H).
  cbn [String.length]. rewrite ParseFacts.length_append. cbn. lia.
Qed.

(** What [startLogin] takes for the client. *)
Lemma login_client_value clientId :
  (if truthy clientId && negb (is_string clientId) then Undef else clientId)
  ||| Str (CLIENT_ID C)
  = Str (login_client C clientId).
Proof.
  destruct clientId as [| |[]|n|s|l|fs]; try reflexivity.
  - unfold or_else. cbn. destruct (n =? 0)%Z eqn:E; cbn; rewrite ?E; reflexivity.
  - unfold or_else. cbn. destruct (String.eqb s "") eqn:E; cbn; rewrite ?E; reflexivity.
Qed.

Lemma client_or_default clientId :
  Str (login_client C clientId) ||| Str (CLIENT_ID C) = Str (login_client C clientId).
Proof.
  unfold or_else. cbn [truthy].
  destruct (String.eqb (login_client C clientId) "") eqn:E; [|reflexivity].
  apply String.eqb_eq in E. cbn [negb]. f_equal.
  unfold login_client in *. destruct clientId; try done.
  destruct (String.eqb s "") eqn:Es; [done|].
  apply String.eqb_neq in Es. done.
Qed.


Lemma startLogin_session clientId values1 values2 w :
  session (startLogin C clientId values1 values2 w)
  = saveSession ("pkce_client:" ++ randomString 24 values2)
      (Str (login_client C clientId))
      (saveSession ("pkce_verifier:" ++ randomString 24 values2)
         (Str (randomString 64 values1))
         (saveSession "pkce_state" (Str (randomString 24 values2)) (session w))).
Proof. unfold startLogin. cbv zeta. rewrite login_client_value. reflexivity. Qed.

Lemma startLogin_network clientId values1 values2 w :
  network (startLogin C clientId values1 values2 w) = network w.
Proof. reflexivity. Qed.

Lemma random_sizes values1 values2 :
  String.length (text_of (Str (randomString 24 values2))) = 26
  /\ String.length (text_of (Str (randomString 64 values1))) = 66
  /\ String.length (randomString 24 values2) = 24.
Proof.
  destruct (CodecFacts.randomString_shape 24 values2) as (L2 & U2).
  destruct (CodecFacts.randomString_shape 64 values1) as (L1 & U1).
  rewrite !text_of_unreserved, L1, L2 by assumption. auto.
Qed.

(** The entries a sign-in leaves in a storage that has room for them. *)
Lemma startLogin_stores clientId values1 values2 w n :
  roomy n (session w) ->
  (N.of_nat (176 + String.length (text_of (Str (login_client C clientId)))) <= n)%N ->
  let state := randomString 24 values2 in
  let st := session (startLogin C clientId values1 values2 w) in
  items st
  = <["pkce_client:" ++ state := text_of (Str (login_client C clientId))]>
      (<["pkce_verifier:" ++ state := text_of (Str (randomString 64 values1))]>
         (<["pkce_state" := text_of (Str state)]> (items (session w))))
  /\ roomy (n - N.of_nat (176 + String.length (text_of (Str (login_client C clientId)))))
       st.
Proof.
  intros Hr Hn state st. subst st. rewrite startLogin_session. fold state.
  destruct (random_sizes values1 values2) as (S2 & S1 & L2). fold state in S2, L2.
  set (t3 := text_of (Str (login_client C clientId))) in *.
  assert (entry_size "pkce_state" (text_of (Str state)) = 36%N) as E1.
  { unfold entry_size. rewrite S2. reflexivity. }
  assert (entry_size ("pkce_verifier:" ++ state) (text_of (Str (randomString 64 values1)))
          = 104%N) as E2.
  { unfold entry_size. rewrite S1, ParseFacts.length_append, L2. reflexivity. }
  assert (entry_size ("pkce_client:" ++ state) t3
          = N.of_nat (36 + String.length t3)) as E3.
  { unfold entry_size. rewrite ParseFacts.length_append, L2. reflexivity. }
  destruct (saveSession_roomy "pkce_state" (Str state) (session w) n I Hr) as (I1 & R1);
    [lia|].
  destruct (saveSession_roomy ("pkce_verifier:" ++ state) (Str (randomString 64 values1))
              _ _ I R1) as (I2 & R2); [lia|].
  destruct (saveSession_roomy ("pkce_client:" ++ state) (Str (login_client C clientId))
              _ _ I R2) as (I3 & R3); [fold t3; lia|].
  fold t3 in I3, R3. rewrite I3, I2, I1. split; [reflexivity|].
  destruct R3 as (He & Hq). split; [exact He|]. lia.
Qed.

End Facts.
End LoginFacts.

Module RedirectFacts.
Import App Http Props Terms.
Import Storage RoomFacts LoginFacts StorageFacts LandingFacts.
Section Facts.
Local Arguments String.append !_ _ / : simpl nomatch.
Variable C : oidc_config.

Lemma startLogin_navigates clientId values1 values2 w :
  exists sent,
    navigated (startLogin C clientId values1 values2 w)
    = Some (AUTHORIZATION_ENDPOINT C, sent)
    /\ params_get "response_type" sent = Some "code"
    /\ params_get "client_id" sent = Some (login_client C clientId)
    /\ params_get "redirect_uri" sent = Some (REDIRECT_URI C)
    /\ params_get "scope" sent = Some (SCOPE C)
    /\ params_get "state" sent = Some (randomString 24 values2)
    /\ params_get "code_challenge" sent = Some (Pkce.sha256 (randomString 64 values1))
    /\ params_get "code_challenge_method" sent = Some "S256".
Proof.
  unfold startLogin. cbv zeta. rewrite (login_client_value C).
  eexists. split; [reflexivity|]. cbn [to_string]. repeat split.
Qed.

Lemma state_key_not_used state code : "pkce_state" <> usedKey state code.
Proof. unfold usedKey. cbn. discriminate. Qed.

Lemma landing_after_login clientId values1 values2 w code q :
  let verifier := randomString 64 values1 in
  let state := randomString 24 values2 in
  let client := login_client C clientId in
  roomy (N.of_nat (217 + String.length (text_of (Str client)) + String.length code))
    (session w) ->
  items (session w) !! usedKey state code = None ->
  code <> "" ->
  params_get "code" q = Some code ->
  params_get "state" q = Some state ->
  exists x w2,
    landing_effect C (load_page q (startLogin C clientId values1 values2 w))
    = (w2, Ok (Some (AwaitToken x)))
    /\ network w2 = (network w ++ [token_request C (Str client) code (Str verifier)])%list.
Proof.
  intros verifier state client Hroom Hfree Hcode Hqc Hqs.
  destruct (CodecFacts.randomString_shape 24 values2) as (L2 & _). fold state in L2.
  destruct (CodecFacts.randomString_shape 64 values1) as (L1 & _). fold verifier in L1.
  assert (state <> "") as Hstate by (intros E; rewrite E in L2; discriminate).
  assert (verifier <> "") as Hver by (intros E; rewrite E in L1; discriminate).
  destruct (startLogin_stores C clientId values1 values2 w _ Hroom ltac:(fold client; lia))
    as (Hitems & Hr3).
  fold state verifier client in Hitems, Hr3.
  pose proof (startLogin_network C clientId values1 values2 w) as Hnet.
  set (w1 := startLogin C clientId values1 values2 w) in *. clearbody w1.
  set (st3 := session w1) in *.
  assert (items st3 !! "pkce_state" = Some (text_of (Str state))) as F1.
  { rewrite Hitems.
    rewrite lookup_insert_ne by (cbn; discriminate).
    rewrite lookup_insert_ne by (cbn; discriminate).
    apply lookup_insert_eq. }
  assert (items st3 !! usedKey state code = None) as F4.
  { rewrite Hitems.
    rewrite lookup_insert_ne by apply usedKey_not_client.
    rewrite lookup_insert_ne by apply usedKey_not_verifier.
    rewrite lookup_insert_ne by apply state_key_not_used.
    exact Hfree. }
  destruct (setItem_roomy (usedKey state code) "1" st3 _ Hr3) as (st4 & Hset & I4 & R4).
  { unfold entry_size, usedKey. rewrite !ParseFacts.length_append, L2. cbn. lia. }
  assert (items st4 !! ("pkce_verifier:" ++ state) = Some (text_of (Str verifier))) as F2.
  { rewrite I4, lookup_insert_ne by (symmetry; apply usedKey_not_verifier).
    rewrite Hitems. rewrite lookup_insert_ne by (cbn; discriminate).
    apply lookup_insert_eq. }
  assert (items st4 !! ("pkce_client:" ++ state) = Some (text_of (Str client))) as F3.
  { rewrite I4, lookup_insert_ne by (symmetry; apply usedKey_not_client).
    rewrite Hitems. apply lookup_insert_eq. }
  destruct Hr3 as (He3 & _). destruct R4 as (He4 & _).
  unfold landing_effect, load_page. cbn [search session].
  rewrite Hqc, Hqs. fold st3.
  rewrite (loadSession_stored "pkce_state" Null st3 (Str state) I He3 F1).
  apply String.eqb_neq in Hcode as Ec. apply String.eqb_neq in Hstate as Es.
  rewrite Ec, Es. cbn [orb strict_equal]. rewrite String.eqb_refl. cbn [negb].
  unfold getItem. rewrite He3, F4. cbn [string_truthy ui exchangingRef initial_component orb].
  cbn [on_ui session]. fold st3. rewrite Hset.
  unfold exchange_begin. cbn [on_session session]. rewrite Es.
  rewrite (loadSession_stored _ Null st4 (Str verifier) I He4 F2).
  rewrite (loadSession_stored _ Null st4 (Str client) I He4 F3).
  assert (truthy (Str verifier) = true) as Tv.
  { cbn [truthy]. apply negb_true_iff. by apply String.eqb_neq. }
  assert (forall b, Str verifier ||| b = Str verifier) as Ev
    by (intros b; unfold or_else; by rewrite Tv).
  rewrite !Ev, Tv. cbn [negb].
  unfold client. rewrite (client_or_default C).
  eexists _, _. split; [reflexivity|]. cbn [network send on_session on_ui].
  by rewrite Hnet.
Qed.

End Facts.
End RedirectFacts.

Module DeniedFacts.
Import App Http Props Terms.
Import Storage.
Section Facts.
Variable C : oidc_config.

Lemma saveSession_disabled key v st : enabled st = false -> saveSession key v st = st.
Proof. intros H. unfold saveSession, setItem. by rewrite H. Qed.

Lemma loadSession_disabled key fb st : enabled st = false -> loadSession key fb st = fb.
Proof. intros H. unfold loadSession, getItem. by rewrite H. Qed.

End Facts.
End DeniedFacts.

Module UrlFacts.
Import App Http Props Terms.
Import Http App Props Terms.
Section Facts.
Local Arguments String.append !_ _ / : simpl nomatch.

Lemma encode_safe_unit c :
  query_safe c = true -> Url.encode_bytes (Pkce.utf8_unit c) = String c "".
Proof.
  destruct c as [[] [] [] [] [] [] [] []]; vm_compute;
    solve [reflexivity | discriminate].
Qed.

Lemma encode_bytes_app a b :
  Url.encode_bytes (a ++ b) = Url.encode_bytes a ++ Url.encode_bytes b.
Proof.
  induction a as [|x a IH]; cbn [app Url.encode_bytes]; [reflexivity|].
  by rewrite IH, NumberFacts.append_assoc.
Qed.

Lemma encode_safe s : every query_safe s = true -> Url.encode s = s.
Proof.
  unfold Url.encode.
  induction s as [|c s IH]; cbn [every Pkce.TextEncoder_encode]; [reflexivity|].
  intros H. apply andb_prop in H as (Hc & Hs).
  rewrite encode_bytes_app, (encode_safe_unit c Hc), (IH Hs). reflexivity.
Qed.

End Facts.
End UrlFacts.

Module GarageFacts.
Import App Http Props Terms.
Import Garage.
Section Facts.
Variable C : oidc_config.
Variable C_MORE : endpoints.
Variable API_CONFIG : Api.api_config.
Variable API_MORE : Calls.addresses.

(** What [fetchVehicles] resolves with is an array. *)
Lemma fetchVehicles_array accessToken reply list :
  Api.fetchVehicles accessToken reply = Ok list -> Api.isArray list = true.
Proof.
  unfold Api.fetchVehicles. destruct reply as [e|res]; [discriminate|].
  repeat case_match; intros [= <-]; try reflexivity; try assumption.
  all: match goal with H : _ && _ = true |- _ => by apply andb_prop in H as (_ & H) end.
Qed.

Lemma fetchVehicles_resolves accessToken res :
  exists list, Api.fetchVehicles accessToken (Resolved res) = Ok list.
Proof. unfold Api.fetchVehicles. repeat case_match; eauto. Qed.

End Facts.
End GarageFacts.

Module KeepFacts.
Import App Http Props Terms.
Import App Http Storage Props Terms StorageFacts RoomFacts JsFacts.
Section Facts.

Lemma loadSession_saveSession_other key other value fallback st :
  other <> key ->
  loadSession other fallback (saveSession key value st) = loadSession other fallback st.
Proof.
  intros Hk. unfold loadSession, getItem.
  by rewrite saveSession_enabled, saveSession_other.
Qed.

Lemma forget_flow_enabled s st : enabled (forget_flow s st) = enabled st.
Proof.
  unfold forget_flow, removeItem. destruct (enabled st) eqn:E; cbn; rewrite ?E; reflexivity.
Qed.

Lemma written_saved key v st :
  serializable v -> written key v st ->
  enabled (saveSession key v st) = true
  /\ items (saveSession key v st) !! key = Some (text_of v).
Proof.
  intros Hv (st' & Hset). destruct (text_parses v Hv) as (Ht & _).
  unfold saveSession. rewrite Ht in *. rewrite Hset.
  apply setItem_Ok in Hset as (-> & _ & -> & _).
  by rewrite lookup_insert_eq.
Qed.

End Facts.
End KeepFacts.

Module OtpFacts.
Import App Http Props Terms.
Import SubmitFacts JsFacts.
Section Facts.
Variable C : oidc_config.
Variable API_CONFIG : Api.api_config.

(** [submitOtp] once its four checks have passed. *)
Lemma submitOtp_past_checks otp_reply token_reply buy_reply w :
  otpValue (ui w) <> "" ->
  truthy (otpResponse (ui w)) = true ->
  truthy (flowId_lookup (otpResponse (ui w))) = true ->
  truthy (authenticatorId_lookup (otpResponse (ui w))) = true ->
  submitOtp C API_CONFIG otp_reply token_reply buy_reply w
  = on_ui (setOtpRequesting false)
      (fst (try_catch
              (submitOtp_try C API_CONFIG (ui w) (flowId_lookup (otpResponse (ui w)))
                 (authenticatorId_lookup (otpResponse (ui w)))
                 otp_reply token_reply buy_reply)
              (fun e => act (on_ui (setOtpError (Some (describe e)))))
              (on_ui (setOtpRequesting true) (on_ui (setOtpError None) w)))).
Proof.
  intros Ho Hr Hf Ha. unfold submitOtp.
  apply String.eqb_neq in Ho. rewrite Ho, Hr, Hf, Ha. cbn [negb].
  unfold finally. by destruct (try_catch _ _ _).
Qed.

(** [submitOtp] stopped by one of its checks. *)
Lemma submitOtp_checked otp_reply token_reply buy_reply w :
  (otpValue (ui w) = "" \/ truthy (otpResponse (ui w)) = false
   \/ truthy (flowId_lookup (otpResponse (ui w))) = false
   \/ truthy (authenticatorId_lookup (otpResponse (ui w))) = false) ->
  let w' := submitOtp C API_CONFIG otp_reply token_reply buy_reply w in
  network w' = network w /\ tokens (ui w') = tokens (ui w) /\ session w' = session w
  /\ purchaseSuccess (ui w') = purchaseSuccess (ui w)
  /\ otpError (ui w') <> None.
Proof.
  intros H. cbv zeta. unfold submitOtp.
  destruct (String.eqb (otpValue (ui w)) "") eqn:Eo; [cbn; repeat split; discriminate|].
  destruct (truthy (otpResponse (ui w))) eqn:Er; cbn [negb];
    [|cbn; repeat split; discriminate].
  destruct (truthy (flowId_lookup _)) eqn:Ef; cbn [negb];
    [|cbn; repeat split; discriminate].
  destruct (truthy (authenticatorId_lookup _)) eqn:Ea; cbn [negb];
    [|cbn; repeat split; discriminate].
  apply String.eqb_neq in Eo. destruct H as [H|[H|[H|H]]]; congruence.
Qed.

Lemma checks_decided w :
  (otpValue (ui w) <> "" /\ truthy (otpResponse (ui w)) = true
   /\ truthy (flowId_lookup (otpResponse (ui w))) = true
   /\ truthy (authenticatorId_lookup (otpResponse (ui w))) = true)
  \/ (otpValue (ui w) = "" \/ truthy (otpResponse (ui w)) = false
      \/ truthy (flowId_lookup (otpResponse (ui w))) = false
      \/ truthy (authenticatorId_lookup (otpResponse (ui w))) = false).
Proof.
  destruct (String.eqb (otpValue (ui w)) "") eqn:Eo;
    [apply String.eqb_eq in Eo; auto|apply String.eqb_neq in Eo].
  destruct (truthy (otpResponse (ui w))); [|auto].
  destruct (truthy (flowId_lookup _)); [|auto 6].
  destruct (truthy (authenticatorId_lookup _)); auto 7.
Qed.


Lemma try_not_accepted c f a otp_reply token_reply buy_reply w0 :
  (forall res, otp_reply = Resolved res -> ok res = false) ->
  let w1 := fst (try_catch
                   (submitOtp_try C API_CONFIG c f a otp_reply token_reply buy_reply)
                   (fun e => act (on_ui (setOtpError (Some (describe e))))) w0) in
  network w1 = (network w0 ++ [authn_request (otpResponse c) f a (otpValue c)])%list
  /\ tokens (ui w1) = tokens (ui w0) /\ session w1 = session w0
  /\ purchaseSuccess (ui w1) = purchaseSuccess (ui w0)
  /\ otpError (ui w1) <> None.
Proof.
  intros H. cbv zeta. unfold submitOtp_try, try_catch, bind, fetch, act, throw.
  destruct otp_reply as [e|res]; cbn; [repeat split; discriminate|].
  rewrite (H res eq_refl). cbn. repeat split; discriminate.
Qed.

Lemma stepup_refused authCode token_reply w :
  granted token_reply = None ->
  exists e, stepup_exchange C authCode token_reply w
            = (send (stepup_token_request C authCode) w, Throw e).
Proof.
  intros H. unfold stepup_exchange, try_catch, bind, fetch, throw, act.
  destruct token_reply as [e|res]; cbn; [eauto|].
  unfold granted in H. destruct (ok res); cbn; [|eauto].
  destruct (Http.json false res) as [v|]; cbn; [|eauto].
  destruct (truthy v); cbn; [discriminate|eauto].
Qed.

Lemma try_exchange_refused c f a res token_reply buy_reply w0 :
  ok res = true ->
  completes (or_default Null (Http.json false res)) = true ->
  granted token_reply = None ->
  let w1 := fst (try_catch
                   (submitOtp_try C API_CONFIG c f a (Resolved res) token_reply buy_reply)
                   (fun e => act (on_ui (setOtpError (Some (describe e))))) w0) in
  network w1
  = (network w0
     ++ [ authn_request (otpResponse c) f a (otpValue c);
          stepup_token_request C
            (oprop "code" (oprop "authData" (or_default Null (Http.json false res)))) ])%list
  /\ tokens (ui w1) = tokens (ui w0) /\ session w1 = session w0
  /\ purchaseSuccess (ui w1) = purchaseSuccess (ui w0)
  /\ otpVisible (ui w1) = otpVisible (ui w0)
  /\ otpError (ui w1) <> None.
Proof.
  intros Hok Hgo Hno. cbv zeta.
  unfold submitOtp_try, try_catch, bind, fetch, act. cbn [fst snd].
  rewrite Hok. cbn [negb]. unfold completes in Hgo. rewrite Hgo.
  match goal with
  | |- context [stepup_exchange C ?code token_reply ?w] =>
      destruct (stepup_refused code token_reply w Hno) as (e & ->)
  end.
  cbn. rewrite <- app_assoc. repeat split; discriminate.
Qed.

Lemma try_without_exchange c f a res token_reply buy_reply w0 b :
  ok res = true ->
  completes (or_default Null (Http.json false res)) = false ->
  bearer_of (tokens c) = Ok b -> truthy b = true ->
  truthy (selectedVehicle c) = true -> truthy (quote c) = true ->
  let w1 := fst (try_catch
                   (submitOtp_try C API_CONFIG c f a (Resolved res) token_reply buy_reply)
                   (fun e => act (on_ui (setOtpError (Some (describe e))))) w0) in
  network w1
  = (network w0
     ++ [ authn_request (otpResponse c) f a (otpValue c);
          buy_request API_CONFIG (selectedVehicle c) (quote c) b ])%list
  /\ tokens (ui w1) = tokens (ui w0) /\ session w1 = session w0
  /\ otpVisible (ui w1) = false.
Proof.
  intros Hok Hgo Hb Ht Hv Hq. cbv zeta.
  unfold submitOtp_try, try_catch, bind, fetch, act, ret. cbn [fst snd].
  rewrite Hok. cbn [negb]. unfold completes in Hgo. rewrite Hgo.
  unfold purchase. rewrite Hb, Ht, Hv, Hq. cbn [negb orb].
  unfold bind, fetch, throw, act.
  destruct buy_reply as [e|r1]; cbn; [by rewrite <- app_assoc|].
  destruct (negb (ok r1)); cbn; [by rewrite <- app_assoc|].
  destruct (negb (truthy _)); cbn; [by rewrite <- app_assoc|].
  destruct (updated_vehicles _ _ _); cbn; by rewrite <- app_assoc.
Qed.

End Facts.
End OtpFacts.

Module WiringFacts.
Import App Http Props Terms.
Import SubmitFacts JsFacts StepUpFacts RoomFacts.
Section Facts.
Variable C : oidc_config.
Variable API_CONFIG : Api.api_config.

Lemma or_else_truthy a b : truthy a = true -> a ||| b = a.
Proof. unfold or_else. by intros ->. Qed.

Lemma normalized_lookups res f a h :
  truthy f = true -> truthy a = true ->
  flowId_lookup (normalize res f a h) = f
  /\ authenticatorId_lookup (normalize res f a h) = a
  /\ oprop "authnHref" (normalize res f a h) = h.
Proof.
  intros Hf Ha. unfold flowId_lookup, authenticatorId_lookup, normalize.
  cbn [prop oprop nullish]. rewrite !lookup_set_field. cbn [String.eqb Ascii.eqb Bool.eqb].
  rewrite !(or_else_truthy f) by (rewrite ?truthy_or_else, ?Hf; reflexivity).
  rewrite !(or_else_truthy a) by (rewrite ?truthy_or_else, ?Ha; reflexivity).
  auto.
Qed.

(** Whatever the replies, the first request of the [try] block is the OTP
    submission. *)
Lemma try_opens c f a otp_reply token_reply buy_reply w0 :
  exists after,
    network (fst (try_catch
                    (submitOtp_try C API_CONFIG c f a otp_reply token_reply buy_reply)
                    (fun e => act (on_ui (setOtpError (Some (describe e))))) w0))
    = (network w0 ++ authn_request (otpResponse c) f a (otpValue c) :: after)%list.
Proof.
  unfold submitOtp_try, try_catch, bind, fetch, act, ret, throw. cbn [fst snd].
  destruct otp_reply as [e|res]; [by exists []|].
  destruct (negb (ok res)); [by exists []|].
  set (w1 := on_ui _ (send _ w0)).
  assert (network w1 = (network w0 ++ [authn_request (otpResponse c) f a (otpValue c)])%list)
    as H1 by reflexivity.
  clearbody w1.
  assert (forall w2, exists more,
            network (fst (purchase API_CONFIG c buy_reply w2)) = (network w2 ++ more)%list)
    as Hp.
  { intros w2. destruct (purchase_effect API_CONFIG c buy_reply w2)
      as ([->|(b & _ & ->)] & _); [exists []; by rewrite app_nil_r|eauto]. }
  destruct (strict_equal _ _ && truthy _).
  - pose proof (stepup_exchange_effect C
                  (oprop "code" (oprop "authData" (or_default Null (Http.json false res))))
                  token_reply w1) as Hx.
    cbv zeta in Hx.
    destruct (stepup_exchange C _ token_reply w1) as [w2 [[]|e]]; cbn [fst] in Hx.
    + match goal with
      | |- context [purchase API_CONFIG c buy_reply ?w3] =>
          destruct (Hp w3) as (more & Hm);
          destruct (purchase API_CONFIG c buy_reply w3) as [w4 [[]|e]]
      end; cbn [fst snd on_ui network ui] in *;
        rewrite Hm, Hx, H1, <- !app_assoc; cbn; eauto.
    + cbn [fst snd on_ui network ui]. rewrite Hx, H1, <- !app_assoc. cbn. eauto.
  - match goal with
    | |- context [purchase API_CONFIG c buy_reply ?w3] =>
        destruct (Hp w3) as (more & Hm);
        destruct (purchase API_CONFIG c buy_reply w3) as [w4 [[]|e]]
    end; cbn [fst snd on_ui network ui] in *;
      rewrite Hm, H1, <- !app_assoc; cbn; eauto.
Qed.

End Facts.
End WiringFacts.

Module NameFacts.
Import App Http Props Terms.
Section Facts.
Variable C : oidc_config.

(** The request of [emailOtpFlow] is sent whatever it is answered. *)
Lemma emailOtpFlow_network clientId snapshot reply w :
  network (fst (emailOtpFlow C clientId snapshot reply w))
  = network (fst (emailOtpFlow C clientId snapshot (Rejected (Error "")) w)).
Proof.
  unfold emailOtpFlow, bind, fetch, throw, ret. cbv zeta.
  destruct reply as [e|res]; cbn [fst network send]; [reflexivity|].
  destruct (negb (ok res)); [destruct (Http.text false res); reflexivity|].
  destruct (content res) as [t|]; [|reflexivity].
  destruct (JSON_parse t); reflexivity.
Qed.

End Facts.
End NameFacts.

Module ChatFacts.
Import App Http Props Terms.
Import App Http Props RoomFacts.

Lemma prompt_text_parses prompt :
  exists body,
    JSON_stringify (Obj [ ("prompt", Str prompt) ]) = Some body
    /\ JSON_parse body = Some (Obj [ ("prompt", Str prompt) ]).
Proof.
  assert (serializable (Obj [ ("prompt", Str prompt) ])) as Hs.
  { cbn. repeat split. apply NoDup_cons. split; [apply not_elem_of_nil|apply NoDup_nil_2]. }
  destruct (text_parses _ Hs) as (Ht & _ & Hp). eauto.
Qed.

Lemma answer_message_nonempty clock reply err :
  Chat.answer clock reply = Throw err ->
  (if String.eqb (emessage err) "" then "Failed to send message" else emessage err) <> "".
Proof.
  intros _. destruct (String.eqb (emessage err) "") eqn:E; [discriminate|].
  by apply String.eqb_neq.
Qed.

End ChatFacts.

Module LosslessFacts.
Import App Http Props Terms.
Import Pkce Props Terms CodecFacts.
Section Facts.
Local Arguments String.append !_ _ / : simpl nomatch.

Lemma binary_injective a b : binary a = binary b -> a = b.
Proof.
  unfold binary. revert b.
  induction a as [|x a IH]; intros [|y b]; cbn [map string_of_list_ascii];
    try discriminate; [reflexivity|].
  intros [= Hxy Hab]. f_equal; [|by apply IH].
  apply (f_equal N_of_ascii) in Hxy.
  assert (forall z, (Byte.to_N z < 256)%N) as B by (intros z; destruct z; reflexivity).
  rewrite !N_ascii_embedding in Hxy by apply B.
  assert (forall z, byte_of_N (Byte.to_N z) = z) as E by (intros z; destruct z; reflexivity).
  by rewrite <- (E x), <- (E y), Hxy.
Qed.

Lemma every_app p a b : every p (a ++ b) = every p a && every p b.
Proof.
  induction a as [|c a IH]; cbn [every String.append]; [reflexivity|].
  by rewrite IH, andb_assoc.
Qed.

Lemma encode_byte_inert b : every query_inert (Url.encode_byte b) = true.
Proof. destruct b; reflexivity. Qed.

Lemma encode_bytes_inert bs : every query_inert (Url.encode_bytes bs) = true.
Proof.
  induction bs as [|b bs IH]; cbn [Url.encode_bytes]; [reflexivity|].
  by rewrite every_app, encode_byte_inert, IH.
Qed.

End Facts.
End LosslessFacts.

Module PolicyFacts.
Import App Http Props Terms.
Import JsFacts.
Section Facts.

Lemma replace_vehicle_map selectedVehicle updatedVehicle l :
  Forall (fun v => nullish v = false) l ->
  replace_vehicle selectedVehicle updatedVehicle l
  = Ok (map (fun v => if strict_equal (prop "vehicleId" v) (prop "vehicleId" selectedVehicle)
                      then updatedVehicle else v) l).
Proof.
  induction 1 as [|v l Hv _ IH]; cbn [replace_vehicle map]; [reflexivity|].
  by rewrite Hv, IH.
Qed.

(** The vehicle a policy has been bought for. *)
Lemma insured_fields selectedVehicle policyResponse :
  let updated := insured selectedVehicle policyResponse in
  prop "isInsured" (prop "insuranceStatus" updated) = Bool true
  /\ prop "policyId" (prop "insuranceStatus" updated)
     = prop "policyNumber" policyResponse ||| prop "id" policyResponse
  /\ prop "insuredUntil" (prop "insuranceStatus" updated) = prop "endDate" policyResponse
  /\ prop "canGetQuote" (prop "actionsAvailable" updated) = Bool false
  /\ prop "canViewPolicy" (prop "actionsAvailable" updated) = Bool true
  /\ prop "vehicleId" updated = oprop "vehicleId" selectedVehicle
  /\ nullish updated = false.
Proof.
  cbv zeta. unfold insured. cbn [prop nullish].
  rewrite !lookup_set_field. cbn [String.eqb Ascii.eqb Bool.eqb lookup_field prop].
  rewrite ?lookup_set_field. cbn [String.eqb Ascii.eqb Bool.eqb lookup_field prop].
  repeat split. apply lookup_spread. cbn. lia.
Qed.

End Facts.
End PolicyFacts.

Module ParsedFacts.
Import App Http Props Terms.
Import App Http Props Terms ValueFacts ObjectFacts.
Section Facts.

Lemma set_field_keys k v (fs : list (string * value)) :
  k ∈ map fst fs -> map fst (set_field k v fs) = map fst fs.
Proof.
  induction fs as [|[k' v'] fs IH]; cbn; [by intros ?%elem_of_nil|].
  destruct (String.eqb k' k) eqn:E; [reflexivity|].
  intros [->|Hin]%elem_of_cons; [by rewrite String.eqb_refl in E|].
  cbn. by rewrite IH.
Qed.

Lemma set_field_values k v (fs : list (string * value)) :
  Forall (fun kv => serializable (snd kv)) fs -> serializable v ->
  Forall (fun kv => serializable (snd kv)) (set_field k v fs).
Proof.
  intros Hfs Hv. induction Hfs as [|[k' v'] fs Hx Hfs IH]; cbn.
  - by constructor.
  - destruct (String.eqb k' k); constructor; auto.
Qed.

Lemma set_field_NoDup k v (fs : list (string * value)) :
  NoDup (map fst fs) -> NoDup (map fst (set_field k v fs)).
Proof.
  intros Hnd. destruct (decide (k ∈ map fst fs)) as [Hin|Hout].
  - by rewrite set_field_keys.
  - rewrite set_field_fresh by exact Hout. rewrite map_app. cbn.
    apply NoDup_app. split; [exact Hnd|]. split.
    + intros x Hx ->%list_elem_of_singleton. by apply Hout.
    + apply NoDup_singleton.
Qed.

Lemma define_all_serializable ms :
  Forall (fun kv => serializable (snd kv)) ms -> serializable (Obj (define_all ms)).
Proof.
  intros Hms. apply serializable_Obj. unfold define_all.
  assert (forall acc,
            NoDup (map fst acc) /\ Forall (fun kv => serializable (snd kv)) acc ->
            NoDup (map fst (fold_left (fun a kv => set_field (fst kv) (snd kv) a) ms acc))
            /\ Forall (fun kv => serializable (snd kv))
                 (fold_left (fun a kv => set_field (fst kv) (snd kv) a) ms acc)) as H.
  { induction Hms as [|[k v] ms Hv _ IH]; intros acc (Hn & Hf); cbn [fold_left]; [auto|].
    apply IH. split; [by apply set_field_NoDup|by apply set_field_values]. }
  apply H. split; [apply NoDup_nil_2|constructor].
Qed.

Lemma parse_elems_sound pv n :
  sound pv -> forall s vs rest, parse_elems pv n s = Some (vs, rest) -> Forall serializable vs.
Proof.
  intros Hpv. induction n as [|n IH]; intros s vs rest; cbn [parse_elems]; [discriminate|].
  destruct (pv s) as [[v s1]|] eqn:Ev; [|discriminate].
  destruct (skip_ws s1) as [|d s2]; [discriminate|].
  destruct (Ascii.eqb d ",").
  - destruct (parse_elems pv n s2) as [[vs' s3]|] eqn:Er; [|discriminate].
    intros [= <- <-]. constructor; [by eapply Hpv|by eapply IH].
  - destruct (Ascii.eqb d "]"); [|discriminate].
    intros [= <- <-]. constructor; [by eapply Hpv|constructor].
Qed.

Lemma parse_members_sound pv n :
  sound pv ->
  forall s ms rest, parse_members pv n s = Some (ms, rest) ->
                    Forall (fun kv => serializable (snd kv)) ms.
Proof.
  intros Hpv. induction n as [|n IH]; intros s ms rest; cbn [parse_members]; [discriminate|].
  destruct (skip_ws s) as [|q s0]; [discriminate|].
  destruct (Ascii.eqb q dquote); [|discriminate].
  destruct (parse_chars s0) as [[k s1]|]; [|discriminate].
  destruct (skip_ws s1) as [|col s2]; [discriminate|].
  destruct (Ascii.eqb col ":"); [|discriminate].
  destruct (pv s2) as [[v s3]|] eqn:Ev; [|discriminate].
  destruct (skip_ws s3) as [|d s4]; [discriminate|].
  destruct (Ascii.eqb d ",").
  - destruct (parse_members pv n s4) as [[ms' s5]|] eqn:Er; [|discriminate].
    intros [= <- <-]. constructor; [by eapply Hpv|by eapply IH].
  - destruct (Ascii.eqb d "}"); [|discriminate].
    intros [= <- <-]. constructor; [by eapply Hpv|constructor].
Qed.

Lemma parse_value_sound fuel : sound (parse_value fuel).
Proof.
  induction fuel as [|f IH]; intros s v rest; cbn [parse_value]; [discriminate|].
  destruct (skip_ws s) as [|c r]; [discriminate|].
  unfold literal, parse_number.
  repeat case_match; try discriminate; intros [= <- <-]; try exact I.
  all: try (apply serializable_Arr;
            first [ eapply parse_elems_sound; [exact IH|eassumption] | by constructor ]).
  all: try (apply define_all_serializable;
            eapply parse_members_sound; [exact IH|eassumption]).
  all: apply serializable_Obj; split; [apply NoDup_nil_2|constructor].
Qed.

(** What [JSON.parse] returns, [JSON.stringify] writes in full. *)
Lemma JSON_parse_serializable text v : JSON_parse text = Some v -> serializable v.
Proof.
  unfold JSON_parse.
  destruct (parse_value _ text) as [[x rest]|] eqn:E; [|discriminate].
  destruct (skip_ws rest); [|discriminate].
  intros [= <-]. by eapply parse_value_sound.
Qed.

End Facts.
End ParsedFacts.

Module BackendFacts.
Import App Http Props Terms.
Import App Http Props Terms RoomFacts ParsedFacts.
Section Facts.
Local Arguments String.append !_ _ / : simpl nomatch.

Lemma lower_unit_twice c : Backend.lower_unit (Backend.lower_unit c) = Backend.lower_unit c.
Proof. destruct c as [[] [] [] [] [] [] [] []]; reflexivity. Qed.

Lemma toLowerCase_twice s :
  Backend.toLowerCase (Backend.toLowerCase s) = Backend.toLowerCase s.
Proof.
  induction s as [|c s IH]; cbn [Backend.toLowerCase]; [reflexivity|].
  by rewrite lower_unit_twice, IH.
Qed.

Lemma toLowerCase_app a b :
  Backend.toLowerCase (a ++ b) = Backend.toLowerCase a ++ Backend.toLowerCase b.
Proof.
  induction a as [|c a IH]; cbn [Backend.toLowerCase String.append]; [reflexivity|].
  by rewrite IH.
Qed.

Lemma startsWith_app p s t : Backend.startsWith p s = true -> Backend.startsWith p (s ++ t) = true.
Proof.
  revert s. induction p as [|a p IH]; intros [|b s]; cbn [Backend.startsWith String.append];
    try done.
  intros (-> & H)%andb_prop. cbn. by apply IH.
Qed.

Lemma includes_after k s t : Backend.includes k s = true -> Backend.includes k (s ++ t) = true.
Proof.
  induction s as [|c s IH]; cbn [Backend.includes String.append].
  - rewrite orb_false_r. intros H. destruct k; [|discriminate].
    destruct t; reflexivity.
  - intros [H|H]%orb_prop.
    + apply orb_true_iff. left. by apply (startsWith_app k (String c s) t).
    + apply orb_true_iff. right. by apply IH.
Qed.

Lemma includes_before k s t : Backend.includes k t = true -> Backend.includes k (s ++ t) = true.
Proof.
  induction s as [|c s IH]; cbn [Backend.includes String.append]; [done|].
  intros H. apply orb_true_iff. right. by apply IH.
Qed.

Lemma includes_within k a s b :
  Backend.includes k s = true -> Backend.includes k (a ++ s ++ b) = true.
Proof. intros H. by apply includes_before, includes_after. Qed.

(** A text that includes a word includes what the word begins with. *)
Lemma startsWith_shorter p q s :
  Backend.startsWith (p ++ q) s = true -> Backend.startsWith p s = true.
Proof.
  revert s. induction p as [|a p IH]; intros s; cbn [String.append Backend.startsWith];
    [by destruct s|].
  destruct s as [|b s]; [done|]. intros (-> & H)%andb_prop. cbn. by apply IH.
Qed.

Lemma includes_shorter p q s :
  Backend.includes (p ++ q) s = true -> Backend.includes p s = true.
Proof.
  induction s as [|c s IH]; cbn [Backend.includes].
  - rewrite !orb_false_r. apply startsWith_shorter.
  - intros [H|H]%orb_prop; apply orb_true_iff;
      [left; by eapply startsWith_shorter|right; by apply IH].
Qed.

(** The bodies the handler answers with are written in full. *)
Lemma reply_serializable g body authorization mcp :
  serializable (snd (fst (Backend.chat g body authorization mcp))).
Proof.
  assert (forall e, serializable (snd (Backend.failed e))) as Hf.
  { intros e. cbn. repeat split. apply (bool_decide_unpack _). vm_compute. exact I. }
  assert (forall s, serializable (Obj [ ("error", Str s) ])) as He.
  { intros s. cbn. repeat split.
    apply NoDup_cons. split; [apply not_elem_of_nil|apply NoDup_nil_2]. }
  assert (serializable (Backend.policy_data mcp)) as Hd.
  { unfold Backend.policy_data. repeat case_match; try exact I.
    by eapply JSON_parse_serializable. }
  unfold Backend.chat. repeat case_match; cbn [fst snd]; try apply Hf; try apply He.
  all: apply ValueFacts.serializable_Obj; split;
    [apply (bool_decide_unpack _); vm_compute; exact I|].
  all: repeat constructor; cbn [snd]; unfold or_else; repeat case_match; try exact I;
    try exact Hd.
Qed.

Lemma respond_read r :
  serializable (snd r) -> Chat.read_json (Backend.respond r) = Ok (snd r).
Proof.
  intros Hs. destruct (text_parses (snd r) Hs) as (Ht & _ & Hp).
  unfold Chat.read_json, Backend.respond. cbn [Http.content]. by rewrite Ht, Hp.
Qed.


(** The four answers of the handler. *)
Lemma reply_shape g body authorization mcp :
  let r := fst (Backend.chat g body authorization mcp) in
  r = (400, Obj [ ("error", Str "prompt is required") ])
  \/ r = (401, Obj [ ("error", Str "Missing or invalid Authorization header") ])
  \/ (exists e, r = Backend.failed e)
  \/ (exists text had data,
        r = (200, Obj [ ("response", Str text); ("hadPolicyInfo", Bool had);
                        ("policyInfoData", data) ])).
Proof.
  cbv zeta. unfold Backend.chat. repeat case_match; cbn [fst]; eauto 8.
Qed.

End Facts.
End BackendFacts.


(* ===================================================================== *)
(** * The properties of the specification *)
(* ===================================================================== *)

Import App Http Props.

(** ** Redirect landing *)

(** C1 (amended). Over every schedule of landing invocations with the same
    URL parameters, continuations and page reloads, at most one
    token-exchange call is added, and once it has been added the used-code
    marker of the pair is in the storage. When the first invocation passes
    the guards (code and state present, state equal to the pending one,
    pair not yet marked, no exchange in flight, marker writable, verifier
    stored), exactly one call is added whatever follows: the marker is
    stored by that invocation, together with the request and before any
    reply, and every later invocation with these parameters changes
    nothing. *)
Theorem landing_exchanges_at_most_once (C : oidc_config)
    (q : list (string * string)) (p : page) (evs : list event) :
  token_exchanges C (now (run C q evs p)) <= token_exchanges C (now p) + 1
  /\ (token_exchanges C (now (run C q evs p)) = token_exchanges C (now p) + 1 ->
      exists state code,
        params_get "code" q = Some code /\ params_get "state" q = Some state
        /\ marked state code (now (run C q evs p)))
  /\ (forall state code,
        ready q state code (now p) ->
        token_exchanges C (now (run C q (Invoke :: evs) p))
        = token_exchanges C (now p) + 1
        /\ token_exchanges C (now (step C q p Invoke)) = token_exchanges C (now p) + 1
        /\ marked state code (now (step C q p Invoke))
        /\ landing_effect C (set_search q (now (run C q (Invoke :: evs) p)))
           = (set_search q (now (run C q (Invoke :: evs) p)), Ok None)).
Proof.
  pose proof (LandingFacts.once_run C q (token_exchanges C (now p)) evs p
                (or_introl eq_refl)) as Hrun.
  split; [destruct Hrun as [->|[-> _]]; lia|].
  split.
  { intros Heq. destruct Hrun as [Hn|[_ Hm]]; [lia|exact Hm]. }
  intros state code (Hc & Hs & Hce & Hse & Hst & Hfree & Href & (st & Hset) & Hver).
  assert (Hfirst : spent C q (token_exchanges C (now p)) (now (step C q p Invoke))).
  { rewrite LandingFacts.step_invoke_now.
    eapply LandingFacts.landing_effect_ready; eauto.
    rewrite (StorageFacts.loadSession_setItem_other _ _ _ _
               ("pkce_verifier:" ++ state) Null
               (LandingFacts.usedKey_not_verifier _ _ _) Hset).
    rewrite (StorageFacts.loadSession_setItem_other _ _ _ _ "pkce_verifier" Null
               (LandingFacts.usedKey_not_legacy _ _) Hset).
    exact Hver. }
  pose proof (LandingFacts.spent_run C q _ evs _ Hfirst)
    as (Hn & state' & code' & Hc' & Hs' & Hm).
  assert (state' = state) as -> by congruence.
  assert (code' = code) as -> by congruence.
  destruct Hfirst as (Hn1 & state' & code' & Hc1 & Hs1 & Hm1).
  assert (state' = state) as -> by congruence.
  assert (code' = code) as -> by congruence.
  change (run C q (Invoke :: evs) p) with (run C q evs (step C q p Invoke)).
  repeat split; try assumption.
  apply (LandingFacts.landing_effect_marked C _ state code); auto.
Qed.

Lemma landing_exchanges_at_most_once_witness :
  ready (Demo.query "code-1") Demo.state0 "code-1" Demo.landed
  /\ token_exchanges Demo.config
       (now (run Demo.config (Demo.query "code-1")
               [Invoke; Invoke; Resume (Demo.json_reply 200 Demo.login_tokens);
                Reload; Invoke]
               {| now := Demo.landed; pending := [] |}))
     = token_exchanges Demo.config Demo.landed + 1.
Proof.
  assert (Hready : ready (Demo.query "code-1") Demo.state0 "code-1" Demo.landed).
  { unfold ready.
    split; [reflexivity|]. split; [reflexivity|].
    split; [discriminate|]. split; [vm_compute; discriminate|].
    split; [vm_compute; reflexivity|]. split; [vm_compute; reflexivity|].
    split; [reflexivity|].
    split; [eexists; vm_compute; reflexivity|]. vm_compute. reflexivity. }
  split; [exact Hready|].
  destruct (landing_exchanges_at_most_once Demo.config (Demo.query "code-1")
              {| now := Demo.landed; pending := [] |}
              [Invoke; Resume (Demo.json_reply 200 Demo.login_tokens); Reload; Invoke])
    as (_ & _ & Hexact).
  destruct (Hexact Demo.state0 "code-1" Hready) as (Hcalls & _).
  exact Hcalls.
Defined.

(** C1, as stated, fails: after a completed sign-in the pending state is
    still stored but the verifier is gone, so a landing with that state and
    another code passes the state check, marks the pair and sends nothing,
    twice as well as once. *)
Lemma landing_twice_without_verifier_sends_nothing :
  loadSession "pkce_state" Null (session Demo.signed_in) = Str Demo.state0
  /\ token_exchanges Demo.config
       (now (run Demo.config (Demo.query "code-2") [Invoke; Invoke]
               {| now := Demo.signed_in; pending := [] |}))
     = token_exchanges Demo.config Demo.signed_in
  /\ error (ui (now (run Demo.config (Demo.query "code-2") [Invoke; Invoke]
                       {| now := Demo.signed_in; pending := [] |})))
     = "Missing PKCE verifier. Please sign in again.".
Proof. vm_compute. auto. Qed.

(** C5. A landing whose [code] or [state] parameter is missing, or whose
    [state] is not the stored pending state, leaves the page as it is and
    returns normally: no request, no error message, nothing thrown. *)
Theorem landing_mismatch_is_silent (C : oidc_config) (w : world) :
  params_get "code" (search w) = None
  \/ params_get "state" (search w) = None
  \/ (forall state, params_get "state" (search w) = Some state ->
                    loadSession "pkce_state" Null (session w) <> Str state) ->
  landing_effect C w = (w, Ok None)
  /\ token_exchanges C (fst (landing_effect C w)) = token_exchanges C w
  /\ error (ui (fst (landing_effect C w))) = error (ui w).
Proof.
  intros H.
  assert (landing_effect C w = (w, Ok None)) as ->; [|auto].
  unfold landing_effect.
  destruct (params_get "code" (search w)) as [code|]; [|reflexivity].
  destruct (params_get "state" (search w)) as [state|]; [|reflexivity].
  destruct H as [[=]|[[=]|H]].
  specialize (H state eq_refl).
  destruct (strict_equal (Str state) _) eqn:E.
  - apply LandingFacts.strict_equal_Str in E. contradiction.
  - rewrite orb_true_r. reflexivity.
Qed.

Lemma landing_mismatch_is_silent_witness :
  landing_effect Demo.config
    (set_search [("code", "code-1"); ("state", "someone-else")] Demo.landed)
  = (set_search [("code", "code-1"); ("state", "someone-else")] Demo.landed, Ok None).
Proof.
  apply (landing_mismatch_is_silent Demo.config
           (set_search [("code", "code-1"); ("state", "someone-else")] Demo.landed)).
  right. right. intros state [= <-]. vm_compute. discriminate.
Defined.

(** ** Code exchange *)

(** C6. When the token endpoint answers with a status outside 200..299, the
    exchange ends with the error message made of that status and the
    response body, and the token set is untouched, in the component as in
    the storage. This holds for the exchange after the redirect and for
    the one that follows a completed step-up. *)
Theorem exchange_failure_keeps_tokens (C : oidc_config) (x : exchange)
    (authCode : value) (res : response) (w : world) :
  ok res = false ->
  let body := match content res with
              | Some body => body
              | None => ""
              end in
  let w' := landing_resume (AwaitToken x) (Resolved res) w in
  let w2 := stepup_exchange C authCode (Resolved res) w in
  (error (ui w')
   = "Token exchange failed (" ++ status_text (status res) ++ "). "
     ++ (if String.eqb body "" then "See Network tab." else body)
   /\ tokens (ui w') = tokens (ui w)
   /\ session w' = session w
   /\ loadSession "tokens" Null (session w') = loadSession "tokens" Null (session w))
  /\ (snd w2
      = Throw (Error ("Post-OTP token exchange error: "
                      ++ "Token exchange (CLIENT_ID2) failed ("
                      ++ status_text (status res) ++ "). " ++ body))
      /\ tokens (ui (fst w2)) = tokens (ui w)
      /\ session (fst w2) = session w).
Proof.
  intros Hok. cbn zeta. split.
  - cbn. unfold exchange_finish. rewrite Hok. cbn.
    unfold Http.text. destruct (content res) as [body|]; cbn; auto.
  - unfold stepup_exchange, try_catch, bind, fetch, throw. cbn [fst snd].
    rewrite Hok. cbn [negb].
    unfold Http.text, describe, Error. cbn [emessage ename].
    destruct (content res) as [body|]; cbn [or_default]; auto.
Qed.

Lemma exchange_failure_keeps_tokens_witness :
  let w' := landing_resume
              (AwaitToken {| ex_state := Some Demo.state0;
                             ex_client := Str (CLIENT_ID Demo.config) |})
              (Demo.json_reply 400 Demo.invalid_grant) Demo.signed_in in
  error (ui w')
  = "Token exchange failed (400). " ++ text_of Demo.invalid_grant
  /\ tokens (ui w') = tokens (ui Demo.signed_in)
  /\ session w' = session Demo.signed_in.
Proof.
  destruct (exchange_failure_keeps_tokens Demo.config
              {| ex_state := Some Demo.state0; ex_client := Str (CLIENT_ID Demo.config) |}
              (Str "stepup-code")
              {| status := 400; content := JSON_stringify Demo.invalid_grant |}
              Demo.signed_in eq_refl) as ((He & Ht & Hs & _) & _).
  cbn zeta. split; [exact He|]. split; [exact Ht|exact Hs].
Defined.





(** ** Step-up *)







(** C2. The code at the failing input: the step-up completes, the new
    token set (access token [AT-stepup]) is stored in the component and in
    the storage, and the purchase request that follows is sent with the
    access token of the token set the handler was created with
    ([AT-login]). *)
Theorem purchase_after_stepup_sends_old_token :
  let w' := submitOtp Demo.config Demo.api (Demo.json_reply 200 Demo.otp_completed)
              (Demo.json_reply 200 Demo.stepup_tokens) (Demo.json_reply 200 Demo.policy)
              Demo.otp_entered in
  prop "access_token" (tokens (ui Demo.otp_entered)) = Str "AT-login"
  /\ prop "access_token" (tokens (ui w')) = Str "AT-stepup"
  /\ prop "access_token" (loadSession "tokens" Null (session w')) = Str "AT-stepup"
  /\ purchaseSuccess (ui w') = true
  /\ last (network w')
     = Some (buy_request Demo.api (selectedVehicle (ui Demo.otp_entered))
               (quote (ui Demo.otp_entered)) (Str "AT-login"))
  /\ (forall req, last (network w') = Some req ->
        params_get "Authorization" (headers req) = Some "Bearer AT-login").
Proof.
  vm_compute. repeat split. intros req [= <-]. reflexivity.
Qed.

(** ** Challenge *)

(** C8. For every verifier of at least 43 characters, the challenge the
    application computes ([sha256], i.e. [base64UrlEncode] of the SHA-256
    digest of the verifier's UTF-8 bytes) is the unpadded base64url
    encoding of that digest, and contains none of [+], [/], [=]. *)
Theorem challenge_is_base64url_of_digest (verifier : string) :
  43 <= String.length verifier ->
  Pkce.sha256 verifier = Pkce.challengeFor_spec verifier
  /\ Pkce.mentions "+" (Pkce.sha256 verifier) = false
  /\ Pkce.mentions "/" (Pkce.sha256 verifier) = false
  /\ Pkce.mentions "=" (Pkce.sha256 verifier) = false.
Proof.
  intros _. unfold Pkce.sha256, Pkce.challengeFor_spec.
  rewrite PkceFacts.base64UrlEncode_spec.
  split; [reflexivity|]. apply PkceFacts.base64url_alphabet_only.
Qed.

Lemma challenge_is_base64url_of_digest_witness :
  43 <= String.length "dBjftJeZ4CVP-mB92K27uhbUJU1p1r_wW1gFWFOEjXk"
  /\ Pkce.sha256 "dBjftJeZ4CVP-mB92K27uhbUJU1p1r_wW1gFWFOEjXk"
     = "E9Melhoa2OwvFrEMTJguCHaoeK1t8URWbuGJSstw-cM"
  /\ Pkce.mentions "=" (Pkce.sha256 "dBjftJeZ4CVP-mB92K27uhbUJU1p1r_wW1gFWFOEjXk") = false.
Proof.
  split; [vm_compute; lia|].
  split; [vm_compute; reflexivity|].
  apply (challenge_is_base64url_of_digest "dBjftJeZ4CVP-mB92K27uhbUJU1p1r_wW1gFWFOEjXk").
  vm_compute. lia.
Defined.

(** ** Session store *)




(** ** Vehicles *)

(** C10. Whatever response the vehicles request receives, [fetchVehicles]
    resolves, and with an array; for a 204, a status outside 200..299, a
    body that cannot be read or is no JSON ([JSON_valid] refuses it), or
    JSON that is neither an array nor an object with an array under
    [vehicles] or [list], the array is the built-in list of three
    vehicles, which is also what a backend answering with exactly these
    three vehicles yields. *)
Theorem fetchVehicles_falls_back_to_mock (accessToken : string) (res : response) :
  (exists v, Api.fetchVehicles accessToken (Resolved res) = Ok v
             /\ Api.isArray v = true)
  /\ (status res = 204
      \/ ok res = false
      \/ (forall text, content res = Some text -> JSON_valid text = false)
      \/ (exists data, Http.json false res = Some data /\ unrecognized data) ->
      Api.fetchVehicles accessToken (Resolved res) = Ok Api.mockVehicles)
  /\ (exists a b c, Api.mockVehicles = Arr [a; b; c])
  /\ Api.fetchVehicles accessToken
       (Resolved {| status := 200; content := JSON_stringify Api.mockVehicles |})
     = Ok Api.mockVehicles.
Proof.
  unfold Api.fetchVehicles. split; [|split; [|split]].
  - repeat case_match; (eexists; split; [reflexivity|]);
      try reflexivity; try assumption.
    match goal with H : _ && _ = true |- _ => apply andb_prop in H as [_ H] end.
    assumption.
  - intros [H|[H|[H|(data & H & Hd1 & Hd2 & Hd3)]]].
    + rewrite H. reflexivity.
    + rewrite H. cbn. destruct (status res =? 204)%nat; reflexivity.
    + assert (Http.json false res = None) as ->.
      { unfold Http.json, Http.text. destruct (content res) as [text|]; [|reflexivity].
        apply GrammarFacts.JSON_invalid_refused. by apply H. }
      cbn. repeat case_match; reflexivity.
    + rewrite H, Hd1, Hd2, Hd3. rewrite andb_false_r.
      repeat case_match; reflexivity.
  - unfold Api.mockVehicles. eauto.
  - vm_compute. reflexivity.
Qed.

Lemma fetchVehicles_falls_back_to_mock_witness :
  Api.fetchVehicles "AT-login"
    (Resolved {| status := 500; content := Some "Internal Server Error" |})
  = Ok Api.mockVehicles
  /\ Api.fetchVehicles "AT-login"
       (Resolved {| status := 200; content := Some "<html>Gateway</html>" |})
     = Ok Api.mockVehicles
  /\ Api.fetchVehicles "AT-login" (Demo.json_reply 200 (Obj [ ("vehicles", Null) ]))
     = Ok Api.mockVehicles.
Proof.
  split; [|split].
  - destruct (fetchVehicles_falls_back_to_mock "AT-login"
                {| status := 500; content := Some "Internal Server Error" |})
      as (_ & Hmock & _ & _).
    apply Hmock. right. left. reflexivity.
  - destruct (fetchVehicles_falls_back_to_mock "AT-login"
                {| status := 200; content := Some "<html>Gateway</html>" |})
      as (_ & Hmock & _ & _).
    apply Hmock. right. right. left. intros text [= <-]. reflexivity.
  - destruct (fetchVehicles_falls_back_to_mock "AT-login"
                {| status := 200; content := JSON_stringify (Obj [ ("vehicles", Null) ]) |})
      as (_ & Hmock & _ & _).
    apply Hmock. right. right. right. exists (Obj [ ("vehicles", Null) ]).
    split; [vm_compute; reflexivity|]. repeat split.
Defined.

(* ===================================================================== *)
(** * Further properties of the code *)
(* ===================================================================== *)

Import App Http Props Terms Garage.

(** X1. The challenge has the size and the alphabet RFC 7636 asks for:
    whatever text is hashed, [sha256] returns 43 characters, each a letter,
    a digit, [-] or [_]. *)
Theorem challenge_has_43_url_characters (buffer : string) :
  String.length (Pkce.sha256 buffer) = 43
  /\ every base64url_char (Pkce.sha256 buffer) = true.
Proof.
  unfold Pkce.sha256. cbv zeta. rewrite PkceFacts.base64UrlEncode_spec. split.
  - rewrite CodecFacts.base64url_length, CodecFacts.digest_length. reflexivity.
  - apply CodecFacts.base64url_chars.
Qed.

(** X2. [randomString] returns exactly as many characters as asked for, all
    of them unreserved URL characters, whatever bytes the random source
    delivers. *)
Theorem randomString_length_and_alphabet (length : nat) (values : nat -> Byte.byte) :
  String.length (randomString length values) = length
  /\ every unreserved (randomString length values) = true.
Proof. apply CodecFacts.randomString_shape. Qed.

(** X3. [base64UrlEncode] loses nothing. Undoing it the way [parseJwt] does
    (the two characters restored, the padding put back, [atob]) gives the
    binary string of the bytes it was given, so two byte arrays with the
    same encoding are the same; and the encoding of [n] bytes has
    [ceil(4n/3)] characters. *)
Theorem base64UrlEncode_is_lossless (a b : list Byte.byte) :
  Jwt.atob (Jwt.pad_to_4 3
              (Pkce.replace_all "_" "/"
                 (Pkce.replace_all "-" "+" (Pkce.base64UrlEncode a))))
  = Some (binary a)
  /\ (Pkce.base64UrlEncode a = Pkce.base64UrlEncode b -> a = b)
  /\ String.length (Pkce.base64UrlEncode a) = (4 * length a + 2) / 3.
Proof.
  split; [apply CodecFacts.payload_decoded|]. split.
  - intros H. apply LosslessFacts.binary_injective.
    pose proof (CodecFacts.payload_decoded a) as Ha.
    pose proof (CodecFacts.payload_decoded b) as Hb.
    rewrite H in Ha. rewrite Ha in Hb. by injection Hb.
  - rewrite PkceFacts.base64UrlEncode_spec. apply CodecFacts.base64url_length.
Qed.

(** X4. [parseJwt] reads back the payload of a token: for a token whose
    second segment is [base64UrlEncode] of the UTF-8 bytes of an ASCII JSON
    text, it returns the value that text denotes, whatever the header
    (without a dot) and the signature are. *)
Theorem parseJwt_reads_encoded_payload (header signature : string) (v : value) :
  serializable v ->
  ascii_only (text_of v) = true ->
  Pkce.mentions "." header = false ->
  Jwt.parseJwt
    (Str (header ++ "."
          ++ Pkce.base64UrlEncode (Pkce.TextEncoder_encode (text_of v))
          ++ "." ++ signature))
  = v.
Proof. apply CodecFacts.parseJwt_reads. Qed.

Lemma parseJwt_reads_encoded_payload_witness :
  Jwt.parseJwt
    (Str ("eyJhbGciOiJub25lIn0" ++ "."
          ++ Pkce.base64UrlEncode
               (Pkce.TextEncoder_encode (text_of (Obj [ ("username", Str "alice") ])))
          ++ "." ++ "c2ln"))
  = Obj [ ("username", Str "alice") ].
Proof.
  apply (parseJwt_reads_encoded_payload "eyJhbGciOiJub25lIn0" "c2ln"
           (Obj [ ("username", Str "alice") ])).
  - cbn. repeat split. apply (bool_decide_unpack _). vm_compute. exact I.
  - reflexivity.
  - reflexivity.
Defined.

(** X5. [saveSession] touches one key only: whatever is saved under a key,
    and whether or not the write goes through, [loadSession] of any other
    key returns what it returned before. *)
Theorem saveSession_leaves_other_keys (key other : string) (value fallback : Js.value)
    (st : Storage.t) :
  other <> key ->
  loadSession other fallback (saveSession key value st) = loadSession other fallback st.
Proof. apply KeepFacts.loadSession_saveSession_other. Qed.

Lemma saveSession_leaves_other_keys_witness :
  loadSession "pkce_state" Null
    (saveSession "tokens" Demo.login_tokens (session Demo.landed))
  = loadSession "pkce_state" Null (session Demo.landed).
Proof.
  apply (saveSession_leaves_other_keys "tokens" "pkce_state" Demo.login_tokens Null
           (session Demo.landed)).
  discriminate.
Defined.

(** X6. A sign-in binds the later exchange to its challenge. When the
    storage has room, [startLogin] followed by the provider's redirect back
    with the state it sent and a code not consumed before makes the landing
    effect send one token request: for that code, with the client and the
    redirect address of the authorization request, and with a verifier
    whose [sha256] is the [code_challenge] that request carried. *)
Theorem login_binds_exchange_to_challenge (C : oidc_config) (clientId : value)
    (values1 values2 : nat -> Byte.byte) (w : world) (code : string)
    (q : list (string * string)) :
  let state := randomString 24 values2 in
  roomy (N.of_nat (217 + String.length (text_of (Str (login_client C clientId)))
                   + String.length code)) (session w) ->
  Storage.items (session w) !! usedKey state code = None ->
  code <> "" ->
  params_get "code" q = Some code ->
  params_get "state" q = Some state ->
  exists sent x w2 req,
    navigated (startLogin C clientId values1 values2 w)
    = Some (AUTHORIZATION_ENDPOINT C, sent)
    /\ params_get "state" sent = Some state
    /\ params_get "code_challenge_method" sent = Some "S256"
    /\ landing_effect C (load_page q (startLogin C clientId values1 values2 w))
       = (w2, Ok (Some (AwaitToken x)))
    /\ network w2 = (network w ++ [req])%list
    /\ is_token_exchange C req = true
    /\ form_param "code" req = Some code
    /\ (exists verifier,
          form_param "code_verifier" req = Some verifier
          /\ params_get "code_challenge" sent = Some (Pkce.sha256 verifier))
    /\ form_param "client_id" req = params_get "client_id" sent
    /\ form_param "redirect_uri" req = params_get "redirect_uri" sent.
Proof.
  intros state Hroom Hfree Hcode Hqc Hqs.
  destruct (RedirectFacts.startLogin_navigates C clientId values1 values2 w)
    as (sent & Hnav & _ & Hcl & Hru & _ & Hst & Hch & Hm).
  destruct (RedirectFacts.landing_after_login C clientId values1 values2 w code q
              Hroom Hfree Hcode Hqc Hqs) as (x & w2 & Hland & Hnet).
  exists sent, x, w2, (token_request C (Str (login_client C clientId)) code
                         (Str (randomString 64 values1))).
  split; [exact Hnav|]. split; [exact Hst|]. split; [exact Hm|].
  split; [exact Hland|]. split; [exact Hnet|].
  split; [apply LandingFacts.token_request_is_exchange|].
  split; [reflexivity|]. split.
  - exists (randomString 64 values1). split; [reflexivity|exact Hch].
  - rewrite Hcl, Hru. split; reflexivity.
Qed.

Lemma login_binds_exchange_to_challenge_witness :
  exists sent x w2 req,
    navigated (startLogin Demo.config Undef Demo.values1 Demo.values2 Demo.fresh)
    = Some (AUTHORIZATION_ENDPOINT Demo.config, sent)
    /\ params_get "state" sent = Some Demo.state0
    /\ params_get "code_challenge_method" sent = Some "S256"
    /\ landing_effect Demo.config Demo.landed = (w2, Ok (Some (AwaitToken x)))
    /\ network w2 = (network Demo.fresh ++ [req])%list
    /\ is_token_exchange Demo.config req = true
    /\ form_param "code" req = Some "code-1"
    /\ (exists verifier,
          form_param "code_verifier" req = Some verifier
          /\ params_get "code_challenge" sent = Some (Pkce.sha256 verifier))
    /\ form_param "client_id" req = params_get "client_id" sent
    /\ form_param "redirect_uri" req = params_get "redirect_uri" sent.
Proof.
  apply (login_binds_exchange_to_challenge Demo.config Undef Demo.values1 Demo.values2
           Demo.fresh "code-1" (Demo.query "code-1")).
  - split; [reflexivity|]. vm_compute. discriminate.
  - reflexivity.
  - discriminate.
  - reflexivity.
  - reflexivity.
Defined.

(** X7. Where the browser denies the session storage, [startLogin] still
    sends the user to the provider, keeping nothing; whatever query the
    provider returns with, the landing effect then does nothing at all: no
    request is sent and no error is set. *)
Theorem login_without_storage_is_silently_lost (C : oidc_config) (clientId : value)
    (values1 values2 : nat -> Byte.byte) (w : world) (q : list (string * string)) :
  Storage.enabled (session w) = false ->
  let w1 := startLogin C clientId values1 values2 w in
  (exists sent, navigated w1 = Some (AUTHORIZATION_ENDPOINT C, sent))
  /\ session w1 = session w
  /\ landing_effect C (load_page q w1) = (load_page q w1, Ok None)
  /\ error (ui (load_page q w1)) = ""
  /\ network (load_page q w1) = network w.
Proof.
  intros Hoff w1.
  assert (session w1 = session w) as Hs.
  { unfold w1. rewrite LoginFacts.startLogin_session.
    do 3 rewrite (DeniedFacts.saveSession_disabled _ _ (session w)) by exact Hoff.
    reflexivity. }
  split.
  { destruct (RedirectFacts.startLogin_navigates C clientId values1 values2 w)
      as (sent & Hnav & _). eauto. }
  split; [exact Hs|]. split; [|split; reflexivity].
  unfold landing_effect. cbn [search session load_page]. rewrite Hs.
  rewrite (DeniedFacts.loadSession_disabled _ _ _ Hoff).
  destruct (params_get "code" q) as [code|]; [|reflexivity].
  destruct (params_get "state" q) as [state|]; [|reflexivity].
  cbn [strict_equal negb]. by rewrite !orb_true_r.
Qed.

Lemma login_without_storage_is_silently_lost_witness :
  let off := {| Storage.items := ∅; Storage.enabled := false; Storage.quota := 0 |} in
  let w := {| ui := initial_component off; session := off; search := [];
              network := []; navigated := None |} in
  let w1 := startLogin Demo.config Undef Demo.values1 Demo.values2 w in
  landing_effect Demo.config (load_page (Demo.query "code-1") w1)
  = (load_page (Demo.query "code-1") w1, Ok None).
Proof.
  intros off w w1.
  apply (login_without_storage_is_silently_lost Demo.config Undef Demo.values1
           Demo.values2 w (Demo.query "code-1")).
  reflexivity.
Defined.

(** X8. A sign-in survives a reload. When the token endpoint answers the
    exchange with a 2xx response and a truthy JSON body, and the storage
    takes the write, the token set, tagged with the client it was issued
    to, is in the component and in the storage alike, and a later load of
    the page, whatever its address, starts from exactly that token set;
    the in-flight flag is released and the query is gone from the
    address. *)
Theorem exchange_survives_reload (x : exchange) (res : response) (json : value)
    (w : world) (q : list (string * string)) :
  ok res = true -> Http.json false res = Some json -> truthy json = true ->
  let stored := tag_client json (ex_client x) in
  serializable stored ->
  written "tokens" stored (session w) ->
  let w' := landing_resume (AwaitToken x) (Resolved res) w in
  tokens (ui w') = stored
  /\ loadSession "tokens" Null (session w') = stored
  /\ tokens (ui (load_page q w')) = stored
  /\ (forall fs, json = Obj fs -> prop "_client_id" stored = ex_client x)
  /\ exchangingRef (ui w') = false
  /\ search w' = [].
Proof.
  intros Hok Hj Ht stored Hs Hw w'.
  assert (loadSession "tokens" Null (session w') = stored) as Hload.
  { unfold w', landing_resume, landing_rest, exchange_finish.
    rewrite Hok, Hj. cbn [negb or_default]. rewrite Ht. cbn [negb]. fold stored.
    destruct (KeepFacts.written_saved "tokens" stored (session w) Hs Hw) as (He & Hi).
    destruct (string_truthy (ex_state x)); cbn [session on_ui on_session set_search].
    - apply RoomFacts.loadSession_stored; [exact Hs| |].
      + by rewrite KeepFacts.forget_flow_enabled.
      + rewrite LandingFacts.forget_flow_other; [exact Hi| |]; cbn; discriminate.
    - by apply RoomFacts.loadSession_stored. }
  split.
  { unfold w', landing_resume, landing_rest, exchange_finish.
    rewrite Hok, Hj. cbn [negb or_default]. rewrite Ht. cbn [negb].
    destruct (string_truthy (ex_state x)); reflexivity. }
  split; [exact Hload|]. split; [exact Hload|]. split.
  { intros fs ->. unfold stored. cbn. rewrite JsFacts.lookup_set_field.
    by rewrite String.eqb_refl. }
  split; reflexivity.
Qed.

Lemma exchange_survives_reload_witness :
  let x := {| ex_state := Some Demo.state0; ex_client := Str (CLIENT_ID Demo.config) |} in
  let w := fst (landing_effect Demo.config Demo.landed) in
  let w' := landing_resume (AwaitToken x) (Demo.json_reply 200 Demo.login_tokens) w in
  tokens (ui (load_page [] w')) = tag_client Demo.login_tokens (Str (CLIENT_ID Demo.config))
  /\ prop "_client_id" (tokens (ui (load_page [] w'))) = Str "YOUR_CLIENT_ID_FOR_LOGIN".
Proof.
  intros x w w'.
  assert (serializable (tag_client Demo.login_tokens (ex_client x))) as Hs.
  { cbn. repeat split. apply (bool_decide_unpack _). vm_compute. exact I. }
  assert (written "tokens" (tag_client Demo.login_tokens (ex_client x)) (session w)) as Hw.
  { eexists. vm_compute. reflexivity. }
  destruct (exchange_survives_reload x
              {| status := 200; content := JSON_stringify Demo.login_tokens |}
              Demo.login_tokens w []
              eq_refl ltac:(vm_compute; reflexivity) eq_refl Hs Hw)
    as (_ & _ & Hback & _).
  split; [exact Hback|].
  unfold w', Demo.json_reply. rewrite Hback. reflexivity.
Defined.

(** X9. The step-up request names the signed-in user. When the token set
    on the page holds an ID token whose payload segment encodes an ASCII
    JSON object with a non-empty [username] string, the one request
    [emailOtpFlow] sends, a credentialed form post to the authorization
    endpoint in direct response mode, carries that user name, together
    with the client it was called for (the step-up client by default). *)
Theorem stepup_request_names_the_user (C : oidc_config) (clientId : value)
    (snapshot : component) (reply : outcome) (w : world)
    (header signature username : string) (claims fields : list (string * value)) :
  let payload := Obj (("username", Str username) :: claims) in
  serializable payload ->
  ascii_only (text_of payload) = true ->
  Pkce.mentions "." header = false ->
  username <> "" ->
  tokens snapshot = Obj fields ->
  lookup_field "id_token" fields
  = Str (header ++ "."
         ++ Pkce.base64UrlEncode (Pkce.TextEncoder_encode (text_of payload))
         ++ "." ++ signature) ->
  exists params,
    network (fst (emailOtpFlow C clientId snapshot reply w))
    = (network w
       ++ [ {| url := AUTHORIZATION_ENDPOINT C ++ "/"; method := "POST";
               headers := [ ("Accept", "application/json");
                            ("Content-Type", "application/x-www-form-urlencoded") ];
               body := Form params; credentials_include := true |} ])%list
    /\ params_get "username" params = Some username
    /\ params_get "client_id" params = Some (to_string (clientId ||| Str (CLIENT_ID2 C)))
    /\ params_get "response_mode" params = Some "direct"
    /\ params_get "redirect_uri" params = Some (REDIRECT_URI C).
Proof.
  intros payload Hs Ha Hh Hu Ht Hid.
  rewrite NameFacts.emailOtpFlow_network.
  unfold emailOtpFlow, bind, fetch. cbv zeta. cbn [fst network send].
  rewrite Ht. rewrite (WiringFacts.or_else_truthy (Obj fields)) by reflexivity.
  assert (oprop "id_token" (Obj fields)
          = Str (header ++ "."
                 ++ Pkce.base64UrlEncode (Pkce.TextEncoder_encode (text_of payload))
                 ++ "." ++ signature)) as -> by exact Hid.
  rewrite (CodecFacts.parseJwt_reads header signature payload Hs Ha Hh).
  assert (negb (String.eqb username "") = true) as Tu.
  { apply negb_true_iff. by apply String.eqb_neq. }
  cbn [payload truthy is_object prop lookup_field String.eqb Ascii.eqb Bool.eqb andb].
  rewrite Tu. cbn [to_string string_truthy]. rewrite Tu.
  eexists. split; [reflexivity|]. cbn. auto.
Qed.

Lemma stepup_request_names_the_user_witness :
  let id_token :=
    "eyJhbGciOiJub25lIn0" ++ "."
    ++ Pkce.base64UrlEncode
         (Pkce.TextEncoder_encode (text_of (Obj [ ("username", Str "alice") ])))
    ++ "." ++ "c2ln" in
  let snapshot := setTokens (Obj [ ("access_token", Str "AT-login");
                                   ("id_token", Str id_token) ]) (ui Demo.shopping) in
  exists params,
    network (fst (emailOtpFlow Demo.config Undef snapshot
                    (Demo.json_reply 200 Demo.challenge) Demo.shopping))
    = (network Demo.shopping
       ++ [ {| url := AUTHORIZATION_ENDPOINT Demo.config ++ "/"; method := "POST";
               headers := [ ("Accept", "application/json");
                            ("Content-Type", "application/x-www-form-urlencoded") ];
               body := Form params; credentials_include := true |} ])%list
    /\ params_get "username" params = Some "alice"
    /\ params_get "client_id" params = Some "YOUR_CLIENT_ID_FOR_TRANSACTIONS"
    /\ params_get "response_mode" params = Some "direct"
    /\ params_get "redirect_uri" params = Some "http://localhost:5173".
Proof.
  intros id_token snapshot.
  apply (stepup_request_names_the_user Demo.config Undef snapshot
           (Demo.json_reply 200 Demo.challenge) Demo.shopping
           "eyJhbGciOiJub25lIn0" "c2ln" "alice" []
           [ ("access_token", Str "AT-login"); ("id_token", Str id_token) ]).
  - cbn. repeat split. apply (bool_decide_unpack _). vm_compute. exact I.
  - reflexivity.
  - reflexivity.
  - discriminate.
  - reflexivity.
  - reflexivity.
Defined.








(** X13. A bought policy shows on the vehicle and closes the quote. When
    the purchase request is answered with a 2xx response and a truthy JSON
    policy, the selected vehicle becomes a copy of itself marked insured
    under the policy's number (or [id]) and end date, with quoting
    switched off; in the list every vehicle with the selected identifier is
    replaced by that copy, every other is kept in place; success is
    flagged and the quote is dropped; and [handleGetQuote] for the updated
    vehicle is turned down without a request. *)
Theorem purchase_marks_vehicle_insured (API_CONFIG : Api.api_config)
    (API_MORE : Calls.addresses) (c : component) (res1 : response) (policy b : value)
    (l : list value) (w : world) :
  bearer_of (tokens c) = Ok b -> truthy b = true ->
  truthy (selectedVehicle c) = true -> truthy (quote c) = true ->
  ok res1 = true -> Http.json false res1 = Some policy -> truthy policy = true ->
  vehicles c = Arr l -> Forall (fun v => nullish v = false) l ->
  let w' := fst (purchase API_CONFIG c (Resolved res1) w) in
  let updated := selectedVehicle (ui w') in
  vehicles (ui w')
  = Arr (map (fun v => if strict_equal (prop "vehicleId" v)
                            (prop "vehicleId" (selectedVehicle c))
                       then updated else v) l)
  /\ prop "isInsured" (prop "insuranceStatus" updated) = Bool true
  /\ prop "policyId" (prop "insuranceStatus" updated)
     = prop "policyNumber" policy ||| prop "id" policy
  /\ prop "insuredUntil" (prop "insuranceStatus" updated) = prop "endDate" policy
  /\ prop "canGetQuote" (prop "actionsAvailable" updated) = Bool false
  /\ prop "vehicleId" updated = prop "vehicleId" (selectedVehicle c)
  /\ purchaseSuccess (ui w') = true
  /\ quote (ui w') = Null
  /\ forall (reply : outcome) (d : desk),
       network (page (fst (handleGetQuote API_MORE updated reply d))) = network (page d)
       /\ error (ui (page (fst (handleGetQuote API_MORE updated reply d))))
          = "This vehicle already has active insurance".
Proof.
  intros Hb Ht Hv Hq Hok Hj Hp Hl Hn. cbv zeta.
  destruct (PolicyFacts.insured_fields (selectedVehicle c) policy)
    as (F1 & F2 & F3 & F4 & _ & F6 & F7).
  assert (fst (purchase API_CONFIG c (Resolved res1) w)
          = on_ui (setOtpValue "")
              (on_ui (setOtpVisible false)
                 (on_ui (setQuote Null)
                    (on_ui (setPurchaseSuccess true)
                       (on_ui (setSelectedVehicle (insured (selectedVehicle c) policy))
                          (on_ui (setVehicles
                                    (Arr (map (fun v =>
                                                 if strict_equal (prop "vehicleId" v)
                                                      (prop "vehicleId" (selectedVehicle c))
                                                 then insured (selectedVehicle c) policy
                                                 else v) l)))
                             (send (buy_request API_CONFIG (selectedVehicle c) (quote c) b)
                                w))))))) as ->.
  { unfold purchase. rewrite Hb, Ht, Hv, Hq. cbn [negb orb].
    unfold bind, fetch, act, throw. rewrite Hok, Hj. cbn [negb or_default]. rewrite Hp.
    cbn [negb]. unfold updated_vehicles. rewrite Hl.
    unfold or_else. cbn [truthy].
    rewrite (PolicyFacts.replace_vehicle_map _ _ l Hn). reflexivity. }
  cbn [ui on_ui vehicles selectedVehicle purchaseSuccess quote setOtpValue setOtpVisible
       setQuote setPurchaseSuccess setSelectedVehicle setVehicles].
  split; [reflexivity|]. split; [exact F1|]. split; [exact F2|]. split; [exact F3|].
  split; [exact F4|]. split.
  { rewrite F6. unfold oprop. destruct (selectedVehicle c); try discriminate; reflexivity. }
  split; [reflexivity|]. split; [reflexivity|].
  intros reply d. unfold handleGetQuote. rewrite F7.
  set (u := insured (selectedVehicle c) policy) in *.
  assert (nullish (prop "insuranceStatus" u) = false) as ->.
  { unfold u, insured. cbn [prop]. rewrite JsFacts.lookup_set_field. cbn.
    rewrite JsFacts.lookup_set_field. reflexivity. }
  rewrite F1. cbn. auto.
Qed.

Lemma purchase_marks_vehicle_insured_witness :
  let c := ui Demo.otp_entered in
  let w' := fst (purchase Demo.api c (Demo.json_reply 200 Demo.policy) Demo.otp_entered) in
  prop "policyId" (prop "insuranceStatus" (selectedVehicle (ui w'))) = Str "POL-2026-000001"
  /\ prop "canGetQuote" (prop "actionsAvailable" (selectedVehicle (ui w'))) = Bool false
  /\ purchaseSuccess (ui w') = true.
Proof.
  intros c w'.
  destruct (purchase_marks_vehicle_insured Demo.api Trial.more_api c
              {| status := 200; content := JSON_stringify Demo.policy |}
              Demo.policy (Str "AT-login")
              (match Api.mockVehicles with Arr l => l | _ => [] end) Demo.otp_entered)
    as (_ & _ & H2 & _ & H4 & _ & H6 & _);
    [vm_compute; reflexivity ..| |].
  - repeat constructor.
  - split; [exact H2|]. split; [exact H4|exact H6].
Defined.

(** X14. The purchase address the component writes by hand is the one
    [buyInsurance] of api.ts builds with [URLSearchParams], as long as the
    vehicle and quote identifiers consist of letters, digits and [*-._];
    method, authorization and (absent) body agree as well. *)
Theorem purchase_address_agrees_with_buyInsurance (API_CONFIG : Api.api_config)
    (selectedVehicle quote bearerToken : value) :
  every query_safe (to_string (prop "vehicleId" selectedVehicle)) = true ->
  every query_safe (to_string (prop "id" quote)) = true ->
  let sent := buy_request API_CONFIG selectedVehicle quote bearerToken in
  let meant := Calls.buyInsurance_request API_CONFIG bearerToken
                 (prop "vehicleId" selectedVehicle) (prop "id" quote) in
  url sent = url meant
  /\ method sent = method meant
  /\ params_get "Authorization" (headers sent) = params_get "Authorization" (headers meant)
  /\ body sent = body meant.
Proof.
  intros Hv Hq sent meant. repeat split.
  unfold sent, meant, buy_request, Calls.buyInsurance_request. cbn [url].
  cbn [params_set String.eqb Ascii.eqb Bool.eqb].
  unfold Url.with_query, Url.serialize. cbn [map fst snd Js.join].
  rewrite (UrlFacts.encode_safe _ Hv), (UrlFacts.encode_safe _ Hq).
  change (Url.encode "vehicleId") with "vehicleId".
  change (Url.encode "quoteId") with "quoteId".
  rewrite !NumberFacts.append_assoc. reflexivity.
Qed.

Lemma purchase_address_agrees_with_buyInsurance_witness :
  url (buy_request Demo.api (selectedVehicle (ui Demo.shopping)) (quote (ui Demo.shopping))
         (Str "AT-login"))
  = url (Calls.buyInsurance_request Demo.api (Str "AT-login") (Str "VEH-003") (Str "Q-1")).
Proof.
  apply (purchase_address_agrees_with_buyInsurance Demo.api
           (selectedVehicle (ui Demo.shopping)) (quote (ui Demo.shopping))
           (Str "AT-login")); reflexivity.
Defined.

(** X15. The quote address holds one parameter whatever the vehicle
    identifier is. [getQuote] asks at [GET_QUOTE_URL] followed by
    [?vehicleId=] and the encoded identifier, and the encoded identifier
    contains none of [& = ? #] nor a space: an identifier cannot add a
    parameter to the query or cut it short. *)
Theorem getQuote_query_is_one_parameter (API_MORE : Calls.addresses)
    (accessToken vehicleId : value) :
  exists encoded,
    url (Calls.getQuote_request API_MORE accessToken vehicleId)
    = Calls.GET_QUOTE_URL API_MORE ++ "?vehicleId=" ++ encoded
    /\ encoded = Url.encode (to_string vehicleId)
    /\ every query_inert encoded = true.
Proof.
  exists (Url.encode (to_string vehicleId)). split; [|split; [reflexivity|]].
  - unfold Calls.getQuote_request, Url.with_query, Url.serialize. cbn [url map fst snd Js.join].
    change (Url.encode "vehicleId") with "vehicleId". reflexivity.
  - apply LosslessFacts.encode_bytes_inert.
Qed.



(** X17. [handleAddVehicle] either appends or leaves the page as it was and
    says why. With a list of vehicles on the page, after the handler
    either the vehicle the backend returned (a 2xx answer with a truthy
    JSON body) stands at the end of the unchanged list, the form is reset
    and hidden and no error shows; or list, form and its visibility are
    what they were and an error message is set. At most one request is
    sent, the token set and the storage are untouched, and a handler that
    got past the empty-registration check leaves [addVehicleLoading]
    off. The reply is a [readable] one. *)
Theorem handleAddVehicle_appends_or_explains (API_MORE : Calls.addresses)
    (thisYear : Z) (reply : outcome) (d0 : desk) (l : list value) :
  vehicles (ui (page d0)) = Arr l -> readable reply = true ->
  let d := handleAddVehicle API_MORE thisYear reply d0 in
  ((exists newVehicle,
      Calls.addVehicle reply = Ok newVehicle
      /\ vehicles (ui (page d)) = Arr (l ++ [newVehicle])
      /\ newVehicleForm (more d) = blank_form thisYear
      /\ showAddVehicle (more d) = false
      /\ error (ui (page d)) = "")
   \/ (vehicles (ui (page d)) = Arr l
       /\ newVehicleForm (more d) = newVehicleForm (more d0)
       /\ showAddVehicle (more d) = showAddVehicle (more d0)
       /\ error (ui (page d)) <> ""))
  /\ (exists sent, network (page d) = (network (page d0) ++ sent)%list
                   /\ length sent <= 1)
  /\ tokens (ui (page d)) = tokens (ui (page d0))
  /\ session (page d) = session (page d0)
  /\ (registrationNumber (newVehicleForm (more d0)) <> "" ->
      addVehicleLoading (more d) = false).
Proof.
  intros Hl _. cbv zeta. unfold handleAddVehicle.
  destruct (String.eqb (registrationNumber _) "") eqn:E.
  { cbn. split; [right; rewrite Hl; repeat split; discriminate|].
    split; [exists []; rewrite app_nil_r; auto|].
    apply String.eqb_eq in E. repeat split. intros H. by destruct H. }
  rewrite Hl. unfold or_else. cbn [truthy iterate].
  destruct (bearer_of _) as [b|e]; cbn.
  { destruct (truthy b); cbn.
    - destruct (Calls.addVehicle reply) as [v|e] eqn:Ha; cbn.
      + split; [left; exists v; auto|]. split; [eexists [_]; auto|]. auto.
      + split; [right; rewrite Hl; repeat split; discriminate|].
        split; [eexists [_]; auto|]. auto.
    - split; [right; rewrite Hl; repeat split; discriminate|].
      split; [exists []; rewrite app_nil_r; auto|]. auto. }
  split; [right; rewrite Hl; repeat split; discriminate|].
  split; [exists []; rewrite app_nil_r; auto|]. auto.
Qed.

Lemma handleAddVehicle_appends_or_explains_witness :
  let d := handleAddVehicle Trial.more_api 2026 (Demo.json_reply 201 Trial.added)
             Trial.typing in
  vehicles (ui (page Trial.typing)) = Api.mockVehicles
  /\ exists newVehicle,
       Calls.addVehicle (Demo.json_reply 201 Trial.added) = Ok newVehicle
       /\ vehicles (ui (page d))
          = Arr (match Api.mockVehicles with Arr l => l | _ => [] end ++ [newVehicle])
       /\ newVehicleForm (more d) = blank_form 2026
       /\ showAddVehicle (more d) = false
       /\ error (ui (page d)) = "".
Proof.
  split; [reflexivity|].
  destruct (handleAddVehicle_appends_or_explains Trial.more_api 2026
              (Demo.json_reply 201 Trial.added) Trial.typing
              (match Api.mockVehicles with Arr l => l | _ => [] end) eq_refl eq_refl)
    as ([H|(_ & _ & _ & H)] & _).
  - exact H.
  - exfalso. apply H. vm_compute. reflexivity.
Defined.

(** X18. [handleGetQuote] either shows the quote or says why not. For a
    vehicle whose [insuranceStatus] can be read, after the handler either
    the page holds the quote of a 2xx answer with a truthy JSON body and no
    error, or the quote is the one held before and an error message is
    set; a refusal of the backend reads [Failed to get quote: Failed to get
    quote: <status> <body>], the prefix of [getQuote] under that of the
    handler. An insured vehicle is turned down without a request. At most
    one request is sent, and a handler that was given an uninsured vehicle
    leaves [quoteLoading] off. The reply is a [readable] one. *)
Theorem handleGetQuote_quotes_or_explains (API_MORE : Calls.addresses)
    (vehicle : value) (reply : outcome) (d0 : desk) :
  nullish vehicle = false ->
  nullish (prop "insuranceStatus" vehicle) = false ->
  readable reply = true ->
  let insured := truthy (prop "isInsured" (prop "insuranceStatus" vehicle)) in
  let d := fst (handleGetQuote API_MORE vehicle reply d0) in
  snd (handleGetQuote API_MORE vehicle reply d0) = Ok tt
  /\ ((exists quoteData,
         Calls.getQuote reply = Ok quoteData
         /\ quote (ui (page d)) = quoteData
         /\ error (ui (page d)) = "")
      \/ (quote (ui (page d)) = quote (ui (page d0)) /\ error (ui (page d)) <> ""))
  /\ (insured = true ->
      network (page d) = network (page d0)
      /\ error (ui (page d)) = "This vehicle already has active insurance"
      /\ more d = more d0)
  /\ (insured = false -> quoteLoading (more d) = false)
  /\ (exists sent, network (page d) = (network (page d0) ++ sent)%list
                   /\ length sent <= 1)
  /\ (forall res b,
        insured = false -> bearer_of (tokens (ui (page d0))) = Ok b -> truthy b = true ->
        reply = Resolved res -> ok res = false ->
        error (ui (page d))
        = "Failed to get quote: Failed to get quote: " ++ status_text (status res)
          ++ " " ++ or_default "" (content res)).
Proof.
  intros Hv Hs _. cbv zeta. unfold handleGetQuote. rewrite Hv, Hs.
  destruct (truthy (prop "isInsured" _)) eqn:Hi.
  { cbn. split; [reflexivity|]. split; [right; split; [reflexivity|discriminate]|].
    split; [auto|]. split; [discriminate|].
    split; [exists []; rewrite app_nil_r; auto|]. discriminate. }
  cbn [fst snd]. split; [reflexivity|].
  destruct (bearer_of _) as [b|e]; cbn.
  - destruct (truthy b) eqn:Hb; cbn.
    + destruct (Calls.getQuote reply) as [v|e] eqn:Hq; cbn.
      * split; [left; exists v; auto|]. split; [discriminate|]. split; [auto|].
        split; [eexists [_]; auto|].
        intros res b' _ _ _ -> Hok. unfold Calls.getQuote in Hq. rewrite Hok in Hq.
        discriminate.
      * split; [right; split; [reflexivity|discriminate]|]. split; [discriminate|].
        split; [auto|]. split; [eexists [_]; auto|].
        intros res b' _ _ _ -> Hok. unfold Calls.getQuote in Hq. rewrite Hok in Hq.
        cbn [negb] in Hq. injection Hq as <-. reflexivity.
    + split; [right; split; [reflexivity|discriminate]|]. split; [discriminate|].
      split; [auto|]. split; [exists []; rewrite app_nil_r; auto|].
      intros res b' _ [= <-] Hb'. congruence.
  - split; [right; split; [reflexivity|discriminate]|]. split; [discriminate|].
    split; [auto|]. split; [exists []; rewrite app_nil_r; auto|].
    intros res b' _ [=].
Qed.

Lemma handleGetQuote_quotes_or_explains_witness :
  let d := fst (handleGetQuote Trial.more_api Trial.van
                  (Resolved {| status := 404; content := Some "no such vehicle" |})
                  Trial.listed) in
  error (ui (page d))
  = "Failed to get quote: Failed to get quote: 404 no such vehicle"
  /\ quoteLoading (more d) = false.
Proof.
  destruct (handleGetQuote_quotes_or_explains Trial.more_api Trial.van
              (Resolved {| status := 404; content := Some "no such vehicle" |})
              Trial.listed eq_refl eq_refl eq_refl)
    as (_ & _ & _ & Hl & _ & He).
  split; [|exact (Hl eq_refl)].
  exact (He _ (Str "AT-login") eq_refl eq_refl eq_refl eq_refl eq_refl).
Defined.


(** X20. The chat panel sends what was typed and keeps its history. With
    blank input, no access token or a request in flight, [sendMessage]
    changes nothing. Otherwise it appends the user's message, holding
    the text exactly as typed, to the unchanged history, clears the input,
    sends one request whose JSON body reads back as that very prompt, with
    the token as bearer, and ends with [loading] off; after that message
    comes either the assistant's message, with no error, or nothing, with
    a non-empty error text. The reply is a [readable] one. *)
Theorem sendMessage_appends_what_was_typed (accessToken : value) (clock : nat -> Z)
    (reply : outcome) (r0 : Chat.room) :
  let r := Chat.sendMessage accessToken clock reply r0 in
  let typed := Chat.input (Chat.view r0) in
  (Chat.trim typed = "" \/ truthy accessToken = false
   \/ Chat.loading (Chat.view r0) = true -> r = r0)
  /\ (Chat.trim typed <> "" -> truthy accessToken = true ->
      Chat.loading (Chat.view r0) = false -> readable reply = true ->
      exists user tail sent body,
        Chat.messages (Chat.view r)
        = (Chat.messages (Chat.view r0) ++ user :: tail)%list
        /\ Chat.role user = "user"
        /\ Chat.content user = Str typed
        /\ Chat.wire r = (Chat.wire r0 ++ [sent])%list
        /\ Http.body sent = Text body
        /\ JSON_parse body = Some (Obj [ ("prompt", Str typed) ])
        /\ params_get "Authorization" (headers sent)
           = Some ("Bearer " ++ to_string accessToken)
        /\ Chat.input (Chat.view r) = ""
        /\ Chat.loading (Chat.view r) = false
        /\ ((exists assistant,
               tail = [assistant]
               /\ Chat.answer clock reply = Ok assistant
               /\ Chat.role assistant = "assistant"
               /\ Chat.error (Chat.view r) = None)
            \/ (tail = []
                /\ exists text, Chat.error (Chat.view r) = Some text /\ text <> ""))).
Proof.
  cbv zeta. unfold Chat.sendMessage. split.
  - intros [H|[H|H]].
    + by rewrite H.
    + rewrite H. cbn [negb]. by rewrite orb_true_r.
    + rewrite H. by rewrite orb_true_r.
  - intros Ht Ha Hl _. apply String.eqb_neq in Ht. rewrite Ht, Ha, Hl. cbn [negb orb].
    destruct (ChatFacts.prompt_text_parses (Chat.input (Chat.view r0))) as (body & Hb & Hp).
    assert (Http.body (Chat.chat_request accessToken (Chat.input (Chat.view r0)))
            = Text body) as Hbody.
    { unfold Chat.chat_request. cbn [Http.body]. by rewrite Hb. }
    destruct (Chat.answer clock reply) as [m|err] eqn:Hans.
    + eexists _, [m], (Chat.chat_request accessToken (Chat.input (Chat.view r0))), body.
      cbn [Chat.view Chat.wire Chat.on_view Chat.messages Chat.input Chat.loading
           Chat.error Chat.setMessages Chat.setInput Chat.setLoading Chat.setError
           Chat.role Chat.content].
      rewrite <- app_assoc. split; [reflexivity|]. split; [reflexivity|].
      split; [reflexivity|]. split; [reflexivity|]. split; [exact Hbody|].
      split; [exact Hp|]. split; [reflexivity|]. split; [reflexivity|].
      split; [reflexivity|]. left. exists m. repeat split.
      unfold Chat.answer in Hans. repeat case_match; try discriminate.
      by injection Hans as <-.
    + eexists _, [], (Chat.chat_request accessToken (Chat.input (Chat.view r0))), body.
      cbn [Chat.view Chat.wire Chat.on_view Chat.messages Chat.input Chat.loading
           Chat.error Chat.setMessages Chat.setInput Chat.setLoading Chat.setError
           Chat.role Chat.content].
      split; [reflexivity|]. split; [reflexivity|].
      split; [reflexivity|]. split; [reflexivity|]. split; [exact Hbody|].
      split; [exact Hp|]. split; [reflexivity|]. split; [reflexivity|].
      split; [reflexivity|]. right. split; [done|]. eexists. split; [reflexivity|].
      by eapply ChatFacts.answer_message_nonempty.
Qed.

Lemma sendMessage_appends_what_was_typed_witness :
  let r := Chat.sendMessage (Str "AT-login") Lounge.clock
             (Demo.json_reply 200 Lounge.told) Lounge.asking in
  exists user tail sent body,
    Chat.messages (Chat.view r) = (user :: tail)%list
    /\ Chat.content user = Str "Is my van insured?"
    /\ Chat.wire r = [sent]
    /\ Http.body sent = Text body
    /\ JSON_parse body = Some (Obj [ ("prompt", Str "Is my van insured?") ])
    /\ Chat.loading (Chat.view r) = false.
Proof.
  destruct (sendMessage_appends_what_was_typed (Str "AT-login") Lounge.clock
              (Demo.json_reply 200 Lounge.told) Lounge.asking) as (_ & H).
  destruct H as (user & tail & sent & body & Hm & _ & Hc & Hw & Hb & Hp & _ & _ & Hl & _);
    [discriminate|reflexivity|reflexivity|reflexivity|].
  exists user, tail, sent, body.
  split; [exact Hm|]. split; [exact Hc|]. split; [exact Hw|]. split; [exact Hb|].
  split; [exact Hp|exact Hl].
Defined.



(** X22. [isPolicyInfoRequest] looks for its keywords anywhere and in any
    case: a prompt that contains a prompt asking for policy information
    asks for it too, whatever stands before and after; lower-casing a
    prompt does not change the answer; and since [vehicles] and [cars]
    begin with other keywords, the answer is the same without them. *)
Theorem isPolicyInfoRequest_ignores_case_and_context (before prompt after : string) :
  (Backend.isPolicyInfoRequest prompt = true ->
   Backend.isPolicyInfoRequest (before ++ prompt ++ after) = true)
  /\ Backend.isPolicyInfoRequest (Backend.toLowerCase prompt)
     = Backend.isPolicyInfoRequest prompt
  /\ Backend.isPolicyInfoRequest prompt
     = existsb (fun keyword => Backend.includes keyword (Backend.toLowerCase prompt))
         [ "vehicle"; "car"; "insurance"; "policy"; "coverage"; "premium"; "insured";
           "van"; "motorcycle"; "bike"; "registration"; "summary"; "overview";
           "policies" ].
Proof.
  unfold Backend.isPolicyInfoRequest. cbv zeta. split; [|split].
  - rewrite !existsb_exists. intros (k & Hk & Hin). exists k. split; [exact Hk|].
    rewrite !BackendFacts.toLowerCase_app. by apply BackendFacts.includes_within.
  - by rewrite BackendFacts.toLowerCase_twice.
  - set (l := Backend.toLowerCase prompt). unfold Backend.keywords. cbn [existsb].
    destruct (Backend.includes "vehicle" l) eqn:Ev; [reflexivity|].
    destruct (Backend.includes "car" l) eqn:Ec; [reflexivity|].
    assert (Backend.includes "vehicles" l = false) as ->.
    { destruct (Backend.includes "vehicles" l) eqn:E; [|reflexivity].
      apply (BackendFacts.includes_shorter "vehicle" "s") in E. congruence. }
    assert (Backend.includes "cars" l = false) as ->.
    { destruct (Backend.includes "cars" l) eqn:E; [|reflexivity].
      apply (BackendFacts.includes_shorter "car" "s") in E. congruence. }
    cbn [orb]. reflexivity.
Qed.

Lemma isPolicyInfoRequest_ignores_case_and_context_witness :
  Backend.isPolicyInfoRequest ("Is my " ++ "VAN" ++ " insured?") = true.
Proof.
  destruct (isPolicyInfoRequest_ignores_case_and_context "Is my " "VAN" " insured?")
    as (H & _).
  apply H. reflexivity.
Defined.

(** X23. How the panel reads the backend's answers. Fed what the handler of
    [/chat] responds, whatever the request, the MCP answer and
    [generateResponse] were, the panel shows an assistant message exactly
    for a 200, with the generated text and with [hadTransactions] never
    set (the backend reports [hadPolicyInfo]); for a 400 or a 401 its error
    reads [HTTP 400] or [HTTP 401], the backend's explanation never
    showing; for a 500 it is the backend's [message], or [HTTP 500] when
    that is empty. *)
Theorem panel_reads_backend_answer
    (generateResponse : string -> value -> result string)
    (body : value) (authorization : option string) (mcp : result value)
    (clock : nat -> Z) :
  let reply := fst (Backend.chat generateResponse body authorization mcp) in
  match Chat.answer clock (Resolved (Backend.respond reply)) with
  | Ok m =>
      fst reply = 200
      /\ Chat.role m = "assistant"
      /\ Chat.content m = prop "response" (snd reply)
      /\ (exists text, Chat.content m = Str text)
      /\ Chat.hadTransactions m = Undef
  | Throw e =>
      (fst reply = 400 /\ emessage e = "HTTP 400")
      \/ (fst reply = 401 /\ emessage e = "HTTP 401")
      \/ (fst reply = 500
          /\ exists message,
               prop "message" (snd reply) = Str message
               /\ emessage e = if String.eqb message "" then "HTTP 500" else message)
  end.
Proof.
  cbv zeta.
  pose proof (BackendFacts.reply_serializable generateResponse body authorization mcp) as Hs.
  destruct (BackendFacts.reply_shape generateResponse body authorization mcp)
    as [H|[H|[(e & H)|(text & had & data & H)]]];
    rewrite H in Hs |- *; pose proof (BackendFacts.respond_read _ Hs) as Hr;
    unfold Chat.answer; rewrite Hr; clear Hr Hs H.
  - left. split; reflexivity.
  - right. left. split; reflexivity.
  - right. right. split; [reflexivity|]. exists (emessage e). split; [reflexivity|].
    cbn. unfold or_else. cbn. by destruct (String.eqb (emessage e) "").
  - cbn. eauto 6.
Qed.

